(** * diff-preview: a shallow embedding of [tools/diff-preview.go]

    The tool asks git for the pending changes, stages a before/after copy of
    every changed file under a scratch directory and opens WinMerge on the
    pair.  This file embeds the program function by function and proves the
    properties its specification states.

    Go strings and byte slices are byte sequences: [list ascii].  Package
    level variables, the file system, standard output and the subprocesses
    started so far make up an explicit program state; [os.Exit] is an outcome
    of its own, so a fatal error stops everything that follows it. *)

From Stdlib Require Import ZArith NArith Ascii String List Lia.
From stdpp Require Import base list gmap strings.

Open Scope string_scope.
Open Scope list_scope.

(** A Go [string] / [[]byte]. String literals are read as their bytes. *)
Abbreviation gostr := (list ascii).
Coercion list_ascii_of_string : string >-> list.

Definition byte_is (n : N) (c : ascii) : bool := N.eqb (N_of_ascii c) n.
Definition byte_in (lo hi : N) (c : ascii) : bool :=
  N.leb lo (N_of_ascii c) && N.leb (N_of_ascii c) hi.

(** ** Package [strings] *)
Module strings.

(** The first piece of [s] before [sep], and the pieces after it. *)
Fixpoint pieces (s : gostr) (sep : ascii) : gostr * list gostr :=
  match s with
  | [] => ([], [])
  | c :: s' =>
      let (h, t) := pieces s' sep in
      if decide (c = sep) then ([], h :: t) else (c :: h, t)
  end.

(** [strings.Split(s, sep)] for a one-byte separator: always at least one
    piece. *)
Definition Split (s : gostr) (sep : ascii) : list gostr :=
  let (h, t) := pieces s sep in h :: t.

(** [s] cut around the first [sep]: the text before it and, when [sep]
    occurs, the text after it. *)
Fixpoint Cut (s : gostr) (sep : ascii) : gostr * option gostr :=
  match s with
  | [] => ([], None)
  | c :: s' =>
      if decide (c = sep) then ([], Some s')
      else let (b, a) := Cut s' sep in (c :: b, a)
  end.

(** [strings.SplitN(s, sep, n)] for a one-byte separator and [n >= 0]: at
    most [n] pieces, the last one being the unsplit remainder. *)
Fixpoint SplitN (s : gostr) (sep : ascii) (n : nat) : list gostr :=
  match n with
  | 0 => []
  | 1 => [s]
  | S n' =>
      match Cut s sep with
      | (b, Some a) => b :: SplitN a sep n'
      | (_, None) => [s]
      end
  end.

(** [strings.Join(elems, sep)]. *)
Fixpoint Join (elems : list gostr) (sep : gostr) : gostr :=
  match elems with
  | [] => []
  | [e] => e
  | e :: es => e ++ sep ++ Join es sep
  end.

(** [strings.Replace(s, old, new, -1)] for one-byte [old] and [new]. *)
Definition Replace (s : gostr) (old new : ascii) : gostr :=
  map (fun c => if decide (c = old) then new else c) s.

(** White space as [unicode.IsSpace] has it, in its UTF-8 encoding:
    U+0009..U+000D and U+0020 (one byte); U+0085 and U+00A0 (two bytes);
    U+1680, U+2000..U+200A, U+2028, U+2029, U+202F, U+205F, U+3000 (three
    bytes). *)
Definition space1 (c : ascii) : bool := byte_in 9 13 c || byte_is 32 c.

Definition space2 (c1 c2 : ascii) : bool :=
  byte_is 194 c1 && (byte_is 133 c2 || byte_is 160 c2).

Definition space3 (c1 c2 c3 : ascii) : bool :=
  byte_is 225 c1 && byte_is 154 c2 && byte_is 128 c3
  || byte_is 226 c1 && byte_is 128 c2
     && (byte_in 128 138 c3 || byte_is 168 c3 || byte_is 169 c3
         || byte_is 175 c3)
  || byte_is 226 c1 && byte_is 129 c2 && byte_is 159 c3
  || byte_is 227 c1 && byte_is 128 c2 && byte_is 128 c3.

(** Runes of one, two or three bytes, recognised by [f1], [f2], [f3],
    removed from the front of [s] for as long as [s] starts with one. *)
Section Runes.
Variable f1 : ascii -> bool.
Variable f2 : ascii -> ascii -> bool.
Variable f3 : ascii -> ascii -> ascii -> bool.

Fixpoint trimRunes (s : gostr) : gostr :=
  match s with
  | [] => []
  | c1 :: r1 =>
      if f1 c1 then trimRunes r1 else
      match r1 with
      | [] => s
      | c2 :: r2 =>
          if f2 c1 c2 then trimRunes r2 else
          match r2 with
          | [] => s
          | c3 :: r3 => if f3 c1 c2 c3 then trimRunes r3 else s
          end
      end
  end.

End Runes.

(** Leading white space removed ([strings.TrimLeftFunc(s, unicode.IsSpace)]). *)
Definition TrimLeft (s : gostr) : gostr := trimRunes space1 space2 space3 s.

(** The same on the reversed bytes; a rune is then met last byte first. *)
Definition space2r (c1 c2 : ascii) : bool := space2 c2 c1.
Definition space3r (c1 c2 c3 : ascii) : bool := space3 c3 c2 c1.

Definition TrimLeftRev (s : gostr) : gostr :=
  trimRunes space1 space2r space3r s.

(** Trailing white space removed
    ([strings.TrimRightFunc(s, unicode.IsSpace)]). *)
Definition TrimRight (s : gostr) : gostr := rev (TrimLeftRev (rev s)).

(** [strings.TrimSpace(s)]: leading, then trailing white space removed. *)
Definition TrimSpace (s : gostr) : gostr := TrimRight (TrimLeft s).

End strings.

(** ** Package [path/filepath], as it is on Windows

    The tool is a Windows tool (WinMerge, [%TEMP%], back-slashed paths).
    [Base] is the one path function whose result the parser stores, so it is
    embedded in full; [Join] and [Dir] are taken from the platform, see
    [Platform] below. *)
Module filepath.

Definition Separator : ascii := "\"%char.

Definition isSlash (c : ascii) : bool :=
  bool_decide (c = "\"%char) || bool_decide (c = "/"%char).

Definition isLetter (c : ascii) : bool := byte_in 97 122 c || byte_in 65 90 c.

Fixpoint dropWhile (f : ascii -> bool) (s : gostr) : gostr :=
  match s with
  | [] => []
  | c :: s' => if f c then dropWhile f s' else s
  end.

Fixpoint takeWhile (f : ascii -> bool) (s : gostr) : gostr :=
  match s with
  | [] => []
  | c :: s' => if f c then c :: takeWhile f s' else []
  end.

(** The scan of [volumeNameLen] over a UNC path, from index [n] on ([s] is
    [path[n:]]): the server name ends at the first slash, which must be
    followed by a share name that neither is empty nor starts with a dot;
    the volume name ends where the share name does. *)
Fixpoint uncScan (s : gostr) (n : nat) : nat :=
  match s with
  | c :: ((c' :: _) as s') =>
      if isSlash c then
        if isSlash c' then 0
        else if bool_decide (c' = "."%char) then 0
        else S n + length (takeWhile (fun x => negb (isSlash x)) s')
      else uncScan s' (S n)
  | _ => 0
  end.

(** Length of the leading volume name: a drive letter with its colon, or
    [\\server\share]. *)
Definition volumeNameLen (path : gostr) : nat :=
  match path with
  | c :: c1 :: rest =>
      if bool_decide (c1 = ":"%char) && isLetter c then 2
      else
        match rest with
        | c2 :: rest3 =>
            if (5 <=? length path)%nat && isSlash c && isSlash c1
               && negb (isSlash c2) && negb (bool_decide (c2 = "."%char))
            then uncScan rest3 3
            else 0
        | [] => 0
        end
  | _ => 0
  end.

(** [filepath.Base(path)]: the last element of [path]. Trailing separators
    go first, then the volume name, then everything up to the last
    separator; an empty path gives ".", a path of separators only gives a
    single separator. *)
Definition Base (path : gostr) : gostr :=
  match path with
  | [] => "."
  | _ =>
      let path1 := rev (dropWhile isSlash (rev path)) in
      let path2 := drop (volumeNameLen path1) path1 in
      let path3 := rev (takeWhile (fun x => negb (isSlash x)) (rev path2)) in
      match path3 with
      | [] => [Separator]
      | _ => path3
      end
  end.

End filepath.

(** ** Data model *)

(** The change kinds, [iota] constants of type [int]. *)
Definition Modified : Z := 0%Z.
Definition Added : Z := 1%Z.
Definition Deleted : Z := 2%Z.
Definition NotCheckedIn : Z := 3%Z.

Record GitChange := {
  Type_ : Z;       (* Modified, Added etc. *)
  Path : gostr;
  Name : gostr
}.

(** ** The program's surroundings *)

(** A Go [error] value: what failed, and on what. *)
Inductive error :=
  | PathError (op : gostr) (path : gostr)
  | ExecError (exe : gostr) (args : list gostr).

(** What [ioutil.ReadDir] reports about one directory entry. *)
Record FileInfo := {
  fi_Name : gostr;
  fi_IsDir : bool;
  fi_ModTime : Z
}.

(** The file system is a name space of files and directories.  A node is
    keyed by the list of its path components from the root; modification
    times are in nanoseconds. *)
Inductive Node :=
  | File (mtime : Z) (data : gostr)
  | Dir (mtime : Z).

(** An argument of [fmt.Printf]; output is kept as the format and its
    arguments. *)
Inductive Arg :=
  | AStr (s : gostr)
  | AStrs (l : list gostr)
  | AInt (n : Z)
  | ADuration (d : Z)
  | AChange (c : GitChange)
  | AErr (e : error).

Inductive Output :=
  | Print (format : gostr) (args : list Arg)
  | StackDump.

(** Everything outside the program that answers it: the search path, the
    environment, the subprocesses it runs, the clock, and the path functions
    of the standard library that depend on the platform.

    [resolve wd p] is the key of the node that the path [p] names when the
    working directory is [wd]; [pathOf] is the absolute path [os.Getwd]
    reports for a directory. *)
Record Platform := {
  LookPath : gostr -> option gostr;
  Getenv : gostr -> gostr;
  Run : gostr -> list gostr -> gostr * option error;
  Clock : nat -> Z;
  Format : Z -> gostr -> gostr;
  Join : gostr -> gostr -> gostr;
  Dir_ : gostr -> gostr;
  ToLower : gostr -> gostr;
  resolve : list gostr -> gostr -> list gostr;
  pathOf : list gostr -> gostr
}.

(** The program state: the three package variables and the world. *)
Record State := {
  gitPath : gostr;
  winMergePath : gostr;
  tempDir : gostr;
  fs : gmap (list gostr) Node;
  cwd : list gostr;
  stdout : list Output;
  procs : list (gostr * list gostr);   (* subprocesses run, oldest first *)
  ticks : nat                          (* readings of the clock taken *)
}.

Definition set_gitPath (v : gostr) (s : State) : State :=
  {| gitPath := v; winMergePath := winMergePath s; tempDir := tempDir s;
     fs := fs s; cwd := cwd s; stdout := stdout s; procs := procs s;
     ticks := ticks s |}.
Definition set_winMergePath (v : gostr) (s : State) : State :=
  {| gitPath := gitPath s; winMergePath := v; tempDir := tempDir s;
     fs := fs s; cwd := cwd s; stdout := stdout s; procs := procs s;
     ticks := ticks s |}.
Definition set_tempDir (v : gostr) (s : State) : State :=
  {| gitPath := gitPath s; winMergePath := winMergePath s; tempDir := v;
     fs := fs s; cwd := cwd s; stdout := stdout s; procs := procs s;
     ticks := ticks s |}.
Definition set_fs (v : gmap (list gostr) Node) (s : State) : State :=
  {| gitPath := gitPath s; winMergePath := winMergePath s; tempDir := tempDir s;
     fs := v; cwd := cwd s; stdout := stdout s; procs := procs s;
     ticks := ticks s |}.
Definition set_cwd (v : list gostr) (s : State) : State :=
  {| gitPath := gitPath s; winMergePath := winMergePath s; tempDir := tempDir s;
     fs := fs s; cwd := v; stdout := stdout s; procs := procs s;
     ticks := ticks s |}.
Definition set_stdout (v : list Output) (s : State) : State :=
  {| gitPath := gitPath s; winMergePath := winMergePath s; tempDir := tempDir s;
     fs := fs s; cwd := cwd s; stdout := v; procs := procs s;
     ticks := ticks s |}.
Definition set_procs (v : list (gostr * list gostr)) (s : State) : State :=
  {| gitPath := gitPath s; winMergePath := winMergePath s; tempDir := tempDir s;
     fs := fs s; cwd := cwd s; stdout := stdout s; procs := v;
     ticks := ticks s |}.
Definition set_ticks (v : nat) (s : State) : State :=
  {| gitPath := gitPath s; winMergePath := winMergePath s; tempDir := tempDir s;
     fs := fs s; cwd := cwd s; stdout := stdout s; procs := procs s;
     ticks := v |}.

(** ** The monad of the program

    A computation runs from a state and either returns a value and a state,
    or leaves the process through [os.Exit] with a status, or has not
    finished within the fuel given to an unbounded loop. *)
Inductive Result (A : Type) :=
  | Return (a : A) (s : State)
  | Exited (code : Z) (s : State)
  | OutOfFuel.
Arguments Return {A} a s.
Arguments Exited {A} code s.
Arguments OutOfFuel {A}.

Definition M (A : Type) : Type := State -> Result A.

Definition ret {A} (a : A) : M A := fun s => Return a s.

Definition bind {A B} (m : M A) (k : A -> M B) : M B :=
  fun s =>
    match m s with
    | Return a s' => k a s'
    | Exited c s' => Exited c s'
    | OutOfFuel => OutOfFuel
    end.

Global Instance M_ret : MRet M := @ret.
Global Instance M_bind : MBind M := fun A B k m => bind m k.

Definition outOfFuel {A} : M A := fun _ => OutOfFuel.
Definition get {A} (f : State -> A) : M A := fun s => Return (f s) s.
Definition modify (f : State -> State) : M unit := fun s => Return tt (f s).

(** [for _, x := range l { body x }] *)
Fixpoint forEach {A} (l : list A) (body : A -> M unit) : M unit :=
  match l with
  | [] => ret tt
  | x :: l' => body x;; forEach l' body
  end.

(** ** The operating system

    An operation fails when the name space says so: a missing parent, a
    directory or a file in the way, nothing there to open.  Failures of
    other causes (permissions, a full disk, a file in use) are outside the
    model; so is the modification time of a directory after its creation. *)

Definition newline : ascii := ascii_of_nat 10.

(** Byte-wise lexicographic order, the order [ioutil.ReadDir] sorts names
    by. *)
Fixpoint bytes_leb (a b : gostr) : bool :=
  match a, b with
  | [], _ => true
  | _ :: _, [] => false
  | x :: a', y :: b' =>
      if N.ltb (N_of_ascii x) (N_of_ascii y) then true
      else if N.ltb (N_of_ascii y) (N_of_ascii x) then false
      else bytes_leb a' b'
  end.

Fixpoint insertByName (fi : FileInfo) (l : list FileInfo) : list FileInfo :=
  match l with
  | [] => [fi]
  | x :: l' =>
      if bytes_leb (fi_Name fi) (fi_Name x) then fi :: l
      else x :: insertByName fi l'
  end.

Definition sortByName (l : list FileInfo) : list FileInfo :=
  foldr insertByName [] l.

(** [childOf dir k]: the name under which the node [k] is an entry of the
    directory [dir]. *)
Definition childOf (dir k : list gostr) : option gostr :=
  match rev k with
  | name :: rparent => if decide (rev rparent = dir) then Some name else None
  | [] => None
  end.

Definition infoOf (name : gostr) (n : Node) : FileInfo :=
  match n with
  | File t _ => {| fi_Name := name; fi_IsDir := false; fi_ModTime := t |}
  | Dir t => {| fi_Name := name; fi_IsDir := true; fi_ModTime := t |}
  end.

Definition entries (m : gmap (list gostr) Node) (dir : list gostr)
  : list FileInfo :=
  omap (fun '(k, n) => option_map (fun name => infoOf name n) (childOf dir k))
       (map_to_list m).

(** The root is a directory; elsewhere a directory is a [Dir] node. *)
Definition isDir (m : gmap (list gostr) Node) (k : list gostr) : bool :=
  match k with
  | [] => true
  | _ => match m !! k with Some (Dir _) => true | _ => false end
  end.

(** The directories of [rest] below [pre], created where missing; nothing
    when a file is in the way. *)
Fixpoint mkdirs (now : Z) (pre rest : list gostr) (m : gmap (list gostr) Node)
  : option (gmap (list gostr) Node) :=
  match rest with
  | [] => Some m
  | c :: rest' =>
      let k := pre ++ [c] in
      match m !! k with
      | Some (File _ _) => None
      | Some (Dir _) => mkdirs now k rest' m
      | None => mkdirs now k rest' (<[k := Dir now]> m)
      end
  end.

(** [time.Duration] is an [int64] of nanoseconds; [Time.Sub] saturates. *)
Definition maxDuration : Z := 9223372036854775807%Z.
Definition minDuration : Z := (-9223372036854775808)%Z.
Definition Sub (t u : Z) : Z := Z.max minDuration (Z.min maxDuration (t - u)).
Definition Hour : Z := (3600 * 1000000000)%Z.

Section Program.
Context (P : Platform).

Definition Printf (format : gostr) (args : list Arg) : M unit :=
  modify (fun s => set_stdout (stdout s ++ [Print format args]) s).

Definition os_Exit (code : Z) : M unit := fun s => Exited code s.

(** The wall clock as the next reading would show it. *)
Definition wallClock (s : State) : Z := Clock P (ticks s).

(** [time.Now()]: one more reading of the clock. *)
Definition time_Now : M Z :=
  fun s => Return (Clock P (ticks s)) (set_ticks (S (ticks s)) s).

Definition key (p : gostr) (s : State) : list gostr := resolve P (cwd s) p.

(** [os.MkdirAll(path, 0755)] *)
Definition os_MkdirAll (path : gostr) : M (option error) :=
  fun s =>
    match mkdirs (wallClock s) [] (key path s) (fs s) with
    | Some m => Return None (set_fs m s)
    | None => Return (Some (PathError "mkdir" path)) s
    end.

(** [os.Create(name)]: the file is created empty, or truncated; the parent
    must be a directory and the name must not be one.  The handle is the
    key of the file. *)
Definition os_Create (name : gostr) : M (list gostr * option error) :=
  fun s =>
    let k := key name s in
    if isDir (fs s) (removelast k) && negb (isDir (fs s) k)
    then Return (k, None) (set_fs (<[k := File (wallClock s) []]> (fs s)) s)
    else Return ([], Some (PathError "open" name)) s.

(** [os.Open(name)]: whatever exists can be opened for reading. *)
Definition os_Open (name : gostr) : M (list gostr * option error) :=
  fun s =>
    let k := key name s in
    if isDir (fs s) k || bool_decide (is_Some (fs s !! k))
    then Return (k, None) s
    else Return ([], Some (PathError "open" name)) s.

(** [f.Write(b)] on a handle from [os.Create]. *)
Definition File_Write (f : list gostr) (b : gostr) : M (Z * option error) :=
  fun s =>
    match fs s !! f with
    | Some (File _ old) =>
        Return (Z.of_nat (length b), None)
               (set_fs (<[f := File (wallClock s) (old ++ b)]> (fs s)) s)
    | _ => Return (0%Z, Some (PathError "write" [])) s
    end.

(** [io.Copy(dst, src)]: all of [src] as it is now, written to [dst]. *)
Definition io_Copy (dst src : list gostr) : M (Z * option error) :=
  fun s =>
    match fs s !! src with
    | Some (File _ d) => File_Write dst d s
    | _ => Return (0%Z, Some (PathError "read" [])) s
    end.

(** [f.Close()] *)
Definition File_Close (f : list gostr) : M unit := mret tt.

(** [ioutil.ReadDir(dirname)]: the entries of the directory, sorted by
    name. *)
Definition ioutil_ReadDir (dirname : gostr)
  : M (list FileInfo * option error) :=
  fun s =>
    let k := key dirname s in
    if isDir (fs s) k
    then Return (sortByName (entries (fs s) k), None) s
    else Return ([], Some (PathError "open" dirname)) s.

(** [os.RemoveAll(path)]: the node and everything below it; no error when
    there is nothing to remove. *)
Definition os_RemoveAll (path : gostr) : M (option error) :=
  fun s =>
    let k := key path s in
    Return None (set_fs (filter (fun kn => ¬ k `prefix_of` kn.1) (fs s)) s).

Definition os_Getwd : M (gostr * option error) :=
  fun s => Return (pathOf P (cwd s), None) s.

Definition os_Chdir (dir : gostr) : M (option error) :=
  fun s =>
    let k := key dir s in
    if isDir (fs s) k then Return None (set_cwd k s)
    else Return (Some (PathError "chdir" dir)) s.

(** ** The tool, function by function *)

(** [printStack]: the stack of the running goroutine goes to standard
    output. *)
Definition printStack : M unit :=
  modify (fun s => set_stdout (stdout s ++ [StackDump]) s).

Definition fatalf (format : gostr) (args : list Arg) : M unit :=
  Printf format args;;
  printStack;;
  os_Exit 1.

Definition fatalif (cond : bool) (format : gostr) (args : list Arg) : M unit :=
  if cond then
    Printf format args;;
    printStack;;
    os_Exit 1
  else mret tt.

Definition fataliferr (err : option error) : M unit :=
  match err with
  | Some e => fatalf "%s\n" [AErr e]
  | None => mret tt
  end.

(** One round of the loop of [toTrimmedLines]: the line at [idx] is read
    from the slice as it is now, trimmed, and, unless empty, stored at the
    write index [i] of the same slice. *)
Definition trimStep (st : list gostr * nat) (idx : nat) : list gostr * nat :=
  let (lines, i) := st in
  match lines !! idx with
  | Some l =>
      let l := strings.TrimSpace l in
      (* remove empty lines *)
      if (0 <? length l)%nat then (<[i := l]> lines, S i) else (lines, i)
  | None => (lines, i)
  end.

Definition toTrimmedLines (d : gostr) : list gostr :=
  let lines := strings.Split d newline in
  let (lines', i) := fold_left trimStep (seq 0 (length lines)) (lines, 0) in
  take i lines'.

Definition detectExeMust (name : gostr) : M gostr :=
  match LookPath P name with
  | Some path =>
      Printf "'%s' is '%s'\n" [AStr name; AStr path];;
      mret path
  | None =>
      Printf "Couldn't find '%s'\n" [AStr name];;
      fataliferr (Some (ExecError name []));;
      mret []
  end.

Definition detectExesMust : M unit :=
  p ← detectExeMust "git";
  modify (set_gitPath p);;
  p ← detectExeMust "WinMergeU";
  modify (set_winMergePath p).

Definition getWinTempDirMust : M gostr :=
  let dir := Getenv P "TEMP" in
  if negb (bool_decide (dir = [])) then mret dir
  else
    let dir := Getenv P "TMP" in
    fatalif (bool_decide (dir = []))
            "env variable TEMP and TMP are not set\n" [];;
    mret dir.

Definition createTempDirMust : M unit :=
  dir ← getWinTempDirMust;
  (* we want a stable name so that we can clean up old junk *)
  modify (set_tempDir (Join P dir "sum-diff-preview"));;
  tmp ← get tempDir;
  err ← os_MkdirAll tmp;
  fataliferr err.

(** [exec.Command(exePath, args...).Output()], after a line on what runs. *)
Definition runCmd (exePath : gostr) (args : list gostr)
  : M (gostr * option error) :=
  Printf "running: %s %v\n" [AStr (filepath.Base exePath); AStrs args];;
  modify (fun s => set_procs (procs s ++ [(exePath, args)]) s);;
  mret (Run P exePath args).

Definition zeroGitChange : GitChange :=
  {| Type_ := 0; Path := []; Name := [] |}.
Definition with_Type (t : Z) (c : GitChange) : GitChange :=
  {| Type_ := t; Path := Path c; Name := Name c |}.
Definition with_Path (p : gostr) (c : GitChange) : GitChange :=
  {| Type_ := Type_ c; Path := p; Name := Name c |}.
Definition with_Name (n : gostr) (c : GitChange) : GitChange :=
  {| Type_ := Type_ c; Path := Path c; Name := n |}.

Definition parseGitStatusLineMust (s : gostr) : M GitChange :=
  let c := zeroGitChange in
  let parts := strings.SplitN s " " 2 in
  fatalif (negb (length parts =? 2)%nat) "invalid line: '%s'\n" [AStr s];;
  c ← (let code := nth 0 parts [] in
       if bool_decide (code = "M") then mret (with_Type Modified c)
       else if bool_decide (code = "A") then mret (with_Type Added c)
       else if bool_decide (code = "D") then mret (with_Type Deleted c)
       else if bool_decide (code = "??") then mret (with_Type NotCheckedIn c)
       else fatalif true "invalid line: '%s'\n" [AStr s];; mret c);
  let c := with_Path (strings.TrimSpace (nth 1 parts [])) c in
  let c := with_Name (filepath.Base (Path c)) c in
  mret c.

Fixpoint parseLines (lines : list gostr) (includeNotCheckedIn : bool)
    (res : list GitChange) : M (list GitChange) :=
  match lines with
  | [] => mret res
  | l :: lines' =>
      c ← parseGitStatusLineMust l;
      if negb includeNotCheckedIn && (Type_ c =? NotCheckedIn)%Z
      then parseLines lines' includeNotCheckedIn res
      else parseLines lines' includeNotCheckedIn (res ++ [c])
  end.

Definition parseGitStatusMust (out : gostr) (includeNotCheckedIn : bool)
  : M (list GitChange) :=
  let res := [] in
  let lines := toTrimmedLines out in
  parseLines lines includeNotCheckedIn res.

Definition gitStatusMust : M (list GitChange) :=
  git ← get gitPath;
  '(out, err) ← runCmd git ["status" : gostr; "--porcelain" : gostr];
  fataliferr err;;
  parseGitStatusMust out false.

Definition gitGetFileContentHeadMust (path : gostr) : M gostr :=
  let loc := "HEAD:" ++ path in
  git ← get gitPath;
  '(out, err) ← runCmd git ["show" : gostr; loc];
  fataliferr err;;
  mret out.

(** One round of the loop of [deleteOldDirs], for the entry [fi] of the
    directory [tmp]. *)
Definition deleteOldDir (tmp : gostr) (fi : FileInfo) : M unit :=
  if negb (fi_IsDir fi) then
    (* we shouldn't create anything but dirs *)
    mret tt
  else
    now ← time_Now;
    let age := Sub now (fi_ModTime fi) in
    let path := Join P tmp (fi_Name fi) in
    if (age >? Hour * 24)%Z then
      Printf "Deleting %s because older than 1 day\n" [AStr path];;
      err ← os_RemoveAll path;
      fataliferr err
    else
      Printf "Not deleting %s because younger than 1 day (%s)\n"
             [AStr path; ADuration age].

(** delete directories older than 1 day in tempDir *)
Definition deleteOldDirs : M unit :=
  tmp ← get tempDir;
  '(files, err) ← ioutil_ReadDir tmp;
  fataliferr err;;
  forEach files (deleteOldDir tmp).

Definition getBeforeAfterDirs (dir : gostr) : gostr * gostr :=
  let dirBefore := Join P dir "before" in
  let dirAfter := Join P dir "after" in
  (dirBefore, dirAfter).

Definition runWinMerge (dir : gostr) : M unit :=
  let (dirBefore, dirAfter) := getBeforeAfterDirs dir in
  winMerge ← get winMergePath;
  '(_, err) ← runCmd winMerge
      ["/u" : gostr; "/wl" : gostr; "/wr" : gostr; dirBefore; dirAfter];
  fataliferr err.

Definition catGitHeadToFileMust (dst gitPath : gostr) : M unit :=
  Printf "catGitHeadToFileMust: %s => %s\n" [AStr gitPath; AStr dst];;
  d ← gitGetFileContentHeadMust gitPath;
  '(f, err) ← os_Create dst;
  fataliferr err;;
  '(_, err) ← File_Write f d;
  fataliferr err;;
  File_Close f.

Definition createEmptyFileMust (path : gostr) : M unit :=
  '(f, err) ← os_Create path;
  fataliferr err;;
  File_Close f.

Definition copyFileMust (dst src : gostr) : M unit :=
  (* ensure windows-style dir separator *)
  let dst := strings.Replace dst "/" "\" in
  let src := strings.Replace src "/" "\" in
  '(fdst, err) ← os_Create dst;
  fataliferr err;;
  '(fsrc, err) ← os_Open src;
  fataliferr err;;
  '(_, err) ← io_Copy fdst fsrc;
  fataliferr err;;
  File_Close fsrc;;
  File_Close fdst.

Definition copyFileAddedMust (dirBefore dirAfter : gostr) (change : GitChange)
  : M unit :=
  (* empty file in before, content in after *)
  let path := Join P dirBefore (Name change) in
  createEmptyFileMust path;;
  let path := Join P dirAfter (Name change) in
  copyFileMust path (Path change).

Definition copyFileDeletedMust (dirBefore dirAfter : gostr)
    (change : GitChange) : M unit :=
  (* empty file in after *)
  let path := Join P dirAfter (Name change) in
  createEmptyFileMust path;;
  (* version from HEAD in before *)
  let path := Join P dirBefore (Name change) in
  catGitHeadToFileMust path (Path change).

Definition copyFileModifiedMust (dirBefore dirAfter : gostr)
    (change : GitChange) : M unit :=
  (* current version on disk in after *)
  let path := Join P dirAfter (Name change) in
  copyFileMust path (Path change);;
  (* version from HEAD in before *)
  let path := Join P dirBefore (Name change) in
  catGitHeadToFileMust path (Path change).

Definition copyFileChangeMust (dir : gostr) (change : GitChange) : M unit :=
  let (dirBefore, dirAfter) := getBeforeAfterDirs dir in
  if (Type_ change =? Added)%Z then
    copyFileAddedMust dirBefore dirAfter change
  else if (Type_ change =? Modified)%Z then
    copyFileModifiedMust dirBefore dirAfter change
  else if (Type_ change =? Deleted)%Z then
    copyFileModifiedMust dirBefore dirAfter change
  else
    fatalif true "unknown change %+v\n" [AChange change].

Definition copyFiles (dir : gostr) (changes : list GitChange) : M unit :=
  let (dirBefore, dirAfter) := getBeforeAfterDirs dir in
  err ← os_MkdirAll dirBefore;
  fataliferr err;;
  err ← os_MkdirAll dirAfter;
  fataliferr err;;
  forEach changes (fun change => copyFileChangeMust dir change).

(** The loop of [hasGitDirMust]: the first entry called [.git], in any
    letter case, decides. *)
Fixpoint firstGitEntry (files : list FileInfo) : bool :=
  match files with
  | [] => false
  | fi :: files' =>
      if bool_decide (ToLower P (fi_Name fi) = ".git") then fi_IsDir fi
      else firstGitEntry files'
  end.

Definition hasGitDirMust (dir : gostr) : M bool :=
  '(files, err) ← ioutil_ReadDir dir;
  fataliferr err;;
  mret (firstGitEntry files).

(** The loop of [cdToGitRoot]; it runs until a directory with [.git] is
    found or the parent of a directory is the directory itself, so it takes
    fuel. Returns [newDir]. *)
Fixpoint cdToGitRootLoop (fuel : nat) (dir newDir : gostr) : M gostr :=
  match fuel return M gostr with
  | 0 => outOfFuel
  | S fuel' =>
      found ← hasGitDirMust dir;
      if (found : bool) then mret newDir
      else
        let newDir := Dir_ P dir in
        fatalif (bool_decide (dir = newDir)) "dir == newDir (%s == %s)"
                [AStr dir; AStr newDir];;
        cdToGitRootLoop fuel' newDir newDir
  end.

(** git status returns names relative to root of *)
Definition cdToGitRoot (fuel : nat) : M unit :=
  '(dir, err) ← os_Getwd;
  fataliferr err;;
  newDir ← cdToGitRootLoop fuel dir [];
  if negb (bool_decide (newDir = [])) then
    Printf "Changed current dir to: '%s'\n" [AStr newDir];;
    _ ← os_Chdir newDir;
    mret tt
  else mret tt.

Definition main (fuel : nat) : M unit :=
  detectExesMust;;
  createTempDirMust;;
  tmp ← get tempDir;
  Printf "temp dir: %s\n" [AStr tmp];;
  deleteOldDirs;;

  cdToGitRoot fuel;;
  changes ← gitStatusMust;
  (if (length changes =? 0)%nat then
     Printf "No changes to preview!" [];;
     os_Exit 0
   else mret tt);;
  Printf "%d change(s)\n" [AInt (Z.of_nat (length changes))];;

  (* TODO: verify GitChange.Name is unique in changes *)
  now ← time_Now;
  let subDir := Format P now "2006-01-02_15_04_05" in
  tmp ← get tempDir;
  let dir := Join P tmp subDir in
  err ← os_MkdirAll dir;
  fataliferr err;;
  copyFiles dir changes;;
  runWinMerge dir.

End Program.

(** ** Definitions the properties are stated with *)

Section RuneSets.
Variable f1 : ascii -> bool.
Variable f2 : ascii -> ascii -> bool.
Variable f3 : ascii -> ascii -> ascii -> bool.

(** A rune of one, two or three bytes. *)
Inductive rune : gostr -> Prop :=
  | rune1 c : f1 c = true -> rune [c]
  | rune2 c1 c2 : f2 c1 c2 = true -> rune [c1; c2]
  | rune3 c1 c2 c3 : f3 c1 c2 c3 = true -> rune [c1; c2; c3].

(** A concatenation of runes. *)
Inductive runes : gostr -> Prop :=
  | runes_nil : runes []
  | runes_cons r s : rune r -> runes s -> runes (r ++ s).

End RuneSets.

(** A string that consists of white space only. *)
Definition whitespace : gostr -> Prop :=
  runes strings.space1 strings.space2 strings.space3.
Definition whitespaceRev : gostr -> Prop :=
  runes strings.space1 strings.space2r strings.space3r.

(** What [toTrimmedLines] computes in place: the lines, trimmed, without
    the empty ones. *)
Definition nonEmpty (l : gostr) : Prop := l <> [].

Definition trimmedLines (d : gostr) : list gostr :=
  filter nonEmpty (map strings.TrimSpace (strings.Split d newline)).

(** The status codes and the kinds they stand for. *)
Definition codes : list gostr :=
  ["M" : gostr; "A" : gostr; "D" : gostr; "??" : gostr].

Definition kindOf (code : gostr) : Z :=
  if decide (code = "M") then Modified
  else if decide (code = "A") then Added
  else if decide (code = "D") then Deleted
  else NotCheckedIn.

(** A line of the form [<code> <path>]. *)
Definition wellFormed (l : gostr) : Prop :=
  exists code path, In code codes /\ l = code ++ " " ++ path.

(** The record the parser makes of a line. *)
Definition lineRecord (l : gostr) : GitChange :=
  let parts := strings.SplitN l " " 2 in
  let path := strings.TrimSpace (nth 1 parts []) in
  {| Type_ := kindOf (nth 0 parts []); Path := path;
     Name := filepath.Base path |}.

(** The state a fatal error leaves: the diagnostic and the stack dump are
    on standard output, nothing else has changed. *)
Definition fatal (format : gostr) (args : list Arg) (s : State) : State :=
  set_stdout ((stdout s ++ [Print format args]) ++ [StackDump]) s.

(** The records kept of a list of parsed lines. *)
Definition keep (includeNotCheckedIn : bool) (cs : list GitChange)
  : list GitChange :=
  filter (fun c => ~ (includeNotCheckedIn = false /\ Type_ c = NotCheckedIn))
         cs.

Definition notSlash (c : ascii) : bool := negb (filepath.isSlash c).

(** A state to run examples from: nothing on disk, nothing printed. *)
Definition state0 : State :=
  {| gitPath := "git"; winMergePath := "WinMergeU"; tempDir := [];
     fs := ∅; cwd := []; stdout := []; procs := []; ticks := 0 |}.

Definition entryName (n : gostr) : Prop :=
  n <> []
  /\ Forall (fun c => notSlash c = true /\ c <> ":"%char) n
  /\ n <> "." /\ n <> "..".

(** [filepath.Join(d, n)] names the entry [n] of the directory [d], and a
    path names the same node whichever of the two separators it is written
    with. *)
Record PlatformLaws (P : Platform) : Prop := {
  join_entry : forall wd d n,
    entryName n -> resolve P wd (Join P d n) = resolve P wd d ++ [n];
  slash_blind : forall wd p,
    resolve P wd (strings.Replace p "/" "\") = resolve P wd p
}.

(** ** A platform to run examples on *)
Module Example.

Definition backslash : ascii := "\"%char.

(** The non-empty elements of a path. *)
Definition pathElems (p : gostr) : list gostr :=
  filter nonEmpty (strings.Split (strings.Replace p "/" backslash) backslash).

(** A path that starts with a drive letter is absolute. *)
Definition isAbs (p : gostr) : bool :=
  match p with
  | c :: c1 :: _ => bool_decide (c1 = ":"%char) && filepath.isLetter c
  | _ => false
  end.

Definition resolvePath (wd : list gostr) (p : gostr) : list gostr :=
  (if isAbs p then [] else wd) ++ pathElems p.

Definition joinPath (a b : gostr) : gostr :=
  match a, b with
  | [], _ => b
  | _, [] => a
  | _, _ => a ++ backslash :: b
  end.

(** The path without its last element. *)
Definition parentPath (p : gostr) : gostr :=
  rev (drop 1 (filepath.dropWhile notSlash (rev p))).

Definition lower (c : ascii) : ascii :=
  if byte_in 65 90 c then ascii_of_N (N_of_ascii c + 32) else c.

Definition statusOutput : gostr :=
  "M src/a.go" ++ newline :: "A src/b.go" ++ newline :: "D src/c.go"
  ++ newline :: "??  src/junk.go" ++ [newline].

Definition runProcess (exe : gostr) (args : list gostr)
  : gostr * option error :=
  if decide (args = ["status" : gostr; "--porcelain" : gostr])
  then (statusOutput, None)
  else if decide (args = ["show" : gostr; "HEAD:src/a.go" : gostr])
  then ("package a" : gostr, None)
  else if decide (args = ["show" : gostr; "HEAD:src/c.go" : gostr])
  then ("package c" : gostr, None)
  else if decide (exe = "C:\bin\WinMergeU.exe") then ([], None)
  else ([], Some (ExecError exe args)).

Definition platform : Platform :=
  {| LookPath := fun name => Some ("C:\bin\" ++ name ++ ".exe");
     Getenv := fun k => if decide (k = "TEMP") then "C:\Temp" else [];
     Run := runProcess;
     Clock := fun _ => (1000 * Hour)%Z;
     Format := fun _ _ => "2026-01-02_03_04_05";
     Join := joinPath;
     Dir_ := parentPath;
     ToLower := map lower;
     resolve := resolvePath;
     pathOf := fun k => strings.Join k [backslash] |}.

End Example.

(** The three WinMerge switches of [runWinMerge], and the whole command
    line. *)
Definition winMergeFlags : list gostr :=
  ["/u" : gostr; "/wl" : gostr; "/wr" : gostr].

Definition junkState : State :=
  {| gitPath := "git"; winMergePath := "WinMergeU"; tempDir := "C:\Temp";
     fs := list_to_map
             [ (["C:" : gostr; "run" : gostr], Dir 0);
               (["C:" : gostr; "run" : gostr; "before" : gostr], Dir 0);
               (["C:" : gostr; "run" : gostr; "after" : gostr], Dir 0);
               (["C:" : gostr; "repo" : gostr], Dir 0);
               (["C:" : gostr; "repo" : gostr; "junk.go" : gostr],
                File 0 "package junk") ];
     cwd := ["C:" : gostr; "repo" : gostr];
     stdout := []; procs := []; ticks := 0 |}.

Definition junk (kind : Z) : GitChange :=
  {| Type_ := kind; Path := "junk.go"; Name := "junk.go" |}.

(** A string that consists of white-space runes only, as a test. *)
Fixpoint allSpace (s : gostr) : bool :=
  match s with
  | [] => true
  | c1 :: r1 =>
      if strings.space1 c1 then allSpace r1 else
      match r1 with
      | [] => false
      | c2 :: r2 =>
          if strings.space2 c1 c2 then allSpace r2 else
          match r2 with
          | [] => false
          | c3 :: r3 => strings.space3 c1 c2 c3 && allSpace r3
          end
      end
  end.

(** The input without its blank lines, every other line trimmed. *)
Definition normalize (out : gostr) : gostr :=
  strings.Join
    (map strings.TrimSpace
         (filter (fun l => allSpace l = false) (strings.Split out newline)))
    [newline].

(** The nodes one record is about: its before file, its after file, and
    the file in the working tree. *)
Definition beforeKey (P : Platform) (dir : gostr) (c : GitChange) (s : State)
  : list gostr :=
  key P (Join P (getBeforeAfterDirs P dir).1 (Name c)) s.

Definition afterKey (P : Platform) (dir : gostr) (c : GitChange) (s : State)
  : list gostr :=
  key P (Join P (getBeforeAfterDirs P dir).2 (Name c)) s.

Definition srcKey (P : Platform) (c : GitChange) (s : State) : list gostr :=
  key P (Path c) s.

(** The content of a file, if the node is one. *)
Definition content (m : gmap (list gostr) Node) (k : list gostr)
  : option gostr :=
  match m !! k with
  | Some (File _ d) => Some d
  | _ => None
  end.

(** The scratch root, and [n] sweeps in a row. *)
Definition scratchRoot (P : Platform) (s : State) : list gostr :=
  key P (tempDir s) s.

Fixpoint sweeps (P : Platform) (n : nat) : M unit :=
  match n with
  | 0 => mret tt
  | S n' => deleteOldDirs P;; sweeps P n'
  end.

(** The names [deleteOldDirs] removes from a listing, the clock having
    been read [t] times before. *)
Fixpoint doomed (P : Platform) (l : list FileInfo) (t : nat) : list gostr :=
  match l with
  | [] => []
  | fi :: l' =>
      if fi_IsDir fi then
        if (Sub (Clock P t) (fi_ModTime fi) >? Hour * 24)%Z
        then fi_Name fi :: doomed P l' (S t)
        else doomed P l' (S t)
      else doomed P l' t
  end.

(** The file of a deleted record is not in the working tree. *)
Definition deletedRecord : GitChange :=
  {| Type_ := Deleted; Path := "src/c.go"; Name := "c.go" |}.

(** What [ioutil.ReadDir] lists of the scratch root. *)
Definition listing (P : Platform) (s : State) : list FileInfo :=
  sortByName (entries (fs s) (scratchRoot P s)).

(** The entries of the scratch root have proper file names. *)
Definition properNames (P : Platform) (s : State) : Prop :=
  forall n node, fs s !! (scratchRoot P s ++ [n]) = Some node -> entryName n.

(** A node the sweep has no reason to remove: a file, or a directory
    that is no older than a day at any reading of the clock from now on. *)
Definition ageSafe (P : Platform) (s : State) (node : Node) : Prop :=
  match node with
  | File _ _ => True
  | Dir t => forall i, (ticks s <= i)%nat -> (Sub (Clock P i) t <= Hour * 24)%Z
  end.

(** [main] up to the status query, and [main] from the status query on. *)
Definition startup (P : Platform) (fuel : nat) : M unit :=
  detectExesMust P;;
  createTempDirMust P;;
  tmp ← get tempDir;
  Printf "temp dir: %s\n" [AStr tmp];;
  deleteOldDirs P;;
  cdToGitRoot P fuel.

Definition preview (P : Platform) : M unit :=
  changes ← gitStatusMust P;
  (if (length changes =? 0)%nat then
     Printf "No changes to preview!" [];;
     os_Exit 0
   else mret tt);;
  Printf "%d change(s)\n" [AInt (Z.of_nat (length changes))];;
  now ← time_Now P;
  let subDir := Format P now "2006-01-02_15_04_05" in
  tmp ← get tempDir;
  let dir := Join P tmp subDir in
  err ← os_MkdirAll P dir;
  fataliferr err;;
  copyFiles P dir changes;;
  runWinMerge P dir.

(** A file system that has grown from [m] by nodes on the way to [root]
    at most. *)
Definition grownTowards (root : list gostr) (m m' : gmap (list gostr) Node)
  : Prop :=
  forall k n, m' !! k = Some n -> m !! k = Some n \/ k `prefix_of` root.

(** A scratch root with an old directory, a young one and a stray file,
    and a repository with two files. *)
Definition sweepState : State :=
  {| gitPath := "C:\bin\git.exe"; winMergePath := "C:\bin\WinMergeU.exe";
     tempDir := "C:\Temp\sum-diff-preview";
     fs := list_to_map
        [ (["C:" : gostr], Dir 0);
          (["C:" : gostr; "Temp" : gostr], Dir 0);
          (["C:" : gostr; "Temp" : gostr; "sum-diff-preview" : gostr], Dir 0);
          (["C:" : gostr; "Temp" : gostr; "sum-diff-preview" : gostr;
            "old" : gostr], Dir 5);
          (["C:" : gostr; "Temp" : gostr; "sum-diff-preview" : gostr;
            "old" : gostr; "before" : gostr], Dir 5);
          (["C:" : gostr; "Temp" : gostr; "sum-diff-preview" : gostr;
            "young" : gostr], Dir (990 * Hour));
          (["C:" : gostr; "Temp" : gostr; "sum-diff-preview" : gostr;
            "note.txt" : gostr], File 5 "x");
          (["C:" : gostr; "repo" : gostr], Dir 0);
          (["C:" : gostr; "repo" : gostr; ".git" : gostr], Dir 0);
          (["C:" : gostr; "repo" : gostr; "src" : gostr], Dir 0);
          (["C:" : gostr; "repo" : gostr; "src" : gostr; "a.go" : gostr],
           File 7 "package a2");
          (["C:" : gostr; "repo" : gostr; "src" : gostr; "b.go" : gostr],
           File 7 "package b") ];
     cwd := ["C:" : gostr; "repo" : gostr; "src" : gostr];
     stdout := []; procs := []; ticks := 0 |}.

(** [entryName] and [properNames] as tests. *)
Definition entryNameb (n : gostr) : bool :=
  negb (bool_decide (n = []))
  && forallb (fun c => notSlash c && negb (bool_decide (c = ":"%char))) n
  && negb (bool_decide (n = "."))
  && negb (bool_decide (n = "..")).

Definition properNamesb (P : Platform) (s : State) : bool :=
  forallb (fun kn : list gostr * Node =>
             match childOf (scratchRoot P s) kn.1 with
             | Some n => entryNameb n
             | None => true
             end)
          (map_to_list (fs s)).

(** A platform whose status query reports nothing. *)
Definition cleanPlatform : Platform :=
  {| LookPath := LookPath Example.platform;
     Getenv := Getenv Example.platform;
     Run := fun _ _ => ([], None);
     Clock := Clock Example.platform;
     Format := Format Example.platform;
     Join := Join Example.platform;
     Dir_ := Dir_ Example.platform;
     ToLower := ToLower Example.platform;
     resolve := resolve Example.platform;
     pathOf := pathOf Example.platform |}.

(** The state a computation ends in, returned from or exited in. *)
Definition finalState {A} (r : Result A) : option State :=
  match r with
  | Return _ s => Some s
  | Exited _ s => Some s
  | OutOfFuel => None
  end.

(** [s'] has the working directory of [s], and the nodes of [s] wherever
    [K] does not hold. *)
Definition unchangedOutside (K : list gostr -> Prop) (s s' : State) : Prop :=
  cwd s' = cwd s /\ forall k, fs s' !! k = fs s !! k \/ K k.

(** The end-to-end scenario: its status output and its three records. *)
Definition scenarioInput : gostr :=
  "M src/a.go" ++ newline :: "A src/b.go" ++ newline :: "D src/c.go"
  ++ newline :: "??  src/junk.go" ++ [newline].

Definition scenarioRecords : list GitChange :=
  [ {| Type_ := Modified; Path := "src/a.go"; Name := "a.go" |};
    {| Type_ := Added; Path := "src/b.go"; Name := "b.go" |};
    {| Type_ := Deleted; Path := "src/c.go"; Name := "c.go" |} ].

(** The nodes [copyFiles] may change: the two directories with those above
    them, and the two snapshot files of every record. *)
Definition snapshotTarget (P : Platform) (dir : gostr)
    (changes : list GitChange) (s : State) (k : list gostr) : Prop :=
  k `prefix_of` key P (getBeforeAfterDirs P dir).1 s
  \/ k `prefix_of` key P (getBeforeAfterDirs P dir).2 s
  \/ exists c, c ∈ changes
       /\ (k = beforeKey P dir c s \/ k = afterKey P dir c s).

(** A repository with two files, and a batch of two records. *)
Definition batchState : State :=
  {| gitPath := "C:\bin\git.exe"; winMergePath := "C:\bin\WinMergeU.exe";
     tempDir := "C:\Temp\sum-diff-preview";
     fs := list_to_map
             [ (["C:" : gostr], Dir 0);
               (["C:" : gostr; "repo" : gostr], Dir 0);
               (["C:" : gostr; "repo" : gostr; "src" : gostr], Dir 0);
               (["C:" : gostr; "repo" : gostr; "src" : gostr; "a.go" : gostr],
                File 7 "package a2");
               (["C:" : gostr; "repo" : gostr; "src" : gostr; "b.go" : gostr],
                File 7 "package b") ];
     cwd := ["C:" : gostr; "repo" : gostr];
     stdout := []; procs := []; ticks := 0 |}.

Definition batchModified : GitChange :=
  {| Type_ := Modified; Path := "src/a.go"; Name := "a.go" |}.

Definition batchAdded : GitChange :=
  {| Type_ := Added; Path := "src/b.go"; Name := "b.go" |}.

(** Inputs of the parser examples, and the snapshot files a record called
    junk.go would have below C:\run. *)
Definition blankLineInput : gostr :=
  "M a" ++ newline :: newline :: "A b" ++ [newline].

Definition badCodeInput : gostr := "M a" ++ newline :: "X b".

Definition junkBefore : list gostr :=
  ["C:" : gostr; "run" : gostr; "before" : gostr; "junk.go" : gostr].

Definition junkAfter : list gostr :=
  ["C:" : gostr; "run" : gostr; "after" : gostr; "junk.go" : gostr].

(** A working tree with two files called a.go, a new one below lib and a
    changed one below src, and the Added record of the first. *)
Definition clashState : State :=
  {| gitPath := "C:\bin\git.exe"; winMergePath := "C:\bin\WinMergeU.exe";
     tempDir := "C:\Temp\sum-diff-preview";
     fs := list_to_map
             [ (["C:" : gostr], Dir 0);
               (["C:" : gostr; "repo" : gostr], Dir 0);
               (["C:" : gostr; "repo" : gostr; "lib" : gostr], Dir 0);
               (["C:" : gostr; "repo" : gostr; "src" : gostr], Dir 0);
               (["C:" : gostr; "repo" : gostr; "lib" : gostr; "a.go" : gostr],
                File 7 "package lib");
               (["C:" : gostr; "repo" : gostr; "src" : gostr; "a.go" : gostr],
                File 7 "package a2") ];
     cwd := ["C:" : gostr; "repo" : gostr];
     stdout := []; procs := []; ticks := 0 |}.

Definition clashAdded : GitChange :=
  {| Type_ := Added; Path := "lib/a.go"; Name := "a.go" |}.

(** A platform without WinMerge on the search path. *)
Definition noViewerPlatform : Platform :=
  {| LookPath := fun name =>
       if decide (name = "git") then Some ("C:\bin\git.exe" : gostr) else None;
     Getenv := Getenv Example.platform;
     Run := Run Example.platform;
     Clock := Clock Example.platform;
     Format := Format Example.platform;
     Join := Join Example.platform;
     Dir_ := Dir_ Example.platform;
     ToLower := ToLower Example.platform;
     resolve := resolve Example.platform;
     pathOf := pathOf Example.platform |}.

(** A disk on which the name of the scratch root is taken by a file. *)
Definition blockedState : State :=
  {| gitPath := "C:\bin\git.exe"; winMergePath := "C:\bin\WinMergeU.exe";
     tempDir := [];
     fs := list_to_map
             [ (["C:" : gostr], Dir 0);
               (["C:" : gostr; "Temp" : gostr], Dir 0);
               (["C:" : gostr; "Temp" : gostr; "sum-diff-preview" : gostr],
                File 3 "x") ];
     cwd := ["C:" : gostr];
     stdout := []; procs := []; ticks := 0 |}.

(** The [git show] that fetches the committed content of [path]. *)
Definition showHead (s : State) (path : gostr) : gostr * list gostr :=
  (gitPath s, ["show" : gostr; "HEAD:" ++ path]).

(** A working tree with two files called x.txt. *)
Definition twinState : State :=
  {| gitPath := "git"; winMergePath := "WinMergeU"; tempDir := "C:\Temp";
     fs := list_to_map
             [ (["C:" : gostr; "run" : gostr], Dir 0);
               (["C:" : gostr; "run" : gostr; "before" : gostr], Dir 0);
               (["C:" : gostr; "run" : gostr; "after" : gostr], Dir 0);
               (["C:" : gostr; "repo" : gostr], Dir 0);
               (["C:" : gostr; "repo" : gostr; "a" : gostr], Dir 0);
               (["C:" : gostr; "repo" : gostr; "b" : gostr], Dir 0);
               (["C:" : gostr; "repo" : gostr; "a" : gostr; "x.txt" : gostr],
                File 0 "first");
               (["C:" : gostr; "repo" : gostr; "b" : gostr; "x.txt" : gostr],
                File 0 "second") ];
     cwd := ["C:" : gostr; "repo" : gostr];
     stdout := []; procs := []; ticks := 0 |}.

Definition twinA : GitChange :=
  {| Type_ := Added; Path := "a/x.txt"; Name := "x.txt" |}.

Definition twinB : GitChange :=
  {| Type_ := Added; Path := "b/x.txt"; Name := "x.txt" |}.

(** The snapshot directories C:\run\before and C:\run\after are in place;
    a.go is in the working tree and in HEAD. *)
Definition stagingState : State :=
  {| gitPath := "C:\bin\git.exe"; winMergePath := "C:\bin\WinMergeU.exe";
     tempDir := "C:\Temp";
     fs := list_to_map
             [ (["C:" : gostr; "run" : gostr], Dir 0);
               (["C:" : gostr; "run" : gostr; "before" : gostr], Dir 0);
               (["C:" : gostr; "run" : gostr; "after" : gostr], Dir 0);
               (["C:" : gostr; "repo" : gostr], Dir 0);
               (["C:" : gostr; "repo" : gostr; "src" : gostr], Dir 0);
               (["C:" : gostr; "repo" : gostr; "src" : gostr; "a.go" : gostr],
                File 7 "package a2") ];
     cwd := ["C:" : gostr; "repo" : gostr];
     stdout := []; procs := []; ticks := 0 |}.

(** * Properties *)

(** ** The library functions on examples *)

Example Split_example :
  strings.Split "a b  c" " " = ["a" : gostr; "b" : gostr; [] ; "c" : gostr].
Proof. reflexivity. Qed.

Example Split_empty : strings.Split [] newline = [[]].
Proof. reflexivity. Qed.

Example SplitN_first_space :
  strings.SplitN "??  src/junk.go" " " 2
  = ["??" : gostr; " src/junk.go" : gostr].
Proof. reflexivity. Qed.

Example SplitN_no_space : strings.SplitN "M" " " 2 = ["M" : gostr].
Proof. reflexivity. Qed.

(** Tab, EM SPACE (E2 80 83), NO-BREAK SPACE (C2 A0) and carriage return
    are white space; the space inside is kept. *)
Example TrimSpace_example :
  strings.TrimSpace
    (" " ++ [ascii_of_nat 9; ascii_of_nat 226; ascii_of_nat 128;
             ascii_of_nat 131]
     ++ "a b" ++ [ascii_of_nat 194; ascii_of_nat 160; ascii_of_nat 13])
  = "a b".
Proof. reflexivity. Qed.

(** A lone continuation byte is no white space. *)
Example TrimSpace_lone_byte :
  strings.TrimSpace [ascii_of_nat 160; " "%char] = [ascii_of_nat 160].
Proof. reflexivity. Qed.

Example Base_relative : filepath.Base "src/a.go" = "a.go".
Proof. reflexivity. Qed.

Example Base_trailing_separator : filepath.Base "C:\Temp\x\" = "x".
Proof. reflexivity. Qed.

Example Base_drive_only : filepath.Base "C:" = "\".
Proof. reflexivity. Qed.

Example Base_unc : filepath.Base "\\srv\share\dir\f.txt" = "f.txt".
Proof. reflexivity. Qed.

Example Base_unc_volume_only : filepath.Base "\\srv\share" = "\".
Proof. reflexivity. Qed.

Example Base_empty : filepath.Base [] = ".".
Proof. reflexivity. Qed.

Example Base_separators_only : filepath.Base "///" = "\".
Proof. reflexivity. Qed.

Example toTrimmedLines_example :
  toTrimmedLines (" M a " ++ newline :: "  " ++ newline :: "A b" ++ [newline])
  = ["M a" : gostr; "A b" : gostr].
Proof. reflexivity. Qed.

(** An unstaged change comes with a leading space, which is trimmed away
    before the line is parsed. *)
Example parse_leading_space :
  parseGitStatusMust (" M src/a.go" ++ [newline]) false state0
  = Return [ {| Type_ := Modified; Path := "src/a.go"; Name := "a.go" |} ]
           state0.
Proof. reflexivity. Qed.

(** A code and nothing else: the trailing space is trimmed away and the
    line no longer splits in two. *)
Example parse_code_only :
  parseGitStatusMust ("M " ++ [newline]) false state0
  = Exited 1 (fatal "invalid line: '%s'\n" [AStr "M"] state0).
Proof. reflexivity. Qed.

Example parse_untracked_kept :
  parseGitStatusMust ("?? junk.go" ++ [newline]) true state0
  = Return [ {| Type_ := NotCheckedIn; Path := "junk.go"; Name := "junk.go" |} ]
           state0.
Proof. reflexivity. Qed.

(** ** Splitting and joining *)
Section SplitFacts.
Variable sep : ascii.

Lemma pieces_app (a b : gostr) :
  strings.pieces (a ++ sep :: b) sep
  = ((strings.pieces a sep).1,
     (strings.pieces a sep).2 ++ strings.Split b sep).
Proof.
  induction a as [|c a IH]; simpl.
  - unfold strings.Split. destruct (strings.pieces b sep) as [h t].
    destruct (decide (sep = sep)); [reflexivity | congruence].
  - rewrite IH. destruct (strings.pieces a sep) as [h t]. simpl.
    destruct (decide (c = sep)); reflexivity.
Qed.

Lemma Split_app (a b : gostr) :
  strings.Split (a ++ sep :: b) sep
  = strings.Split a sep ++ strings.Split b sep.
Proof.
  unfold strings.Split at 1 2. rewrite pieces_app.
  destruct (strings.pieces a sep) as [h t]. reflexivity.
Qed.

Lemma Split_no_sep (a : gostr) : sep ∉ a -> strings.Split a sep = [a].
Proof.
  unfold strings.Split. induction a as [|c a IH]; intros Hn; [reflexivity|].
  simpl. apply not_elem_of_cons in Hn as [Hc Ha]. specialize (IH Ha).
  destruct (strings.pieces a sep) as [h t]. inversion IH; subst.
  destruct (decide (c = sep)); [congruence | reflexivity].
Qed.

Lemma Split_pieces_no_sep (s : gostr) :
  Forall (fun p => sep ∉ p) (strings.Split s sep).
Proof.
  unfold strings.Split. induction s as [|c s IH]; simpl.
  - repeat constructor. apply not_elem_of_nil.
  - destruct (strings.pieces s sep) as [h t].
    destruct (decide (c = sep)).
    + constructor; [apply not_elem_of_nil | exact IH].
    + inversion IH; subst. constructor; [|assumption].
      apply not_elem_of_cons. split; [congruence | assumption].
Qed.

Lemma Split_Join (ls : list gostr) :
  ls <> [] -> Forall (fun p => sep ∉ p) ls ->
  strings.Split (strings.Join ls [sep]) sep = ls.
Proof.
  induction ls as [|l ls IH]; intros Hne Hall; [congruence|].
  inversion Hall as [|? ? Hl Hls]; subst.
  destruct ls as [|l' ls].
  - simpl. apply Split_no_sep. assumption.
  - change (strings.Join (l :: l' :: ls) [sep])
      with (l ++ sep :: strings.Join (l' :: ls) [sep]).
    rewrite Split_app, IH by (assumption || congruence).
    rewrite Split_no_sep by assumption. reflexivity.
Qed.

Lemma Cut_app (a b : gostr) :
  sep ∉ a -> strings.Cut (a ++ sep :: b) sep = (a, Some b).
Proof.
  induction a as [|c a IH]; intros Hn; simpl.
  - destruct (decide (sep = sep)); [reflexivity | congruence].
  - apply not_elem_of_cons in Hn as [Hc Ha]. rewrite IH by assumption.
    destruct (decide (c = sep)); [congruence | reflexivity].
Qed.

Lemma Cut_None (s b : gostr) : strings.Cut s sep = (b, None) -> sep ∉ s.
Proof.
  revert b. induction s as [|c s IH]; intros b H.
  - apply not_elem_of_nil.
  - simpl in H. destruct (decide (c = sep)); [discriminate|].
    destruct (strings.Cut s sep) as [b' a'] eqn:E. inversion H; subst.
    apply not_elem_of_cons. split; [congruence | eapply IH; reflexivity].
Qed.

Lemma Cut_Some (s b a : gostr) :
  strings.Cut s sep = (b, Some a) -> s = b ++ sep :: a /\ (sep ∉ b).
Proof.
  revert b. induction s as [|c s IH]; intros b H; simpl in H; [discriminate|].
  destruct (decide (c = sep)).
  - inversion H; subst. split; [reflexivity | apply not_elem_of_nil].
  - destruct (strings.Cut s sep) as [b' a'] eqn:E. inversion H; subst.
    destruct (IH b' eq_refl) as [-> Hb]. split; [reflexivity|].
    apply not_elem_of_cons. split; [congruence | assumption].
Qed.

(** [SplitN s sep 2] has two pieces exactly when [sep] occurs in [s]. *)
Lemma SplitN2_app (a b : gostr) :
  sep ∉ a -> strings.SplitN (a ++ sep :: b) sep 2 = [a; b].
Proof. intros H. simpl. rewrite Cut_app by assumption. reflexivity. Qed.

Lemma SplitN2_no_sep (s : gostr) : sep ∉ s -> strings.SplitN s sep 2 = [s].
Proof.
  intros H. simpl.
  destruct (strings.Cut s sep) as [b [a|]] eqn:E; [|reflexivity].
  apply Cut_Some in E as [-> _]. exfalso. apply H.
  apply elem_of_app. right. left.
Qed.

Lemma SplitN2_cases (s : gostr) :
  ((sep ∉ s) /\ strings.SplitN s sep 2 = [s])
  \/ (exists a b, s = a ++ sep :: b /\ (sep ∉ a)
                   /\ strings.SplitN s sep 2 = [a; b]).
Proof.
  destruct (strings.Cut s sep) as [b [a|]] eqn:E.
  - right. apply Cut_Some in E as [-> Hb]. exists b, a.
    split; [reflexivity|]. split; [assumption|]. apply SplitN2_app. assumption.
  - left. apply Cut_None in E. split; [assumption|]. apply SplitN2_no_sep.
    assumption.
Qed.

End SplitFacts.

(** ** Trimming *)
Section RuneFacts.
Variable f1 : ascii -> bool.
Variable f2 : ascii -> ascii -> bool.
Variable f3 : ascii -> ascii -> ascii -> bool.



Local Abbreviation T := (strings.trimRunes f1 f2 f3).
Local Abbreviation rune := (rune f1 f2 f3).
Local Abbreviation runes := (runes f1 f2 f3).

Lemma rune_length r : rune r -> (0 < length r)%nat.
Proof. destruct 1; simpl; lia. Qed.

Lemma runes_app a b : runes a -> runes b -> runes (a ++ b).
Proof.
  induction 1 as [|r s Hr Hs IH]; intros Hb; [exact Hb|].
  rewrite <- app_assoc. constructor; auto.
Qed.

Lemma runes_one r : rune r -> runes r.
Proof.
  intros H. rewrite <- (app_nil_r r). constructor; [exact H | constructor].
Qed.

(** Either [s] starts with a rune, which [T] drops, or [T] leaves [s]. *)
Lemma T_cases (s : gostr) :
  (T s = s /\ forall r s', rune r -> s <> r ++ s')
  \/ (exists r s', rune r /\ s = r ++ s' /\ T s = T s').
Proof.
  destruct s as [|c1 r1].
  { left. split; [reflexivity|]. intros r s' Hr E.
    apply rune_length in Hr. destruct r; simpl in *; [lia | discriminate]. }
  simpl. destruct (f1 c1) eqn:E1.
  { right. exists [c1], r1. repeat split. constructor. exact E1. }
  destruct r1 as [|c2 r2].
  { left. split; [reflexivity|]. intros r s' Hr E.
    destruct Hr; simpl in E; inversion E; subst; congruence. }
  destruct (f2 c1 c2) eqn:E2.
  { right. exists [c1; c2], r2. repeat split. constructor. exact E2. }
  destruct r2 as [|c3 r3].
  { left. split; [reflexivity|]. intros r s' Hr E.
    destruct Hr; simpl in E; inversion E; subst; congruence. }
  destruct (f3 c1 c2 c3) eqn:E3.
  { right. exists [c1; c2; c3], r3. repeat split. constructor. exact E3. }
  left. split; [reflexivity|]. intros r s' Hr E.
  destruct Hr; simpl in E; inversion E; subst; congruence.
Qed.

(** [T s] is what is left of [s] after a run of runes, and starts with
    none. *)
Lemma T_spec (s : gostr) :
  exists w, runes w /\ s = w ++ T s /\ T (T s) = T s
            /\ (forall r s', rune r -> T s <> r ++ s').
Proof.
  remember (length s) as n eqn:Hn. revert s Hn.
  induction n as [n IH] using lt_wf_ind. intros s Hn.
  destruct (T_cases s) as [[E Hno] | (r & s' & Hr & -> & E)].
  - exists []. rewrite E. repeat split; [constructor | assumption | assumption].
  - destruct (IH (length s')) with (s := s') as (w & Hw & Es & Ei & Hno);
      [|reflexivity|].
    { subst n. rewrite length_app. apply rune_length in Hr. lia. }
    exists (r ++ w). rewrite E. repeat split.
    + constructor; assumption.
    + rewrite <- app_assoc. congruence.
    + assumption.
    + assumption.
Qed.

Lemma T_length (s : gostr) : (length (T s) <= length s)%nat.
Proof.
  destruct (T_spec s) as (w & _ & E & _). rewrite E at 2.
  rewrite length_app. lia.
Qed.

(** No rune is the start of a longer one. *)
Hypothesis f2_not_f1 : forall c1 c2, f2 c1 c2 = true -> f1 c1 = false.
Hypothesis f3_not_f1 : forall c1 c2 c3, f3 c1 c2 c3 = true -> f1 c1 = false.
Hypothesis f3_not_f2 : forall c1 c2 c3, f3 c1 c2 c3 = true -> f2 c1 c2 = false.

Lemma T_rune_app r s : rune r -> T (r ++ s) = T s.
Proof.
  destruct 1 as [c H1 | c1 c2 H2 | c1 c2 c3 H3]; simpl.
  - rewrite H1. reflexivity.
  - rewrite (f2_not_f1 _ _ H2), H2. reflexivity.
  - rewrite (f3_not_f1 _ _ _ H3), (f3_not_f2 _ _ _ H3), H3. reflexivity.
Qed.

Lemma T_runes_app w s : runes w -> T (w ++ s) = T s.
Proof.
  induction 1 as [|r w Hr Hw IH]; [reflexivity|].
  rewrite <- app_assoc, T_rune_app by assumption. exact IH.
Qed.

Lemma T_nil_iff (s : gostr) : T s = [] <-> runes s.
Proof.
  split.
  - intros E. destruct (T_spec s) as (w & Hw & Es & _).
    rewrite E, app_nil_r in Es. subst. assumption.
  - intros H. rewrite <- (app_nil_r s). rewrite T_runes_app by assumption.
    reflexivity.
Qed.

(** A prefix of a string that starts with no rune starts with none. *)
Lemma T_fix_prefix (p u : gostr) : T (p ++ u) = p ++ u -> T p = p.
Proof.
  intros E. destruct (T_cases p) as [[Ep _] | (r & p' & Hr & -> & _)];
    [assumption|].
  exfalso. rewrite <- app_assoc, T_rune_app in E by assumption.
  pose proof (T_length (p' ++ u)) as Hl. rewrite E in Hl.
  rewrite !length_app in Hl. apply rune_length in Hr. lia.
Qed.

End RuneFacts.


Ltac bytes_lia :=
  unfold strings.space2r, strings.space3r in *;
  unfold strings.space1, strings.space2, strings.space3, byte_is, byte_in in *;
  repeat match goal with
         | |- context [N_of_ascii ?c] =>
             let n := fresh "n" in
             let E := fresh "E" in
             remember (N_of_ascii c) as n eqn:E; clear E
         | H : context [N_of_ascii ?c] |- _ =>
             let n := fresh "n" in
             let E := fresh "E" in
             remember (N_of_ascii c) as n eqn:E; clear E
         end;
  repeat match goal with
         | H : _ = true |- _ =>
             progress
               repeat (rewrite andb_true_iff in H || rewrite orb_true_iff in H
                       || rewrite N.eqb_eq in H || rewrite N.leb_le in H)
         end;
  try (apply not_true_iff_false;
       repeat (rewrite andb_true_iff || rewrite orb_true_iff
               || rewrite N.eqb_eq || rewrite N.leb_le));
  lia.

Lemma space2_not_space1 c1 c2 :
  strings.space2 c1 c2 = true -> strings.space1 c1 = false.
Proof. intros H. bytes_lia. Qed.

Lemma space3_not_space1 c1 c2 c3 :
  strings.space3 c1 c2 c3 = true -> strings.space1 c1 = false.
Proof. intros H. bytes_lia. Qed.

Lemma space3_not_space2 c1 c2 c3 :
  strings.space3 c1 c2 c3 = true -> strings.space2 c1 c2 = false.
Proof. intros H. bytes_lia. Qed.

Lemma space2r_not_space1 c1 c2 :
  strings.space2r c1 c2 = true -> strings.space1 c1 = false.
Proof. intros H. bytes_lia. Qed.

Lemma space3r_not_space1 c1 c2 c3 :
  strings.space3r c1 c2 c3 = true -> strings.space1 c1 = false.
Proof. intros H. bytes_lia. Qed.

Lemma space3r_not_space2r c1 c2 c3 :
  strings.space3r c1 c2 c3 = true -> strings.space2r c1 c2 = false.
Proof. intros H. bytes_lia. Qed.

Lemma whitespace_rev (s : gostr) : whitespace s -> whitespaceRev (rev s).
Proof.
  induction 1 as [|r s Hr Hs IH]; [constructor|].
  rewrite rev_app_distr. apply runes_app; [exact IH|].
  apply runes_one. destruct Hr; simpl; constructor; assumption.
Qed.

Lemma whitespaceRev_rev (s : gostr) : whitespaceRev s -> whitespace (rev s).
Proof.
  induction 1 as [|r s Hr Hs IH]; [constructor|].
  rewrite rev_app_distr. apply runes_app; [exact IH|].
  apply runes_one. destruct Hr; simpl; constructor; assumption.
Qed.

Lemma TrimLeft_nil_iff (s : gostr) : strings.TrimLeft s = [] <-> whitespace s.
Proof.
  apply T_nil_iff;
    eauto using space2_not_space1, space3_not_space1, space3_not_space2.
Qed.

(** [TrimSpace s] is [s] without a white-space prefix and a white-space
    suffix. *)
Lemma TrimSpace_spec (s : gostr) :
  exists a b, whitespace a /\ whitespace b /\ s = a ++ strings.TrimSpace s ++ b.
Proof.
  unfold strings.TrimSpace, strings.TrimRight.
  destruct (T_spec strings.space1 strings.space2 strings.space3 s)
    as (a & Ha & Es & _).
  fold (strings.TrimLeft s) in *. set (t := strings.TrimLeft s) in *.
  destruct (T_spec strings.space1 strings.space2r strings.space3r (rev t))
    as (w & Hw & Et & _).
  fold (strings.TrimLeftRev (rev t)) in *.
  exists a, (rev w). split; [assumption|]. split.
  - apply whitespaceRev_rev. assumption.
  - rewrite <- rev_app_distr, <- Et, rev_involutive. assumption.
Qed.

Lemma TrimSpace_nil_iff (s : gostr) : strings.TrimSpace s = [] <-> whitespace s.
Proof.
  split.
  - intros E. destruct (TrimSpace_spec s) as (a & b & Ha & Hb & Es).
    rewrite E in Es. rewrite Es. apply runes_app; assumption.
  - intros H. apply TrimLeft_nil_iff in H.
    unfold strings.TrimSpace. rewrite H. reflexivity.
Qed.

Lemma TrimSpace_idempotent (s : gostr) :
  strings.TrimSpace (strings.TrimSpace s) = strings.TrimSpace s.
Proof.
  unfold strings.TrimSpace, strings.TrimRight.
  destruct (T_spec strings.space1 strings.space2 strings.space3 s)
    as (a & _ & _ & Ht & _).
  fold (strings.TrimLeft s) in *. set (t := strings.TrimLeft s) in *.
  destruct (T_spec strings.space1 strings.space2r strings.space3r (rev t))
    as (w & _ & Et & Hu & _).
  fold (strings.TrimLeftRev (rev t)) in *.
  set (u := strings.TrimLeftRev (rev t)) in *.
  assert (Ex : strings.TrimLeft (rev u) = rev u).
  { apply (T_fix_prefix strings.space1 strings.space2 strings.space3
             space2_not_space1 space3_not_space1 space3_not_space2
             (rev u) (rev w)).
    rewrite <- rev_app_distr, <- Et, rev_involutive. exact Ht. }
  rewrite Ex, rev_involutive. f_equal. exact Hu.
Qed.

Lemma TrimSpace_no_byte (c : ascii) (s : gostr) :
  c ∉ s -> c ∉ strings.TrimSpace s.
Proof.
  intros Hn Hin. apply Hn. destruct (TrimSpace_spec s) as (a & b & _ & _ & E).
  rewrite E. apply elem_of_app. right. apply elem_of_app. left. assumption.
Qed.

(** ** The status parser *)



Lemma trimStep_invariant (lines : list gostr) (j : nat) :
  (j <= length lines)%nat ->
  exists arr i,
    fold_left trimStep (seq 0 j) (lines, 0%nat) = (arr, i)
    /\ length arr = length lines
    /\ (i <= j)%nat
    /\ take i arr = filter nonEmpty (map strings.TrimSpace (take j lines))
    /\ drop j arr = drop j lines.
Proof.
  induction j as [|j IH]; intros Hj.
  - exists lines, 0%nat. simpl. rewrite take_0. repeat split; lia.
  - destruct IH as (arr & i & Ef & Hlen & Hi & Ht & Hd); [lia|].
    rewrite seq_S, fold_left_app, Ef. simpl.
    assert (Hlk : arr !! j = lines !! j).
    { rewrite <- (Nat.add_0_r j), <- !lookup_drop, Hd. reflexivity. }
    destruct (lookup_lt_is_Some_2 lines j) as [l Hl]; [lia|].
    rewrite Hlk, Hl.
    assert (Htk : take (S j) lines = take j lines ++ [l])
      by (apply take_S_r; assumption).
    assert (Hdr : drop (S j) arr = drop (S j) lines).
    { replace (S j) with (j + 1)%nat by lia.
      rewrite <- (drop_drop arr 1 j), <- (drop_drop lines 1 j).
      rewrite Hd. reflexivity. }
    destruct (strings.TrimSpace l) as [|c l'] eqn:El; simpl.
    + exists arr, i. repeat split; try assumption; try lia.
      rewrite Htk, map_app, filter_app, <- Ht. simpl. rewrite El.
      rewrite filter_cons_False by (unfold nonEmpty; congruence).
      rewrite filter_nil, app_nil_r. reflexivity.
    + exists (<[i := c :: l']> arr), (S i). repeat split.
      * rewrite length_insert. assumption.
      * lia.
      * rewrite (take_S_r _ _ (c :: l'))
          by (apply list_lookup_insert_eq; lia).
        rewrite take_insert_ge by lia.
        rewrite Htk, map_app, filter_app, <- Ht. simpl. rewrite El.
        rewrite filter_cons_True by (unfold nonEmpty; congruence).
        rewrite filter_nil. reflexivity.
      * rewrite drop_insert_lt by lia. assumption.
Qed.

(** The in-place loop of [toTrimmedLines] filters and trims. *)
Lemma toTrimmedLines_spec (d : gostr) : toTrimmedLines d = trimmedLines d.
Proof.
  unfold toTrimmedLines, trimmedLines.
  destruct (trimStep_invariant (strings.Split d newline)
              (length (strings.Split d newline)))
    as (arr & i & Ef & _ & _ & Ht & _); [lia|].
  rewrite Ef, Ht, take_ge by lia. reflexivity.
Qed.

Lemma trimmedLines_app (a b : gostr) :
  trimmedLines (a ++ newline :: b) = trimmedLines a ++ trimmedLines b.
Proof.
  unfold trimmedLines. rewrite Split_app, map_app, filter_app. reflexivity.
Qed.

Lemma pieces_prefix (sep : ascii) (r s : gostr) :
  sep ∉ r ->
  strings.pieces (r ++ s) sep
  = (r ++ (strings.pieces s sep).1, (strings.pieces s sep).2).
Proof.
  induction r as [|c r IH]; intros Hn; simpl.
  - destruct (strings.pieces s sep); reflexivity.
  - apply not_elem_of_cons in Hn as [Hc Hr]. rewrite IH by assumption.
    simpl. destruct (decide (c = sep)); [congruence | reflexivity].
Qed.

Lemma spaceRune_newline (r : gostr) :
  rune strings.space1 strings.space2 strings.space3 r ->
  r = [newline] \/ (newline ∉ r).
Proof.
  assert (Hn : N_of_ascii newline = 10%N) by reflexivity.
  destruct 1 as [c H | c1 c2 H | c1 c2 c3 H].
  - destruct (decide (c = newline)) as [->|Hc]; [left; reflexivity|].
    right. intros Hin. apply list_elem_of_singleton in Hin. congruence.
  - right. intros Hin.
    repeat (apply elem_of_cons in Hin as [<-|Hin]);
      [| |apply elem_of_nil in Hin; contradiction]; bytes_lia.
  - right. intros Hin.
    repeat (apply elem_of_cons in Hin as [<-|Hin]);
      [| | |apply elem_of_nil in Hin; contradiction]; bytes_lia.
Qed.

(** Every line of a white-space string is a white-space string. *)
Lemma whitespace_lines (ws : gostr) :
  whitespace ws -> Forall whitespace (strings.Split ws newline).
Proof.
  unfold strings.Split.
  induction 1 as [|r s Hr Hs IH].
  - simpl. repeat constructor.
  - destruct (spaceRune_newline r Hr) as [-> | Hn].
    + simpl. destruct (strings.pieces s newline) as [h t].
      constructor; [constructor | exact IH].
    + rewrite pieces_prefix by assumption.
      destruct (strings.pieces s newline) as [h t]. simpl.
      inversion IH; subst. constructor; [|assumption].
      apply runes_app; [apply runes_one|]; assumption.
Qed.

Lemma whitespace_trimmedLines (ws : gostr) :
  whitespace ws -> trimmedLines ws = [].
Proof.
  intros H. apply whitespace_lines in H. unfold trimmedLines.
  induction H as [|l ls Hl _ IH]; [reflexivity|].
  simpl. apply TrimSpace_nil_iff in Hl.
  rewrite filter_cons_False by (unfold nonEmpty; rewrite Hl; auto).
  exact IH.
Qed.

Lemma trimmedLines_shape (d : gostr) :
  Forall (fun l => l <> [] /\ (newline ∉ l) /\ strings.TrimSpace l = l)
         (trimmedLines d).
Proof.
  unfold trimmedLines. pose proof (Split_pieces_no_sep newline d) as H.
  induction H as [|l ls Hl _ IH]; simpl; [constructor|].
  rewrite filter_cons. destruct (decide (nonEmpty (strings.TrimSpace l))).
  - constructor; [|exact IH]. split; [assumption|]. split.
    + apply TrimSpace_no_byte. assumption.
    + apply TrimSpace_idempotent.
  - exact IH.
Qed.

Lemma trimmedLines_Join (ls : list gostr) :
  Forall (fun l => l <> [] /\ (newline ∉ l) /\ strings.TrimSpace l = l) ls ->
  trimmedLines (strings.Join ls [newline]) = ls.
Proof.
  intros H. destruct ls as [|l0 ls0]; [reflexivity|].
  unfold trimmedLines. rewrite Split_Join.
  - induction H as [|l ls (Hne & _ & Ht) _ IH]; [reflexivity|].
    simpl. rewrite Ht, filter_cons_True by assumption. f_equal. exact IH.
  - discriminate.
  - eapply Forall_impl; [exact H|]. simpl. tauto.
Qed.






Lemma fatalif_true format args s :
  fatalif true format args s = Exited 1 (fatal format args s).
Proof. reflexivity. Qed.

Lemma fatalif_false format args s : fatalif false format args s = Return tt s.
Proof. reflexivity. Qed.

Lemma fataliferr_None s : fataliferr None s = Return tt s.
Proof. reflexivity. Qed.

Lemma fataliferr_None_bind {B} (k : unit -> M B) s :
  (fataliferr None ≫= k) s = k tt s.
Proof. reflexivity. Qed.

Lemma fataliferr_Some e s :
  fataliferr (Some e) s = Exited 1 (fatal "%s\n" [AErr e] s).
Proof. reflexivity. Qed.

Lemma space_not_in_code (code : gostr) : In code codes -> " "%char ∉ code.
Proof.
  intros Hc Hin. simpl in Hc.
  destruct Hc as [<-|[<-|[<-|[<-|[]]]]]; simpl in Hin;
    repeat (apply elem_of_cons in Hin as [Hin|Hin]; [discriminate|]);
    apply elem_of_nil in Hin; assumption.
Qed.

Lemma parseGitStatusLineMust_ok (code path : gostr) (s : State) :
  In code codes ->
  parseGitStatusLineMust (code ++ " " ++ path) s
  = Return {| Type_ := kindOf code; Path := strings.TrimSpace path;
              Name := filepath.Base (strings.TrimSpace path) |} s.
Proof.
  intros Hc. pose proof (space_not_in_code code Hc) as Hsp.
  unfold parseGitStatusLineMust.
  change (code ++ " " ++ path) with (code ++ " "%char :: path).
  change (" " : gostr) with [" "%char].
  rewrite (SplitN2_app " "%char code path Hsp).
  simpl in Hc. destruct Hc as [<-|[<-|[<-|[<-|[]]]]]; reflexivity.
Qed.

Lemma parseGitStatusLineMust_bad (l : gostr) (s : State) :
  ~ wellFormed l ->
  parseGitStatusLineMust l s
  = Exited 1 (fatal "invalid line: '%s'\n" [AStr l] s).
Proof.
  intros Hbad. unfold parseGitStatusLineMust.
  destruct (SplitN2_cases " "%char l) as [[_ E] | (a & b & -> & Ha & E)];
    rewrite E.
  - reflexivity.
  - assert (Hn : ~ In a codes).
    { intros Hin. apply Hbad. exists a, b. split; [assumption | reflexivity]. }
    cbn [length Nat.eqb negb nth].
    unfold mbind, M_bind, bind. cbv beta.
    rewrite fatalif_false. cbv beta iota.
    rewrite !bool_decide_eq_false_2 by (intros ->; apply Hn; simpl; tauto).
    reflexivity.
Qed.

Lemma parseGitStatusLineMust_cases (l : gostr) (s : State) :
  (wellFormed l /\ parseGitStatusLineMust l s = Return (lineRecord l) s)
  \/ (~ wellFormed l
      /\ parseGitStatusLineMust l s
         = Exited 1 (fatal "invalid line: '%s'\n" [AStr l] s)).
Proof.
  destruct (SplitN2_cases " "%char l) as [[Hn E] | (a & b & -> & Ha & E)].
  - right. assert (Hbad : ~ wellFormed l).
    { intros (code & path & _ & ->). apply Hn.
      apply elem_of_app. right. left. }
    split; [assumption | apply parseGitStatusLineMust_bad; assumption].
  - destruct (decide (a ∈ codes)) as [Hin|Hin].
    + left. apply list_elem_of_In in Hin. split.
      * exists a, b. split; [assumption | reflexivity].
      * change (a ++ " "%char :: b) with (a ++ " " ++ b).
        rewrite parseGitStatusLineMust_ok by assumption.
        unfold lineRecord. change (a ++ " " ++ b) with (a ++ " "%char :: b).
        change (" " : gostr) with [" "%char]. rewrite E. reflexivity.
    + right. assert (Hbad : ~ wellFormed (a ++ " "%char :: b)).
      { intros (code & path & Hc & E'). apply Hin. apply list_elem_of_In.
        change (code ++ " " ++ path) with (code ++ " "%char :: path) in E'.
        pose proof (space_not_in_code code Hc) as Hsp.
        pose proof (Cut_app " "%char a b Ha) as C1.
        pose proof (Cut_app " "%char code path Hsp) as C2.
        rewrite E' in C1. rewrite C1 in C2. inversion C2; subst. assumption. }
      split; [assumption | apply parseGitStatusLineMust_bad; assumption].
Qed.


Lemma parseLines_ok (lines : list gostr) (incl : bool) (res : list GitChange)
    (s : State) :
  Forall wellFormed lines ->
  parseLines lines incl res s
  = Return (res ++ keep incl (map lineRecord lines)) s.
Proof.
  intros H. revert res. induction H as [|l ls Hl _ IH]; intros res.
  - simpl. unfold keep. rewrite filter_nil, app_nil_r. reflexivity.
  - cbn [parseLines]. unfold mbind, M_bind, bind.
    destruct (parseGitStatusLineMust_cases l s) as [[_ E] | [Hbad _]];
      [|contradiction].
    rewrite E. unfold keep in *. cbn [map].
    destruct incl; cbn [negb andb].
    + rewrite IH, filter_cons_True by (intros [? _]; discriminate).
      rewrite <- app_assoc. reflexivity.
    + destruct (Z.eqb_spec (Type_ (lineRecord l)) NotCheckedIn) as [Et|Et];
        rewrite IH.
      * rewrite filter_cons_False by (intros Hn; apply Hn; split; auto).
        reflexivity.
      * rewrite filter_cons_True by (intros [_ ?]; contradiction).
        rewrite <- app_assoc. reflexivity.
Qed.

Lemma parseLines_abort (lines : list gostr) (incl : bool)
    (res : list GitChange) (s : State) :
  Exists (fun l => ~ wellFormed l) lines ->
  exists l0, In l0 lines /\ ~ wellFormed l0
    /\ parseLines lines incl res s
       = Exited 1 (fatal "invalid line: '%s'\n" [AStr l0] s).
Proof.
  intros H. revert res. induction lines as [|l ls IH]; intros res.
  - inversion H.
  - cbn [parseLines]. unfold mbind, M_bind, bind.
    destruct (parseGitStatusLineMust_cases l s) as [[Hwf E] | [Hbad E]];
      rewrite E.
    + assert (Hls : Exists (fun l => ~ wellFormed l) ls)
        by (inversion H; [contradiction | assumption]).
      destruct (negb incl && (Type_ (lineRecord l) =? NotCheckedIn)%Z);
        destruct (IH Hls) with (res := res) as (l0 & Hin & Hb & E0);
        destruct (IH Hls) with (res := res ++ [lineRecord l])
          as (l1 & Hin1 & Hb1 & E1).
      * exists l0. split; [right; assumption|]. split; assumption.
      * exists l1. split; [right; assumption|]. split; assumption.
    + exists l. split; [left; reflexivity|]. split; [assumption | reflexivity].
Qed.

(** ** The last element of a path *)


Lemma takeWhile_app (f : ascii -> bool) (a b : gostr) :
  Forall (fun c => f c = true) a ->
  filepath.takeWhile f (a ++ b) = a ++ filepath.takeWhile f b.
Proof.
  induction 1 as [|c a Hc _ IH]; [reflexivity|].
  simpl. rewrite Hc, IH. reflexivity.
Qed.

Lemma takeWhile_stop (f : ascii -> bool) (s : gostr) :
  match s with [] => True | c :: _ => f c = false end ->
  filepath.takeWhile f s = [].
Proof. destruct s as [|c s]; [reflexivity|]. simpl. intros ->. reflexivity. Qed.

Lemma Base_nonempty (path : gostr) :
  path <> [] ->
  filepath.Base path
  = let path1 := rev (filepath.dropWhile filepath.isSlash (rev path)) in
    let path2 := drop (filepath.volumeNameLen path1) path1 in
    let path3 := rev (filepath.takeWhile notSlash (rev path2)) in
    match path3 with
    | [] => [filepath.Separator]
    | _ => path3
    end.
Proof. destruct path; [contradiction | reflexivity]. Qed.

(** A path that ends in a separator and an element: [Base] is the element,
    provided the volume name does not reach into it. *)
Lemma Base_last_element (dir name : gostr) (sep : ascii) :
  filepath.isSlash sep = true ->
  name <> [] ->
  Forall (fun c => notSlash c = true) name ->
  (filepath.volumeNameLen (dir ++ sep :: name) <= length dir + 1)%nat ->
  filepath.Base (dir ++ sep :: name) = name.
Proof.
  intros Hsep Hne Hname Hvol.
  rewrite Base_nonempty by (destruct dir; discriminate). cbv zeta.
  assert (Hrev : rev (dir ++ sep :: name) = rev name ++ sep :: rev dir).
  { rewrite rev_app_distr. simpl. rewrite <- app_assoc. reflexivity. }
  assert (Hd : filepath.dropWhile filepath.isSlash (rev (dir ++ sep :: name))
               = rev (dir ++ sep :: name)).
  { rewrite Hrev. destruct (rev name) as [|c r] eqn:Er.
    - apply (f_equal (@rev ascii)) in Er. rewrite rev_involutive in Er.
      contradiction.
    - simpl. assert (Hc : notSlash c = true).
      { rewrite Forall_forall in Hname. apply Hname.
        apply list_elem_of_In, in_rev. rewrite Er. left. reflexivity. }
      unfold notSlash in Hc. apply negb_true_iff in Hc. rewrite Hc.
      reflexivity. }
  rewrite Hd, rev_involutive.
  set (v := filepath.volumeNameLen (dir ++ sep :: name)) in *.
  replace (dir ++ sep :: name) with ((dir ++ [sep]) ++ name)
    by (rewrite <- app_assoc; reflexivity).
  rewrite drop_app_le by (rewrite length_app; simpl; lia).
  rewrite rev_app_distr, takeWhile_app.
  2:{ rewrite Forall_forall in *. intros c Hc. apply Hname.
      apply list_elem_of_In, in_rev, list_elem_of_In. assumption. }
  rewrite takeWhile_stop.
  - rewrite app_nil_r, rev_involutive. destruct name; [contradiction|].
    reflexivity.
  - destruct (drop v (dir ++ [sep])) as [|c r] eqn:Ed using rev_ind;
      [exact I|].
    rewrite rev_app_distr. simpl.
    assert (c = sep).
    { pose proof (take_drop v (dir ++ [sep])) as Htd.
      rewrite Ed, app_assoc in Htd. apply app_inj_tail in Htd. tauto. }
    subst c. unfold notSlash. rewrite Hsep. reflexivity.
Qed.

(** ** What the parser guarantees *)


(** C4. A status line [<code> <path>] with code M, A, D or ?? parses to one
    record: its kind is the one the code stands for (M: Modified, A: Added,
    D: Deleted, ??: NotCheckedIn), its path is the trimmed path token and
    its name is [filepath.Base] of that path, which for a path ending in a
    separator and an element is the element. *)
Theorem status_line_parses_to_one_record (code path : gostr) (s : State) :
  In code codes ->
  parseGitStatusLineMust (code ++ " " ++ path) s
  = Return {| Type_ := kindOf code; Path := strings.TrimSpace path;
              Name := filepath.Base (strings.TrimSpace path) |} s
  /\ (kindOf "M" = Modified /\ kindOf "A" = Added /\ kindOf "D" = Deleted
      /\ kindOf "??" = NotCheckedIn)
  /\ (forall dir name sep,
        strings.TrimSpace path = dir ++ sep :: name ->
        filepath.isSlash sep = true ->
        name <> [] ->
        Forall (fun c => notSlash c = true) name ->
        (filepath.volumeNameLen (dir ++ sep :: name) <= length dir + 1)%nat ->
        filepath.Base (strings.TrimSpace path) = name).
Proof.
  intros Hc. split; [apply parseGitStatusLineMust_ok; assumption|].
  split; [repeat split|].
  intros dir name sep -> Hsep Hne Hname Hvol.
  apply Base_last_element; assumption.
Qed.

Lemma status_line_parses_to_one_record_witness :
  In ("M" : gostr) codes
  /\ parseGitStatusLineMust ("M" ++ " " ++ "  src/a.go ") state0
     = Return {| Type_ := Modified; Path := "src/a.go"; Name := "a.go" |}
              state0.
Proof.
  split; [left; reflexivity|].
  exact (proj1 (status_line_parses_to_one_record "M" "  src/a.go " state0
                  (or_introl eq_refl))).
Defined.

(** C5, as the claim has it, fails: a line that is empty after trimming is
    dropped, it does not abort the run.  The input below has two such
    lines and parses to two records. *)
Lemma empty_line_does_not_abort :
  In ([] : gostr) (strings.Split blankLineInput newline)
  /\ strings.TrimSpace [] = []
  /\ parseGitStatusMust blankLineInput false state0
     = Return [ {| Type_ := Modified; Path := "a"; Name := "a" |};
                {| Type_ := Added; Path := "b"; Name := "b" |} ] state0.
Proof.
  split; [right; left; reflexivity|]. split; reflexivity.
Qed.

(** C5, amended. When some line of the input is, once trimmed, neither
    empty nor of the form [<code> <path>] with code M, A, D or ??, parsing
    exits with status 1 on the first such line, after the diagnostic and
    the stack dump; no record list is returned. *)
Theorem malformed_line_aborts (out : gostr) (incl : bool) (s : State)
    (l : gostr) :
  In l (strings.Split out newline) ->
  strings.TrimSpace l <> [] ->
  ~ wellFormed (strings.TrimSpace l) ->
  exists l0, In l0 (map strings.TrimSpace (strings.Split out newline))
    /\ l0 <> [] /\ ~ wellFormed l0
    /\ parseGitStatusMust out incl s
       = Exited 1 (fatal "invalid line: '%s'\n" [AStr l0] s).
Proof.
  intros Hin Hne Hbad. unfold parseGitStatusMust.
  rewrite toTrimmedLines_spec.
  assert (Hex : Exists (fun l => ~ wellFormed l) (trimmedLines out)).
  { apply Exists_exists. exists (strings.TrimSpace l). split; [|assumption].
    unfold trimmedLines. apply list_elem_of_filter.
    split; [assumption|]. apply list_elem_of_In, in_map. assumption. }
  destruct (parseLines_abort _ incl [] s Hex) as (l0 & Hl0 & Hb0 & E).
  exists l0. apply list_elem_of_In in Hl0. unfold trimmedLines in Hl0.
  apply list_elem_of_filter in Hl0 as [Hn0 Hm0].
  apply list_elem_of_In in Hm0. repeat split; assumption.
Qed.

Lemma malformed_line_aborts_witness :
  exists l0,
    In l0 (map strings.TrimSpace (strings.Split badCodeInput newline))
    /\ l0 <> [] /\ ~ wellFormed l0
    /\ parseGitStatusMust badCodeInput false state0
       = Exited 1 (fatal "invalid line: '%s'\n" [AStr l0] state0).
Proof.
  apply (malformed_line_aborts badCodeInput false state0 "X b").
  - right. left. reflexivity.
  - discriminate.
  - intros (code & path & Hc & E). simpl in Hc.
    destruct Hc as [<-|[<-|[<-|[<-|[]]]]]; discriminate.
Defined.

Lemma allSpace_TrimLeft (s : gostr) :
  allSpace s = true <-> strings.TrimLeft s = [].
Proof.
  remember (length s) as n eqn:Hn. revert s Hn.
  induction n as [n IH] using lt_wf_ind. intros s Hn.
  assert (IH' : forall r, (length r < length s)%nat ->
                  allSpace r = true <-> strings.TrimLeft r = []).
  { intros r Hr. apply (IH (length r)); [lia | reflexivity]. }
  clear IH. unfold strings.TrimLeft in *.
  destruct s as [|c1 r1]; [tauto|]. simpl.
  destruct (strings.space1 c1); [apply IH'; simpl; lia|].
  destruct r1 as [|c2 r2]; [split; discriminate|].
  destruct (strings.space2 c1 c2); [apply IH'; simpl; lia|].
  destruct r2 as [|c3 r3]; [split; discriminate|].
  destruct (strings.space3 c1 c2 c3); [apply IH'; simpl; lia|].
  split; discriminate.
Qed.

Lemma allSpace_whitespace (s : gostr) : allSpace s = true <-> whitespace s.
Proof. rewrite allSpace_TrimLeft. apply TrimLeft_nil_iff. Qed.

Lemma trimmedLines_alt (d : gostr) :
  trimmedLines d
  = map strings.TrimSpace
        (filter (fun l => allSpace l = false) (strings.Split d newline)).
Proof.
  unfold trimmedLines. induction (strings.Split d newline) as [|l ls IH];
    [reflexivity|].
  cbn [map]. rewrite !filter_cons.
  destruct (decide (nonEmpty (strings.TrimSpace l))) as [Hn|Hn];
    destruct (decide (allSpace l = false)) as [Hw|Hw].
  - cbn [map]. f_equal. exact IH.
  - exfalso. apply Hn. apply TrimSpace_nil_iff, allSpace_whitespace.
    destruct (allSpace l); congruence.
  - exfalso. apply Hn. intros H.
    apply TrimSpace_nil_iff, allSpace_whitespace in H. congruence.
  - exact IH.
Qed.

Lemma toTrimmedLines_normalize (out : gostr) :
  toTrimmedLines (normalize out) = toTrimmedLines out.
Proof.
  rewrite !toTrimmedLines_spec. unfold normalize.
  rewrite <- trimmedLines_alt. apply trimmedLines_Join, trimmedLines_shape.
Qed.

Lemma toTrimmedLines_blank_line (a ws b : gostr) :
  whitespace ws ->
  toTrimmedLines (a ++ newline :: ws ++ newline :: b)
  = toTrimmedLines (a ++ newline :: b).
Proof.
  intros H. rewrite !toTrimmedLines_spec, !trimmedLines_app.
  rewrite (whitespace_trimmedLines ws H). reflexivity.
Qed.

(** C10. The parser normalises white space: an input and the same input
    with the blank lines removed and the other lines trimmed parse alike;
    a line of white space between two lines changes nothing, and an input
    of white space only parses to no record without aborting. *)
Theorem parse_normalizes_whitespace :
  (forall out incl,
     parseGitStatusMust out incl = parseGitStatusMust (normalize out) incl)
  /\ (forall a ws b incl,
        whitespace ws ->
        parseGitStatusMust (a ++ newline :: ws ++ newline :: b) incl
        = parseGitStatusMust (a ++ newline :: b) incl)
  /\ (forall ws incl s,
        whitespace ws -> parseGitStatusMust ws incl s = Return [] s)
  /\ (forall l, allSpace l = true <-> whitespace l).
Proof.
  split; [|split; [|split; [|exact allSpace_whitespace]]].
  - intros out incl. unfold parseGitStatusMust.
    rewrite toTrimmedLines_normalize. reflexivity.
  - intros a ws b incl H. unfold parseGitStatusMust.
    rewrite toTrimmedLines_blank_line by assumption. reflexivity.
  - intros ws incl s H. unfold parseGitStatusMust.
    rewrite toTrimmedLines_spec, whitespace_trimmedLines by assumption.
    reflexivity.
Qed.

Lemma parse_normalizes_whitespace_witness :
  whitespace "   "
  /\ parseGitStatusMust (" M a " ++ newline :: "   " ++ newline :: "A b") false
     = parseGitStatusMust (" M a " ++ newline :: "A b") false.
Proof.
  assert (H : whitespace "   ") by (apply TrimSpace_nil_iff; reflexivity).
  split; [exact H|].
  exact (proj1 (proj2 parse_normalizes_whitespace) " M a " "   " "A b" false H).
Defined.

(** ** What is assumed of the platform

    A file name proper: not empty, no separator, no colon, neither "." nor
    "..". *)



Lemma Replace_app (a b : gostr) (x y : ascii) :
  strings.Replace (a ++ b) x y = strings.Replace a x y ++ strings.Replace b x y.
Proof. apply map_app. Qed.

Lemma Replace_idempotent (p : gostr) :
  strings.Replace (strings.Replace p "/" "\") "/" "\"
  = strings.Replace p "/" "\".
Proof.
  unfold strings.Replace. rewrite map_map. apply map_ext. intros c.
  destruct (decide (c = "/"%char)); [reflexivity|].
  destruct (decide (c = "/"%char)); [contradiction | reflexivity].
Qed.

Lemma Replace_entryName (n : gostr) :
  entryName n -> strings.Replace n "/" "\" = n.
Proof.
  intros (_ & H & _). induction H as [|c n [Hc _] _ IH]; [reflexivity|].
  simpl. rewrite IH. destruct (decide (c = "/"%char)) as [->|]; [|reflexivity].
  discriminate.
Qed.

Lemma entryName_no_backslash (n : gostr) :
  entryName n -> Example.backslash ∉ n.
Proof.
  intros (_ & H & _) Hin. rewrite Forall_forall in H.
  destruct (H _ Hin) as [Hs _]. discriminate.
Qed.

Lemma Example_pathElems_Join (d n : gostr) :
  entryName n ->
  Example.pathElems (Example.joinPath d n) = Example.pathElems d ++ [n].
Proof.
  intros Hn. pose proof Hn as (Hne & _).
  assert (En : Example.pathElems n = [n]).
  { unfold Example.pathElems. rewrite Replace_entryName by assumption.
    rewrite Split_no_sep by (apply entryName_no_backslash; assumption).
    rewrite filter_cons_True by assumption. reflexivity. }
  unfold Example.joinPath. destruct d as [|c d]; [exact En|].
  destruct n as [|c' n']; [contradiction|].
  unfold Example.pathElems in *.
  rewrite Replace_app.
  change (strings.Replace (Example.backslash :: c' :: n') "/"
            Example.backslash)
    with (Example.backslash
            :: strings.Replace (c' :: n') "/" Example.backslash).
  rewrite Split_app, filter_app, En. reflexivity.
Qed.

Lemma Example_isAbs_Join (d n : gostr) :
  entryName n -> Example.isAbs (Example.joinPath d n) = Example.isAbs d.
Proof.
  intros (Hne & Hn & _). destruct n as [|c n]; [contradiction|].
  destruct d as [|x [|y d]]; simpl.
  - destruct n as [|c1 n]; [reflexivity|].
    inversion Hn as [|? ? _ Hn']; subst.
    inversion Hn' as [|? ? [_ Hc] _]; subst.
    rewrite bool_decide_eq_false_2 by assumption. reflexivity.
  - reflexivity.
  - reflexivity.
Qed.

Lemma Example_isAbs_Replace (p : gostr) :
  Example.isAbs (strings.Replace p "/" "\") = Example.isAbs p.
Proof.
  destruct p as [|c [|c1 p]]; [reflexivity | reflexivity |]. simpl.
  destruct (decide (c = "/"%char)) as [->|];
    destruct (decide (c1 = "/"%char)) as [->|]; reflexivity.
Qed.

Lemma Example_laws : PlatformLaws Example.platform.
Proof.
  split; simpl; unfold Example.resolvePath.
  - intros wd d n Hn. rewrite Example_isAbs_Join, Example_pathElems_Join
      by assumption. rewrite app_assoc. reflexivity.
  - intros wd p. rewrite Example_isAbs_Replace. unfold Example.pathElems.
    change Example.backslash with "\"%char. rewrite Replace_idempotent.
    reflexivity.
Qed.

(** ** The snapshot builder *)
Section Builder.
Context (P : Platform).

Lemma bind_Return {A B} (m : M A) (k : A -> M B) s a s' :
  m s = Return a s' -> (m ≫= k) s = k a s'.
Proof. intros H. unfold mbind, M_bind, bind. rewrite H. reflexivity. Qed.

Lemma bind_Exited {A B} (m : M A) (k : A -> M B) s c s' :
  m s = Exited c s' -> (m ≫= k) s = Exited c s'.
Proof. intros H. unfold mbind, M_bind, bind. rewrite H. reflexivity. Qed.

Lemma os_Create_ok (name : gostr) (s : State) :
  isDir (fs s) (removelast (key P name s)) = true ->
  isDir (fs s) (key P name s) = false ->
  os_Create P name s
  = Return (key P name s, None)
      (set_fs (<[key P name s := File (wallClock P s) []]> (fs s)) s).
Proof. intros H1 H2. unfold os_Create. rewrite H1, H2. reflexivity. Qed.

Lemma os_Create_cases (name : gostr) (s : State) :
  os_Create P name s
  = Return (key P name s, None)
      (set_fs (<[key P name s := File (wallClock P s) []]> (fs s)) s)
  \/ os_Create P name s = Return ([], Some (PathError "open" name)) s.
Proof.
  unfold os_Create.
  destruct (isDir (fs s) (removelast (key P name s))
            && negb (isDir (fs s) (key P name s))); auto.
Qed.

Lemma createEmptyFileMust_ok (path : gostr) (s : State) :
  isDir (fs s) (removelast (key P path s)) = true ->
  isDir (fs s) (key P path s) = false ->
  createEmptyFileMust P path s
  = Return tt (set_fs (<[key P path s := File (wallClock P s) []]> (fs s)) s).
Proof.
  intros H1 H2. unfold createEmptyFileMust.
  erewrite bind_Return by (apply os_Create_ok; assumption).
  reflexivity.
Qed.


Lemma runWinMerge_run (dir : gostr) (s : State) :
  exists s',
    (runWinMerge P dir s = Return tt s' \/ runWinMerge P dir s = Exited 1 s')
    /\ procs s'
       = procs s
         ++ [(winMergePath s,
              winMergeFlags ++ [Join P dir "before"; Join P dir "after"])]
    /\ fs s' = fs s.
Proof.
  unfold runWinMerge, getBeforeAfterDirs, runCmd, get, modify, Printf.
  unfold mbind, M_bind, bind, mret, M_ret, ret. cbn.
  destruct (Run P (winMergePath s) _) as [out [e|]] eqn:E; cbn;
    eexists; (split; [|split]);
    try (left; reflexivity); try (right; reflexivity); reflexivity.
Qed.

Lemma copyFileChangeMust_unknown (dir : gostr) (c : GitChange) (s : State) :
  Type_ c <> Added -> Type_ c <> Modified -> Type_ c <> Deleted ->
  copyFileChangeMust P dir c s
  = Exited 1 (fatal "unknown change %+v\n" [AChange c] s).
Proof.
  intros H1 H2 H3. unfold copyFileChangeMust, getBeforeAfterDirs.
  rewrite (proj2 (Z.eqb_neq _ _) H1), (proj2 (Z.eqb_neq _ _) H2),
    (proj2 (Z.eqb_neq _ _) H3).
  reflexivity.
Qed.

End Builder.

(** C3. [runWinMerge] starts WinMerge with the switches /u, /wl and /wr,
    followed by the before and the after directory, and with nothing
    else: /r, the switch for a recursive compare, is not among them. *)
Theorem runWinMerge_command_line (P : Platform) (dir : gostr) (s : State) :
  exists s',
    (runWinMerge P dir s = Return tt s' \/ runWinMerge P dir s = Exited 1 s')
    /\ procs s'
       = procs s ++ [(winMergePath s,
                      ["/u" : gostr; "/wl" : gostr; "/wr" : gostr;
                       (getBeforeAfterDirs P dir).1;
                       (getBeforeAfterDirs P dir).2])]
    /\ ~ In ("/r" : gostr) winMergeFlags.
Proof.
  destruct (runWinMerge_run P dir s) as (s' & Hr & Hp & _).
  exists s'. split; [exact Hr|]. split; [exact Hp|].
  simpl. intros [H|[H|[H|[]]]]; discriminate.
Qed.

(** C2, as the claim has it, fails: a record of kind NotCheckedIn is no
    Added record to the snapshot builder.  With the file on disk and both
    directories there, the Added record is staged and the same record as
    NotCheckedIn ends the run with status 1. *)


Lemma untracked_is_not_handled_as_added :
  (exists s',
     copyFileChangeMust Example.platform "C:\run" (junk Added) junkState
     = Return tt s'
     /\ fs s' !! junkBefore = Some (File (1000 * Hour) [])
     /\ fs s' !! junkAfter = Some (File (1000 * Hour) "package junk"))
  /\ copyFileChangeMust Example.platform "C:\run" (junk NotCheckedIn) junkState
     = Exited 1 (fatal "unknown change %+v\n" [AChange (junk NotCheckedIn)]
                       junkState).
Proof.
  split; [|reflexivity].
  eexists. split; [vm_compute; reflexivity|]. split; vm_compute; reflexivity.
Qed.

(** C2, amended. A record of kind NotCheckedIn that reaches the snapshot
    builder ends the run: "unknown change" and the stack dump are printed,
    the exit status is 1, and no file is created or written for it. *)
Theorem untracked_record_aborts (P : Platform) (dir : gostr) (c : GitChange)
    (s : State) :
  Type_ c = NotCheckedIn ->
  copyFileChangeMust P dir c s
  = Exited 1 (fatal "unknown change %+v\n" [AChange c] s)
  /\ fs (fatal "unknown change %+v\n" [AChange c] s) = fs s.
Proof.
  intros H. split; [|reflexivity].
  apply copyFileChangeMust_unknown; rewrite H; discriminate.
Qed.

Lemma untracked_record_aborts_witness :
  Type_ (junk NotCheckedIn) = NotCheckedIn
  /\ copyFileChangeMust Example.platform "C:\run" (junk NotCheckedIn) junkState
     = Exited 1 (fatal "unknown change %+v\n" [AChange (junk NotCheckedIn)]
                       junkState).
Proof.
  split; [reflexivity|].
  exact (proj1 (untracked_record_aborts Example.platform "C:\run"
                  (junk NotCheckedIn) junkState eq_refl)).
Defined.

(** ** Staging one record *)
Section Staging.
Context (P : Platform) (L : PlatformLaws P).

Lemma key_Replace (p : gostr) (s : State) :
  key P (strings.Replace p "/" "\") s = key P p s.
Proof. apply (slash_blind P L). Qed.

Lemma isDir_insert_File (m : gmap (list gostr) Node) (k k' : list gostr) t d :
  isDir m k = false -> isDir m k' = true ->
  isDir (<[k := File t d]> m) k' = true.
Proof.
  intros Hk Hk'. destruct k' as [|x k']; [reflexivity|]. simpl in *.
  rewrite lookup_insert_ne; [assumption|].
  intros ->. simpl in Hk. congruence.
Qed.

(** [copyFileMust] with the source in place: the destination gets its
    content. *)
Lemma copyFileMust_ok (dst src : gostr) (s : State) t d :
  isDir (fs s) (removelast (key P dst s)) = true ->
  isDir (fs s) (key P dst s) = false ->
  fs s !! key P src s = Some (File t d) ->
  key P src s <> key P dst s ->
  copyFileMust P dst src s
  = Return tt (set_fs (<[key P dst s := File (wallClock P s) d]> (fs s)) s).
Proof.
  intros Hp Hd Hs Hne. unfold copyFileMust.
  erewrite bind_Return.
  2:{ apply os_Create_ok; rewrite key_Replace; assumption. }
  rewrite key_Replace. cbv beta iota. rewrite fataliferr_None_bind.
  unfold os_Open. unfold mbind, M_bind, bind. cbn [fs set_fs].
  change (key P (strings.Replace src "/" "\") (set_fs _ s))
    with (key P (strings.Replace src "/" "\") s).
  rewrite key_Replace, lookup_insert_ne by congruence. rewrite Hs.
  rewrite bool_decide_eq_true_2 by eauto. rewrite orb_true_r.
  rewrite fataliferr_None. unfold io_Copy. cbn [fs set_fs].
  rewrite lookup_insert_ne by congruence. rewrite Hs.
  unfold File_Write. cbn [fs set_fs]. rewrite lookup_insert_eq.
  cbn. rewrite insert_insert_eq. reflexivity.
Qed.

(** [copyFileMust] with no source: the run ends before anything else is
    started. *)
Lemma copyFileMust_no_source (dst src : gostr) (s : State) :
  fs s !! key P src s = None ->
  key P src s <> [] ->
  key P src s <> key P dst s ->
  exists s', copyFileMust P dst src s = Exited 1 s' /\ procs s' = procs s.
Proof.
  intros Hs Hnr Hne. unfold copyFileMust.
  destruct (os_Create_cases P (strings.Replace dst "/" "\") s) as [E|E].
  - erewrite bind_Return by exact E. rewrite key_Replace.
    cbv beta iota. rewrite fataliferr_None_bind.
    unfold os_Open. unfold mbind, M_bind, bind. cbn [fs set_fs].
    change (key P (strings.Replace src "/" "\") (set_fs _ s))
      with (key P (strings.Replace src "/" "\") s).
    rewrite key_Replace.
    assert (Hi : isDir (<[key P dst s := File (wallClock P s) []]> (fs s))
                       (key P src s) = false).
    { destruct (key P src s) as [|x k]; [contradiction|]. simpl.
      rewrite lookup_insert_ne by congruence. rewrite Hs. reflexivity. }
    rewrite Hi, lookup_insert_ne by congruence. rewrite Hs.
    rewrite bool_decide_eq_false_2 by (intros [? ?]; discriminate).
    cbn. eexists. split; reflexivity.
  - erewrite bind_Return by exact E. cbv beta iota.
    eexists. split; reflexivity.
Qed.

End Staging.

Lemma isDir_insert_ne (m : gmap (list gostr) Node) (k k' : list gostr) n :
  k <> k' -> isDir (<[k := n]> m) k' = isDir m k'.
Proof.
  intros Hne. destruct k' as [|x k']; [reflexivity|]. simpl.
  rewrite lookup_insert_ne by assumption. reflexivity.
Qed.

#[local] Arguments isDir : simpl never.
#[local] Arguments list_ascii_of_string : simpl never.

Section StagingClaims.
Context (P : Platform) (L : PlatformLaws P).

Lemma content_File (m : gmap (list gostr) Node) k d :
  content m k = Some d <-> exists t, m !! k = Some (File t d).
Proof.
  unfold content. split.
  - destruct (m !! k) as [[t d'|t]|]; intros H; inversion H; eauto.
  - intros [t ->]. reflexivity.
Qed.

Lemma copyFileAddedMust_ok (dir : gostr) (c : GitChange) (s : State) d :
  content (fs s) (srcKey P c s) = Some d ->
  isDir (fs s) (removelast (beforeKey P dir c s)) = true ->
  isDir (fs s) (beforeKey P dir c s) = false ->
  isDir (fs s) (removelast (afterKey P dir c s)) = true ->
  isDir (fs s) (afterKey P dir c s) = false ->
  beforeKey P dir c s <> afterKey P dir c s ->
  srcKey P c s <> beforeKey P dir c s ->
  srcKey P c s <> afterKey P dir c s ->
  copyFileAddedMust P (getBeforeAfterDirs P dir).1 (getBeforeAfterDirs P dir).2
    c s
  = Return tt
      (set_fs (<[afterKey P dir c s := File (wallClock P s) d]>
                 (<[beforeKey P dir c s := File (wallClock P s) []]> (fs s)))
              s).
Proof.
  intros Hsrc Hbp Hb Hap Ha Hba Hsb Hsa.
  apply content_File in Hsrc as [t Hsrc].
  unfold copyFileAddedMust, beforeKey, afterKey, srcKey in *.
  erewrite bind_Return by (apply createEmptyFileMust_ok; assumption).
  erewrite (copyFileMust_ok P L _ _ _ t d); cbn [fs set_fs].
  - reflexivity.
  - apply isDir_insert_File; assumption.
  - change (key P ?p (set_fs _ s)) with (key P p s).
    rewrite isDir_insert_ne; assumption.
  - change (key P ?p (set_fs _ s)) with (key P p s).
    rewrite lookup_insert_ne by congruence. assumption.
  - assumption.
Qed.

(** The unused sibling [copyFileDeletedMust] does what the specification
    says of a deleted file. *)
Lemma copyFileDeletedMust_ok (dir : gostr) (c : GitChange) (s : State) d :
  Run P (gitPath s) ["show" : gostr; "HEAD:" ++ Path c] = (d, None) ->
  isDir (fs s) (removelast (beforeKey P dir c s)) = true ->
  isDir (fs s) (beforeKey P dir c s) = false ->
  isDir (fs s) (removelast (afterKey P dir c s)) = true ->
  isDir (fs s) (afterKey P dir c s) = false ->
  beforeKey P dir c s <> afterKey P dir c s ->
  exists s',
    copyFileDeletedMust P (getBeforeAfterDirs P dir).1
      (getBeforeAfterDirs P dir).2 c s = Return tt s'
    /\ content (fs s') (afterKey P dir c s) = Some []
    /\ content (fs s') (beforeKey P dir c s) = Some d.
Proof.
  intros Hrun Hbp Hb Hap Ha Hba.
  unfold copyFileDeletedMust, beforeKey, afterKey in *.
  erewrite bind_Return by (apply createEmptyFileMust_ok; assumption).
  unfold catGitHeadToFileMust, gitGetFileContentHeadMust, runCmd, Printf,
    get, modify, os_Create, key in *.
  unfold mbind, M_bind, bind, mret, M_ret, ret. cbn in *.
  rewrite Hrun. cbn.
  rewrite isDir_insert_File by assumption.
  rewrite isDir_insert_ne by congruence. rewrite Hb.
  cbn. unfold File_Write. cbn. rewrite lookup_insert_eq. cbn.
  eexists. split; [reflexivity|]. cbn. unfold content. split.
  - rewrite insert_insert_eq, lookup_insert_ne by congruence.
    rewrite lookup_insert_eq. reflexivity.
  - rewrite lookup_insert_eq. reflexivity.
Qed.

End StagingClaims.

(** C1: what the code does with a Deleted record. [copyFileChangeMust]
    sends it to [copyFileModifiedMust], which copies the working-tree file
    first; the file being gone, the run ends with status 1 before git is
    asked for the committed content. *)
Theorem deleted_record_aborts (P : Platform) (L : PlatformLaws P)
    (dir : gostr) (c : GitChange) (s : State) :
  Type_ c = Deleted ->
  fs s !! srcKey P c s = None ->
  srcKey P c s <> [] ->
  srcKey P c s <> afterKey P dir c s ->
  exists s', copyFileChangeMust P dir c s = Exited 1 s' /\ procs s' = procs s.
Proof.
  intros Ht Hs Hnr Hne. unfold copyFileChangeMust. rewrite Ht.
  cbn [Z.eqb Added Modified Deleted Pos.eqb].
  change (let (dirBefore, dirAfter) := getBeforeAfterDirs P dir in
          copyFileModifiedMust P dirBefore dirAfter c)
    with (copyFileModifiedMust P (getBeforeAfterDirs P dir).1
            (getBeforeAfterDirs P dir).2 c).
  unfold copyFileModifiedMust.
  destruct (copyFileMust_no_source P L
              (Join P (getBeforeAfterDirs P dir).2 (Name c)) (Path c) s)
    as (s' & E & Hp); try assumption.
  exists s'. split; [|assumption]. apply bind_Exited. exact E.
Qed.

Lemma deleted_record_aborts_witness :
  Type_ deletedRecord = Deleted
  /\ fs junkState !! srcKey Example.platform deletedRecord junkState = None
  /\ exists s',
       copyFileChangeMust Example.platform "C:\run" deletedRecord junkState
       = Exited 1 s'
       /\ procs s' = procs junkState.
Proof.
  split; [reflexivity|]. split; [vm_compute; reflexivity|].
  apply (deleted_record_aborts Example.platform Example_laws "C:\run"
           deletedRecord junkState);
    try (vm_compute; reflexivity); vm_compute; discriminate.
Defined.

(** ** The retention sweep *)

Lemma childOf_Some (dir k : list gostr) (name : gostr) :
  childOf dir k = Some name <-> k = dir ++ [name].
Proof.
  unfold childOf. split.
  - destruct (rev k) as [|x r] eqn:E; [discriminate|].
    destruct (decide (rev r = dir)) as [<-|]; [|discriminate].
    intros [= ->]. rewrite <- (rev_involutive k), E. reflexivity.
  - intros ->. rewrite rev_app_distr. simpl.
    rewrite rev_involutive.
    destruct (decide (dir = dir)); [reflexivity | contradiction].
Qed.

Lemma entries_spec (m : gmap (list gostr) Node) (dir : list gostr)
    (fi : FileInfo) :
  fi ∈ entries m dir
  <-> exists name node,
        m !! (dir ++ [name]) = Some node /\ fi = infoOf name node.
Proof.
  unfold entries. rewrite list_elem_of_omap. split.
  - intros ([k node] & Hin & Hf). apply elem_of_map_to_list in Hin.
    destruct (childOf dir k) as [name|] eqn:E; [|discriminate].
    apply childOf_Some in E as ->. simpl in Hf. inversion Hf; subst.
    eauto.
  - intros (name & node & Hm & ->). exists (dir ++ [name], node). split.
    + apply elem_of_map_to_list. assumption.
    + rewrite (proj2 (childOf_Some dir (dir ++ [name]) name) eq_refl).
      reflexivity.
Qed.

Lemma insertByName_elem (x fi : FileInfo) (l : list FileInfo) :
  x ∈ insertByName fi l <-> x = fi \/ x ∈ l.
Proof.
  induction l as [|y l IH]; simpl.
  - rewrite list_elem_of_singleton, elem_of_nil. tauto.
  - destruct (bytes_leb (fi_Name fi) (fi_Name y)).
    + rewrite elem_of_cons. tauto.
    + rewrite !elem_of_cons, IH. tauto.
Qed.

Lemma sortByName_elem (x : FileInfo) (l : list FileInfo) :
  x ∈ sortByName l <-> x ∈ l.
Proof.
  unfold sortByName. induction l as [|y l IH]; simpl; [tauto|].
  rewrite insertByName_elem, elem_of_cons, IH. tauto.
Qed.

Lemma prefix_entry_eq (root : list gostr) (a b : gostr) :
  (root ++ [a]) `prefix_of` (root ++ [b]) -> a = b.
Proof.
  intros H. apply prefix_length_eq in H.
  - apply app_inj_tail in H. tauto.
  - rewrite !length_app. simpl. lia.
Qed.

Section Sweep.
Context (P : Platform) (L : PlatformLaws P).

Lemma doomed_elem (l : list FileInfo) (t : nat) (name : gostr) :
  name ∈ doomed P l t ->
  exists fi i, fi ∈ l /\ fi_IsDir fi = true /\ fi_Name fi = name
    /\ (t <= i)%nat /\ (Sub (Clock P i) (fi_ModTime fi) > Hour * 24)%Z.
Proof.
  revert t. induction l as [|fi l IH]; intros t; simpl.
  - intros H. apply elem_of_nil in H. contradiction.
  - destruct (fi_IsDir fi) eqn:Ed.
    + destruct (Z.gtb_spec (Sub (Clock P t) (fi_ModTime fi)) (Hour * 24))
        as [Hold|Hyoung].
      * intros H. apply elem_of_cons in H as [->|H].
        -- exists fi, t. repeat split; try assumption; try lia. left.
        -- destruct (IH _ H) as (fi' & i & Hin & ? & ? & ? & ?).
           exists fi', i. repeat split; try assumption; try lia.
           right. assumption.
      * intros H. destruct (IH _ H) as (fi' & i & Hin & ? & ? & ? & ?).
        exists fi', i. repeat split; try assumption; try lia.
        right. assumption.
    + intros H. destruct (IH _ H) as (fi' & i & Hin & ? & ? & ? & ?).
      exists fi', i. repeat split; try assumption. right. assumption.
Qed.

Lemma doomed_frozen (l : list FileInfo) (t : nat) (c0 : Z) (fi : FileInfo) :
  (forall i, (t <= i)%nat -> Clock P i = c0) ->
  fi ∈ l -> fi_IsDir fi = true ->
  (Sub c0 (fi_ModTime fi) > Hour * 24)%Z ->
  fi_Name fi ∈ doomed P l t.
Proof.
  revert t. induction l as [|x l IH]; intros t Hc Hin Hd Hold.
  - apply elem_of_nil in Hin. contradiction.
  - simpl. apply elem_of_cons in Hin as [<-|Hin].
    + rewrite Hd, (Hc t) by lia.
      destruct (Z.gtb_spec (Sub c0 (fi_ModTime fi)) (Hour * 24)); [left | lia].
    + destruct (fi_IsDir x).
      * destruct (Sub (Clock P t) (fi_ModTime x) >? Hour * 24)%Z;
          [right|]; apply IH; auto; intros i Hi; apply Hc; lia.
      * apply IH; auto.
Qed.

(** One round of the loop. *)
Lemma deleteOldDir_run (tmp : gostr) (fi : FileInfo) (s : State) :
  entryName (fi_Name fi) ->
  exists s',
    deleteOldDir P tmp fi s = Return tt s'
    /\ cwd s' = cwd s /\ tempDir s' = tempDir s /\ procs s' = procs s
    /\ ticks s' = (if fi_IsDir fi then S (ticks s) else ticks s)
    /\ (forall k n,
          fs s' !! k = Some n
          <-> fs s !! k = Some n
              /\ forall name, name ∈ doomed P [fi] (ticks s) ->
                   ~ (resolve P (cwd s) tmp ++ [name]) `prefix_of` k).
Proof.
  intros Hfi. unfold deleteOldDir. cbn [doomed].
  destruct (fi_IsDir fi) eqn:Ed; cbn [negb].
  - unfold mbind, M_bind, bind, time_Now. cbv beta iota.
    destruct (Z.gtb_spec (Sub (Clock P (ticks s)) (fi_ModTime fi)) (Hour * 24))
      as [Hold|Hyoung].
    + unfold Printf, modify, os_RemoveAll, key. cbn.
      rewrite (join_entry P L) by assumption.
      eexists. split; [reflexivity|]. cbn.
      do 4 (split; [reflexivity|]).
      intros k n. rewrite map_lookup_filter_Some. simpl. split.
      * intros [H1 H2]. split; [assumption|]. intros name Hin.
        apply list_elem_of_singleton in Hin as ->. assumption.
      * intros [H1 H2]. split; [assumption|]. apply H2. left.
    + unfold Printf, modify. cbn.
      eexists. split; [reflexivity|]. cbn.
      do 4 (split; [reflexivity|]).
      intros k n. split; [|tauto]. intros H. split; [assumption|].
      intros name Hin. apply elem_of_nil in Hin. contradiction.
  - exists s. split; [reflexivity|]. do 4 (split; [reflexivity|]).
    intros k n. split; [|tauto]. intros H. split; [assumption|].
    intros name Hin. apply elem_of_nil in Hin. contradiction.
Qed.

Lemma doomed_cons (fi : FileInfo) (l : list FileInfo) (t : nat) :
  doomed P (fi :: l) t
  = doomed P [fi] t ++ doomed P l (if fi_IsDir fi then S t else t).
Proof.
  simpl. destruct (fi_IsDir fi); [|reflexivity].
  destruct (Sub (Clock P t) (fi_ModTime fi) >? Hour * 24)%Z; reflexivity.
Qed.

(** The loop of [deleteOldDirs] over a listing: it returns, and what is
    left is what was there and lies under no doomed entry. *)
Lemma deleteOldDir_loop (tmp : gostr) (l : list FileInfo) (s : State) :
  (forall fi, fi ∈ l -> entryName (fi_Name fi)) ->
  exists s',
    forEach l (deleteOldDir P tmp) s = Return tt s'
    /\ cwd s' = cwd s /\ tempDir s' = tempDir s /\ procs s' = procs s
    /\ (ticks s <= ticks s')%nat
    /\ (forall k n,
          fs s' !! k = Some n
          <-> fs s !! k = Some n
              /\ forall name, name ∈ doomed P l (ticks s) ->
                   ~ (resolve P (cwd s) tmp ++ [name]) `prefix_of` k).
Proof.
  revert s. induction l as [|fi l IH]; intros s Hnames.
  - exists s. simpl. do 5 (split; [reflexivity || lia|]).
    intros k n. split.
    + intros Hk. split; [assumption|]. intros name Hin.
      apply elem_of_nil in Hin. contradiction.
    + tauto.
  - assert (Hl : forall x, x ∈ l -> entryName (fi_Name x))
      by (intros x Hx; apply Hnames; right; assumption).
    assert (Hfi : entryName (fi_Name fi)) by (apply Hnames; left).
    destruct (deleteOldDir_run tmp fi s Hfi)
      as (s1 & E1 & Hc1 & Ht1 & Hp1 & Hk1 & Hfs1).
    destruct (IH s1 Hl) as (s' & E & Hc & Ht & Hp & Hk & Hfs).
    exists s'. cbn [forEach]. rewrite (bind_Return _ _ _ _ _ E1).
    split; [exact E|]. split; [congruence|]. split; [congruence|].
    split; [congruence|].
    split; [destruct (fi_IsDir fi); lia|].
    intros k n.
    rewrite (doomed_cons fi l (ticks s)), Hfs, Hfs1, Hc1, Hk1. split.
    + intros [[H1 H2] H3]. split; [assumption|]. intros name Hin.
      apply elem_of_app in Hin as [Hin|Hin]; auto.
    + intros [H1 H2]. split; [split; [assumption|]|];
        intros name Hin; apply H2; apply elem_of_app; auto.
Qed.

End Sweep.

Section SweepClaims.
Context (P : Platform) (L : PlatformLaws P).

Lemma infoOf_Name name node : fi_Name (infoOf name node) = name.
Proof. destruct node; reflexivity. Qed.

Lemma listing_elem (s : State) (fi : FileInfo) :
  fi ∈ listing P s
  <-> exists name node,
        fs s !! (scratchRoot P s ++ [name]) = Some node
        /\ fi = infoOf name node.
Proof. unfold listing. rewrite sortByName_elem. apply entries_spec. Qed.

(** One sweep: it returns, and what is left is what was there and lies
    under no doomed entry of the scratch root. *)
Lemma deleteOldDirs_run (s : State) :
  isDir (fs s) (scratchRoot P s) = true ->
  properNames P s ->
  exists s',
    deleteOldDirs P s = Return tt s'
    /\ cwd s' = cwd s /\ tempDir s' = tempDir s /\ procs s' = procs s
    /\ (ticks s <= ticks s')%nat
    /\ (forall k n,
          fs s' !! k = Some n
          <-> fs s !! k = Some n
              /\ forall name, name ∈ doomed P (listing P s) (ticks s) ->
                   ~ (scratchRoot P s ++ [name]) `prefix_of` k).
Proof.
  intros Hroot Hnames.
  destruct (deleteOldDir_loop P L (tempDir s) (listing P s) s)
    as (s' & E & H).
  { intros fi Hfi. apply listing_elem in Hfi as (name & node & Hlk & ->).
    rewrite infoOf_Name. eapply Hnames. exact Hlk. }
  exists s'. split; [|exact H].
  unfold deleteOldDirs, get, ioutil_ReadDir.
  unfold mbind, M_bind, bind. cbv beta iota.
  unfold scratchRoot in Hroot. rewrite Hroot. cbv beta iota.
  rewrite fataliferr_None. exact E.
Qed.

Lemma deleteOldDirs_no_root (s : State) :
  isDir (fs s) (scratchRoot P s) = false ->
  deleteOldDirs P s
  = Exited 1 (fatal "%s\n" [AErr (PathError "open" (tempDir s))] s).
Proof.
  intros Hroot. unfold deleteOldDirs, get, ioutil_ReadDir.
  unfold mbind, M_bind, bind. cbv beta iota.
  unfold scratchRoot in Hroot. rewrite Hroot. reflexivity.
Qed.

(** A doomed name is a directory of the scratch root found older than a
    day at some reading of the clock. *)
Lemma doomed_listing (s : State) (t : nat) (name : gostr) :
  name ∈ doomed P (listing P s) t ->
  exists mt i,
    fs s !! (scratchRoot P s ++ [name]) = Some (Dir mt)
    /\ (t <= i)%nat /\ (Sub (Clock P i) mt > Hour * 24)%Z.
Proof.
  intros H. apply doomed_elem in H as (fi & i & Hin & Hd & Hn & Hi & Hold).
  apply listing_elem in Hin as (name' & node & Hlk & ->).
  rewrite infoOf_Name in Hn. subst name'.
  destruct node as [mt d|mt]; simpl in *; [discriminate|].
  exists mt, i. auto.
Qed.

Lemma sweep_keeps (s s' : State) (n : gostr) (node : Node) :
  (forall k x,
     fs s' !! k = Some x
     <-> fs s !! k = Some x
         /\ forall name, name ∈ doomed P (listing P s) (ticks s) ->
              ~ (scratchRoot P s ++ [name]) `prefix_of` k) ->
  fs s !! (scratchRoot P s ++ [n]) = Some node ->
  ageSafe P s node ->
  fs s' !! (scratchRoot P s ++ [n]) = Some node.
Proof.
  intros Hfs Hlk Hsafe. apply Hfs. split; [assumption|].
  intros name Hin Hpre. apply prefix_entry_eq in Hpre as ->.
  apply doomed_listing in Hin as (mt & i & Hlk' & Hi & Hold).
  rewrite Hlk in Hlk'. inversion Hlk'; subst. simpl in Hsafe.
  specialize (Hsafe i Hi). lia.
Qed.

Lemma sweep_invariant (s s' : State) :
  cwd s' = cwd s -> tempDir s' = tempDir s ->
  (forall k x,
     fs s' !! k = Some x
     <-> fs s !! k = Some x
         /\ forall name, name ∈ doomed P (listing P s) (ticks s) ->
              ~ (scratchRoot P s ++ [name]) `prefix_of` k) ->
  isDir (fs s) (scratchRoot P s) = true ->
  properNames P s ->
  scratchRoot P s' = scratchRoot P s
  /\ isDir (fs s') (scratchRoot P s') = true
  /\ properNames P s'.
Proof.
  intros Hc Ht Hfs Hroot Hnames.
  assert (Hr : scratchRoot P s' = scratchRoot P s)
    by (unfold scratchRoot, key; rewrite Hc, Ht; reflexivity).
  split; [assumption|]. split.
  - rewrite Hr. unfold isDir in *.
    destruct (scratchRoot P s) as [|x r] eqn:Er; [reflexivity|].
    destruct (fs s !! (x :: r)) as [[mt d|mt]|] eqn:Elk; try discriminate.
    assert (Hk : fs s' !! (x :: r) = Some (Dir mt)).
    { apply Hfs. split; [assumption|]. intros name _. apply prefix_snoc_not. }
    rewrite Hk. reflexivity.
  - intros n node Hlk. rewrite Hr in Hlk. apply Hfs in Hlk as [Hlk _].
    eapply Hnames. exact Hlk.
Qed.

Lemma sweeps_keep (k : nat) (s : State) :
  isDir (fs s) (scratchRoot P s) = true ->
  properNames P s ->
  exists s',
    sweeps P k s = Return tt s'
    /\ forall n node,
         fs s !! (scratchRoot P s ++ [n]) = Some node ->
         ageSafe P s node ->
         fs s' !! (scratchRoot P s ++ [n]) = Some node.
Proof.
  revert s. induction k as [|k IH]; intros s Hroot Hnames.
  - exists s. split; [reflexivity | auto].
  - destruct (deleteOldDirs_run s Hroot Hnames)
      as (s1 & E1 & Hc & Ht & _ & Hticks & Hfs).
    destruct (sweep_invariant s s1 Hc Ht Hfs Hroot Hnames)
      as (Hr & Hroot1 & Hn1).
    destruct (IH s1 Hroot1 Hn1) as (s' & E & Hkeep).
    exists s'. cbn [sweeps]. rewrite (bind_Return _ _ _ _ _ E1).
    split; [exact E|]. intros n node Hlk Hsafe.
    rewrite <- Hr. apply Hkeep.
    + rewrite Hr. eapply sweep_keeps; eassumption.
    + destruct node as [mt d|mt]; simpl in *; [exact I|].
      intros i Hi. apply Hsafe. lia.
Qed.

Lemma sweep_twice (s : State) :
  isDir (fs s) (scratchRoot P s) = true ->
  properNames P s ->
  (forall i, (ticks s <= i)%nat -> Clock P i = Clock P (ticks s)) ->
  exists s1 s2,
    deleteOldDirs P s = Return tt s1
    /\ deleteOldDirs P s1 = Return tt s2
    /\ fs s2 = fs s1.
Proof.
  intros Hroot Hnames Hfrozen.
  destruct (deleteOldDirs_run s Hroot Hnames)
    as (s1 & E1 & Hc & Ht & _ & Hticks & Hfs).
  destruct (sweep_invariant s s1 Hc Ht Hfs Hroot Hnames)
    as (Hr & Hroot1 & Hn1).
  destruct (deleteOldDirs_run s1 Hroot1 Hn1)
    as (s2 & E2 & _ & _ & _ & _ & Hfs2).
  exists s1, s2. split; [assumption|]. split; [assumption|].
  assert (Hnone : forall name, name ∉ doomed P (listing P s1) (ticks s1)).
  { intros name Hin.
    apply doomed_listing in Hin as (mt & i & Hlk & Hi & Hold).
    rewrite Hr in Hlk. apply Hfs in Hlk as [Hlk Hnot].
    apply (Hnot name); [|reflexivity].
    change name with (fi_Name (infoOf name (Dir mt))).
    apply (doomed_frozen P _ _ (Clock P (ticks s))).
    - assumption.
    - apply listing_elem. eauto.
    - reflexivity.
    - simpl. rewrite <- (Hfrozen i) by lia. assumption. }
  apply map_eq. intros k. apply option_eq. intros x. rewrite Hfs2.
  split; [tauto|]. intros H. split; [assumption|].
  intros name Hin. exfalso. exact (Hnone name Hin).
Qed.

End SweepClaims.

(** C9. The retention sweep is age-safe and idempotent.  From a state
    whose scratch root is a directory with properly named entries, any
    number of sweeps in a row returns; an entry of the scratch root that is
    not a directory is still there afterwards, and so is a directory that
    is no older than 24 hours at any reading of the clock taken from now
    on.  When the clock stands still (the second sweep follows at once),
    a second sweep leaves the file system as the first one left it. *)
Theorem retention_sweep_age_safe_idempotent (P : Platform)
    (L : PlatformLaws P) (s : State) :
  isDir (fs s) (scratchRoot P s) = true ->
  properNames P s ->
  (forall k, exists s',
     sweeps P k s = Return tt s'
     /\ (forall n mt d,
           fs s !! (scratchRoot P s ++ [n]) = Some (File mt d) ->
           fs s' !! (scratchRoot P s ++ [n]) = Some (File mt d))
     /\ (forall n mt,
           fs s !! (scratchRoot P s ++ [n]) = Some (Dir mt) ->
           (forall i, (ticks s <= i)%nat ->
                      (Sub (Clock P i) mt <= Hour * 24)%Z) ->
           fs s' !! (scratchRoot P s ++ [n]) = Some (Dir mt)))
  /\ ((forall i, (ticks s <= i)%nat -> Clock P i = Clock P (ticks s)) ->
      exists s1 s2,
        deleteOldDirs P s = Return tt s1
        /\ deleteOldDirs P s1 = Return tt s2
        /\ fs s2 = fs s1).
Proof.
  intros Hroot Hnames. split.
  - intros k. destruct (sweeps_keep P L k s Hroot Hnames) as (s' & E & Hkeep).
    exists s'. split; [exact E|]. split.
    + intros n mt d Hlk. apply Hkeep; [assumption | exact I].
    + intros n mt Hlk Hyoung. apply Hkeep; assumption.
  - apply sweep_twice; assumption.
Qed.

Lemma entryNameb_true (n : gostr) : entryNameb n = true -> entryName n.
Proof.
  unfold entryNameb, entryName. rewrite !andb_true_iff, !negb_true_iff.
  intros [[[H1 H2] H3] H4].
  apply bool_decide_eq_false in H1, H3, H4.
  repeat split; try assumption.
  apply Forall_forall. intros c Hc. rewrite forallb_forall in H2.
  apply list_elem_of_In in Hc. specialize (H2 c Hc).
  apply andb_true_iff in H2 as [Ha Hb]. split; [assumption|].
  apply negb_true_iff, bool_decide_eq_false in Hb. assumption.
Qed.

Lemma properNamesb_true (P : Platform) (s : State) :
  properNamesb P s = true -> properNames P s.
Proof.
  unfold properNamesb, properNames. rewrite forallb_forall.
  intros H n node Hlk. apply elem_of_map_to_list, list_elem_of_In in Hlk.
  specialize (H _ Hlk). simpl in H.
  rewrite (proj2 (childOf_Some _ _ n) eq_refl) in H.
  apply entryNameb_true. assumption.
Qed.

Lemma retention_sweep_age_safe_idempotent_witness :
  (exists s',
     sweeps Example.platform 3 sweepState = Return tt s'
     /\ fs s'
          !! (scratchRoot Example.platform sweepState ++ ["note.txt" : gostr])
        = Some (File 5 "x")
     /\ fs s'
          !! (scratchRoot Example.platform sweepState ++ ["young" : gostr])
        = Some (Dir (990 * Hour)))
  /\ (exists s1 s2,
        deleteOldDirs Example.platform sweepState = Return tt s1
        /\ deleteOldDirs Example.platform s1 = Return tt s2
        /\ fs s2 = fs s1).
Proof.
  destruct (retention_sweep_age_safe_idempotent Example.platform Example_laws
              sweepState) as [Hkeep Hidem].
  - vm_compute. reflexivity.
  - apply properNamesb_true. vm_compute. reflexivity.
  - split.
    + destruct (Hkeep 3%nat) as (s' & E & Hf & Hd). exists s'.
      split; [exact E|]. split.
      * apply Hf. vm_compute. reflexivity.
      * apply Hd; [vm_compute; reflexivity|].
        intros i _. vm_compute. discriminate.
    + apply Hidem. intros i _. reflexivity.
Defined.

(** ** The orchestrator *)
Section Orchestrator.
Context (P : Platform).

Lemma bind_Return_inv {A B} (m : M A) (k : A -> M B) s b s' :
  (m ≫= k) s = Return b s' ->
  exists a s1, m s = Return a s1 /\ k a s1 = Return b s'.
Proof.
  unfold mbind, M_bind, bind. destruct (m s) as [a s1| |]; try discriminate.
  eauto.
Qed.

Lemma main_split (fuel : nat) (s : State) :
  main P fuel s = (startup P fuel ≫= fun _ => preview P) s.
Proof.
  unfold main, startup, preview. unfold mbind, M_bind, bind.
  destruct (detectExesMust P s) as [[] s1| |]; try reflexivity.
  destruct (createTempDirMust P s1) as [[] s2| |]; try reflexivity.
  destruct (get tempDir s2) as [tmp s3| |]; try reflexivity.
  destruct (Printf _ _ s3) as [[] s4| |]; try reflexivity.
  destruct (deleteOldDirs P s4) as [[] s5| |]; reflexivity.
Qed.

Lemma detectExesMust_frame (s s' : State) :
  detectExesMust P s = Return tt s' ->
  fs s' = fs s /\ procs s' = procs s /\ cwd s' = cwd s.
Proof.
  unfold detectExesMust, detectExeMust, Printf, modify.
  unfold mbind, M_bind, bind, mret, M_ret, ret.
  destruct (LookPath P "git"); destruct (LookPath P "WinMergeU"); cbn;
    intros H; inversion H; subst; cbn; auto.
Qed.

Lemma mkdirs_grown (now : Z) (rest pre : list gostr)
    (m m' : gmap (list gostr) Node) :
  mkdirs now pre rest m = Some m' -> grownTowards (pre ++ rest) m m'.
Proof.
  revert pre m. induction rest as [|c rest IH]; intros pre m H k n Hk.
  - simpl in H. inversion H; subst. left. assumption.
  - simpl in H. replace (pre ++ c :: rest) with ((pre ++ [c]) ++ rest)
      by (rewrite <- app_assoc; reflexivity).
    destruct (m !! (pre ++ [c])) as [[mt d|mt]|] eqn:E; [discriminate| |].
    + exact (IH _ _ H k n Hk).
    + destruct (IH _ _ H k n Hk) as [Hin|Hpre]; [|right; assumption].
      destruct (decide (k = pre ++ [c])) as [->|Hne].
      * right. apply prefix_app_r. reflexivity.
      * left. rewrite lookup_insert_ne in Hin by congruence. assumption.
Qed.

Lemma createTempDirMust_frame (s s' : State) :
  createTempDirMust P s = Return tt s' ->
  procs s' = procs s /\ cwd s' = cwd s
  /\ grownTowards (resolve P (cwd s) (tempDir s')) (fs s) (fs s').
Proof.
  unfold createTempDirMust, getWinTempDirMust, os_MkdirAll, get, modify, key.
  unfold mbind, M_bind, bind, mret, M_ret, ret.
  destruct (bool_decide (Getenv P "TEMP" = [])); cbn;
    [destruct (bool_decide (Getenv P "TMP" = [])); cbn; [discriminate|]|];
    (destruct (mkdirs _ _ _ _) as [m'|] eqn:E; cbn;
     [|discriminate]; intros H; inversion H; subst; cbn;
     split; [reflexivity|]; split; [reflexivity|];
     apply mkdirs_grown in E; exact E).
Qed.

Lemma deleteOldDir_frame (tmp : gostr) (fi : FileInfo) (s : State) :
  exists s',
    deleteOldDir P tmp fi s = Return tt s'
    /\ procs s' = procs s /\ cwd s' = cwd s /\ tempDir s' = tempDir s
    /\ forall k n, fs s' !! k = Some n -> fs s !! k = Some n.
Proof.
  unfold deleteOldDir, time_Now, Printf, modify, os_RemoveAll.
  unfold mbind, M_bind, bind, mret, M_ret, ret.
  destruct (fi_IsDir fi); cbn.
  - destruct (Sub (Clock P (ticks s)) (fi_ModTime fi) >? Hour * 24)%Z; cbn;
      eexists; (split; [reflexivity|]); cbn; repeat split; auto.
    intros k n H. apply map_lookup_filter_Some in H. tauto.
  - eexists. split; [reflexivity|]. auto.
Qed.

Lemma deleteOldDir_loop_frame (tmp : gostr) (l : list FileInfo) (s : State) :
  exists s',
    forEach l (deleteOldDir P tmp) s = Return tt s'
    /\ procs s' = procs s /\ cwd s' = cwd s /\ tempDir s' = tempDir s
    /\ forall k n, fs s' !! k = Some n -> fs s !! k = Some n.
Proof.
  revert s. induction l as [|fi l IH]; intros s.
  - exists s. split; [reflexivity|]. auto.
  - destruct (deleteOldDir_frame tmp fi s) as (s1 & E1 & Hp1 & Hc1 & Ht1 & Hf1).
    destruct (IH s1) as (s' & E & Hp & Hc & Ht & Hf).
    exists s'. cbn [forEach]. rewrite (bind_Return _ _ _ _ _ E1).
    split; [exact E|]. repeat split; try congruence. auto.
Qed.

Lemma deleteOldDirs_frame (s s' : State) :
  deleteOldDirs P s = Return tt s' ->
  procs s' = procs s /\ cwd s' = cwd s /\ tempDir s' = tempDir s
  /\ forall k n, fs s' !! k = Some n -> fs s !! k = Some n.
Proof.
  unfold deleteOldDirs, get, ioutil_ReadDir.
  unfold mbind, M_bind, bind. cbv beta iota.
  destruct (isDir (fs s) (key P (tempDir s) s)); cbv beta iota.
  - rewrite fataliferr_None.
    destruct (deleteOldDir_loop_frame (tempDir s)
                (sortByName (entries (fs s) (key P (tempDir s) s))) s)
      as (s1 & E & H).
    rewrite E. intros [= <-]. exact H.
  - discriminate.
Qed.

Lemma hasGitDirMust_frame (dir : gostr) (s s' : State) (b : bool) :
  hasGitDirMust P dir s = Return b s' -> s' = s.
Proof.
  unfold hasGitDirMust, ioutil_ReadDir.
  unfold mbind, M_bind, bind, mret, M_ret, ret.
  destruct (isDir (fs s) (key P dir s)); cbn; [|discriminate].
  intros H. inversion H. reflexivity.
Qed.

Lemma cdToGitRootLoop_frame (fuel : nat) (dir newDir d : gostr)
    (s s' : State) :
  cdToGitRootLoop P fuel dir newDir s = Return d s' -> s' = s.
Proof.
  revert dir newDir. induction fuel as [|fuel IH]; intros dir newDir;
    [discriminate|].
  cbn [cdToGitRootLoop]. intros H.
  apply bind_Return_inv in H as (b & s1 & E1 & H).
  apply hasGitDirMust_frame in E1 as ->.
  destruct b; [inversion H; reflexivity|].
  apply bind_Return_inv in H as ([] & s2 & E2 & H).
  destruct (bool_decide (dir = Dir_ P dir)); [discriminate|].
  inversion E2; subst. eapply IH. exact H.
Qed.

Lemma cdToGitRoot_frame (fuel : nat) (s s' : State) :
  cdToGitRoot P fuel s = Return tt s' ->
  fs s' = fs s /\ procs s' = procs s /\ tempDir s' = tempDir s.
Proof.
  unfold cdToGitRoot. intros H.
  apply bind_Return_inv in H as ([dir err] & s1 & E1 & H).
  inversion E1; subst. rewrite fataliferr_None_bind in H.
  apply bind_Return_inv in H as (newDir & s2 & E2 & H).
  apply cdToGitRootLoop_frame in E2 as ->.
  destruct (bool_decide (newDir = [])); cbn [negb] in H.
  - inversion H. auto.
  - unfold Printf, modify, os_Chdir in H.
    unfold mbind, M_bind, bind, mret, M_ret, ret in H. cbn in H.
    destruct (isDir _ _) in H; inversion H; subst; cbn; auto.
Qed.

Lemma startup_frame (fuel : nat) (s s' : State) :
  startup P fuel s = Return tt s' ->
  procs s' = procs s
  /\ grownTowards (resolve P (cwd s) (tempDir s')) (fs s) (fs s').
Proof.
  unfold startup. intros H.
  apply bind_Return_inv in H as ([] & s1 & E1 & H).
  apply bind_Return_inv in H as ([] & s2 & E2 & H).
  apply bind_Return_inv in H as (tmp & s3 & E3 & H).
  apply bind_Return_inv in H as ([] & s4 & E4 & H).
  apply bind_Return_inv in H as ([] & s5 & E5 & H).
  inversion E3; subst. inversion E4; subst. clear E3 E4.
  apply detectExesMust_frame in E1 as (Hf1 & Hp1 & Hc1).
  apply createTempDirMust_frame in E2 as (Hp2 & Hc2 & Hg2).
  apply deleteOldDirs_frame in E5 as (Hp5 & Hc5 & Ht5 & Hf5).
  apply cdToGitRoot_frame in H as (Hf6 & Hp6 & Ht6).
  cbn in *. split; [congruence|].
  intros k n Hk. rewrite Hf6 in Hk. apply Hf5 in Hk.
  rewrite Ht6, Ht5. cbn. rewrite <- Hc1, <- Hf1. apply Hg2. exact Hk.
Qed.

Lemma toTrimmedLines_nil : toTrimmedLines [] = [].
Proof. reflexivity. Qed.

Lemma preview_no_changes (s : State) :
  Run P (gitPath s) ["status" : gostr; "--porcelain" : gostr] = ([], None) ->
  exists s',
    preview P s = Exited 0 s'
    /\ last (stdout s') = Some (Print "No changes to preview!" [])
    /\ procs s'
       = procs s ++ [(gitPath s, ["status" : gostr; "--porcelain" : gostr])]
    /\ fs s' = fs s /\ tempDir s' = tempDir s.
Proof.
  intros Hrun. unfold preview, gitStatusMust, runCmd, get, modify, Printf.
  unfold mbind, M_bind, bind, mret, M_ret, ret. cbn.
  rewrite Hrun. cbn. eexists. split; [reflexivity|]. cbn.
  split; [apply last_snoc|]. auto.
Qed.

End Orchestrator.

(** C8. When the status query returns nothing, [main] leaves through
    [os.Exit(0)] after printing "No changes to preview!": parsing the empty
    output gives no record; the only subprocess of the whole run is the
    status query, so the viewer is not started; nothing on disk changes
    after the start-up, and what the run has created at all lies on the
    path to the scratch root, which excludes a snapshot directory below
    it. *)
Theorem no_changes_exit (P : Platform) (fuel : nat) (s s1 : State) :
  startup P fuel s = Return tt s1 ->
  Run P (gitPath s1) ["status" : gostr; "--porcelain" : gostr] = ([], None) ->
  (forall s', parseGitStatusMust [] false s' = Return [] s')
  /\ exists s2,
       main P fuel s = Exited 0 s2
       /\ last (stdout s2) = Some (Print "No changes to preview!" [])
       /\ procs s2
          = procs s ++ [(gitPath s1, ["status" : gostr; "--porcelain" : gostr])]
       /\ fs s2 = fs s1
       /\ grownTowards (resolve P (cwd s) (tempDir s2)) (fs s) (fs s2).
Proof.
  intros Hstart Hrun. split; [reflexivity|].
  destruct (preview_no_changes P s1 Hrun) as (s2 & E & Hout & Hp & Hf & Ht).
  destruct (startup_frame P fuel s s1 Hstart) as (Hp1 & Hg).
  exists s2. rewrite main_split, (bind_Return _ _ _ _ _ Hstart).
  split; [exact E|]. split; [exact Hout|]. split; [congruence|].
  split; [exact Hf|]. rewrite Hf, Ht. exact Hg.
Qed.

Lemma no_changes_exit_witness :
  exists s1 s2,
    startup cleanPlatform 5 sweepState = Return tt s1
    /\ main cleanPlatform 5 sweepState = Exited 0 s2
    /\ last (stdout s2) = Some (Print "No changes to preview!" [])
    /\ procs s2 = [("C:\bin\git.exe" : gostr,
                    ["status" : gostr; "--porcelain" : gostr])]
    /\ fs s2 = fs s1.
Proof.
  assert (E : exists s1, startup cleanPlatform 5 sweepState = Return tt s1
                         /\ gitPath s1 = "C:\bin\git.exe")
    by (eexists; split; vm_compute; reflexivity).
  destruct E as (s1 & E & Hgit).
  destruct (no_changes_exit cleanPlatform 5 sweepState s1 E eq_refl)
    as (_ & s2 & Hmain & Hout & Hp & Hf & _).
  exists s1, s2. rewrite Hgit in Hp. auto.
Defined.

(** ** What the snapshot builder touches *)
Ltac unfold_monad :=
  unfold fataliferr, fatalif, fatalf, printStack, os_Exit, Printf, get,
    modify, File_Close;
  unfold mbind, M_bind, bind, mret, M_ret, ret.

Section Frame.
Context (P : Platform) (L : PlatformLaws P).

Lemma unchangedOutside_refl K s : unchangedOutside K s s.
Proof. split; auto. Qed.

Lemma unchangedOutside_trans K s1 s2 s3 :
  unchangedOutside K s1 s2 -> unchangedOutside K s2 s3 ->
  unchangedOutside K s1 s3.
Proof.
  intros [Hc1 H1] [Hc2 H2]. split; [congruence|].
  intros k. destruct (H1 k) as [E1|]; [|auto].
  destruct (H2 k) as [E2|]; [|auto]. left. congruence.
Qed.

Lemma unchangedOutside_weaken (K K' : list gostr -> Prop) s s' :
  (forall k, K k -> K' k) ->
  unchangedOutside K s s' -> unchangedOutside K' s s'.
Proof.
  intros HK [Hc H]. split; [assumption|].
  intros k. destruct (H k); auto.
Qed.

Lemma finalState_bind {A B} (m : M A) (k : A -> M B) s s' :
  finalState ((m ≫= k) s) = Some s' ->
  (exists c, m s = Exited c s')
  \/ (exists a s1, m s = Return a s1 /\ finalState (k a s1) = Some s').
Proof.
  unfold mbind, M_bind, bind. destruct (m s) as [a s1|c s1|]; simpl.
  - intros H. right. eauto.
  - intros [= ->]. left. eauto.
  - discriminate.
Qed.

Ltac frame_leaf :=
  match goal with
  | H : Some _ = Some _ |- _ => injection H as <-
  end;
  unfold unchangedOutside; cbn; split; [reflexivity|]; intro;
  repeat match goal with
         | |- context [<[?k := _]> _ !! ?k'] =>
             destruct (decide (k' = k)) as [->|];
             [right; solve [auto]
             |rewrite (lookup_insert_ne _ k k') by congruence]
         end;
  left; reflexivity.

Lemma frame_seq {A B} (K : list gostr -> Prop) (m : M A) (k : A -> M B)
    (s s' : State) :
  (forall s1, finalState (m s) = Some s1 -> unchangedOutside K s s1) ->
  (forall a s1, m s = Return a s1 -> cwd s1 = cwd s ->
                finalState (k a s1) = Some s' -> unchangedOutside K s1 s') ->
  finalState ((m ≫= k) s) = Some s' -> unchangedOutside K s s'.
Proof.
  intros Hm Hk H. apply finalState_bind in H as [[c E]|(a & s1 & E & H)].
  - apply Hm. rewrite E. reflexivity.
  - assert (H1 : unchangedOutside K s s1) by (apply Hm; rewrite E; reflexivity).
    eapply unchangedOutside_trans; [exact H1|].
    eapply Hk; [exact E | apply H1 | exact H].
Qed.

Lemma createEmptyFileMust_frame (K : list gostr -> Prop) (path : gostr)
    (s s' : State) :
  K (resolve P (cwd s) path) ->
  finalState (createEmptyFileMust P path s) = Some s' ->
  unchangedOutside K s s'.
Proof.
  intros HK. unfold createEmptyFileMust, os_Create, key.
  unfold_monad. cbn.
  destruct (isDir (fs s) (removelast _) && negb (isDir (fs s) _)); cbn;
    intros H; frame_leaf.
Qed.

Lemma copyFileMust_frame (K : list gostr -> Prop) (dst src : gostr)
    (s s' : State) :
  K (resolve P (cwd s) dst) ->
  finalState (copyFileMust P dst src s) = Some s' ->
  unchangedOutside K s s'.
Proof.
  intros HK.
  unfold copyFileMust, os_Create, os_Open, io_Copy, File_Write, key.
  unfold_monad. cbn.
  rewrite !(slash_blind P L).
  destruct (isDir (fs s) (removelast _) && negb (isDir (fs s) _)); cbn;
    [|intros H; frame_leaf].
  destruct (isDir _ _ || bool_decide _); cbn; [|intros H; frame_leaf].
  match goal with
  | |- context [match ?m !! ?k with _ => _ end] =>
      destruct (m !! k) as [[mt d|mt]|]
  end; cbn; [|intros H; frame_leaf..].
  rewrite lookup_insert_eq. cbn. intros H. frame_leaf.
Qed.

Lemma catGitHeadToFileMust_frame (K : list gostr -> Prop) (dst path : gostr)
    (s s' : State) :
  K (resolve P (cwd s) dst) ->
  finalState (catGitHeadToFileMust P dst path s) = Some s' ->
  unchangedOutside K s s'.
Proof.
  intros HK.
  unfold catGitHeadToFileMust, gitGetFileContentHeadMust, runCmd,
    os_Create, File_Write, key.
  unfold_monad. cbn.
  destruct (Run P (gitPath s) _) as [out [e|]]; cbn; [intros H; frame_leaf|].
  destruct (isDir (fs s) (removelast _) && negb (isDir (fs s) _)); cbn;
    [|intros H; frame_leaf].
  rewrite lookup_insert_eq. cbn. intros H. frame_leaf.
Qed.

Lemma copyFileModifiedMust_frame (K : list gostr -> Prop)
    (dirBefore dirAfter : gostr) (c : GitChange) (s s' : State) :
  K (resolve P (cwd s) (Join P dirBefore (Name c))) ->
  K (resolve P (cwd s) (Join P dirAfter (Name c))) ->
  finalState (copyFileModifiedMust P dirBefore dirAfter c s) = Some s' ->
  unchangedOutside K s s'.
Proof.
  intros Hb Ha. unfold copyFileModifiedMust. apply frame_seq.
  - intros s1. apply copyFileMust_frame. exact Ha.
  - intros [] s1 _ Hc. apply catGitHeadToFileMust_frame. rewrite Hc. exact Hb.
Qed.

Lemma copyFileAddedMust_frame (K : list gostr -> Prop)
    (dirBefore dirAfter : gostr) (c : GitChange) (s s' : State) :
  K (resolve P (cwd s) (Join P dirBefore (Name c))) ->
  K (resolve P (cwd s) (Join P dirAfter (Name c))) ->
  finalState (copyFileAddedMust P dirBefore dirAfter c s) = Some s' ->
  unchangedOutside K s s'.
Proof.
  intros Hb Ha. unfold copyFileAddedMust. apply frame_seq.
  - intros s1. apply createEmptyFileMust_frame. exact Hb.
  - intros [] s1 _ Hc. apply copyFileMust_frame. rewrite Hc. exact Ha.
Qed.

Lemma copyFileChangeMust_frame (K : list gostr -> Prop) (dir : gostr)
    (c : GitChange) (s s' : State) :
  K (beforeKey P dir c s) -> K (afterKey P dir c s) ->
  finalState (copyFileChangeMust P dir c s) = Some s' ->
  unchangedOutside K s s'.
Proof.
  unfold copyFileChangeMust, beforeKey, afterKey, key.
  cbn [getBeforeAfterDirs fst snd]. intros Hb Ha.
  destruct (Type_ c =? Added)%Z; [apply copyFileAddedMust_frame; assumption|].
  destruct (Type_ c =? Modified)%Z;
    [apply copyFileModifiedMust_frame; assumption|].
  destruct (Type_ c =? Deleted)%Z;
    [apply copyFileModifiedMust_frame; assumption|].
  intros H. inversion H; subst. split; cbn; auto.
Qed.

Lemma copyFileChanges_frame (K : list gostr -> Prop) (dir : gostr)
    (changes : list GitChange) (s s' : State) :
  (forall c, c ∈ changes ->
             K (beforeKey P dir c s) /\ K (afterKey P dir c s)) ->
  finalState (forEach changes (fun change => copyFileChangeMust P dir change) s)
  = Some s' ->
  unchangedOutside K s s'.
Proof.
  revert s. induction changes as [|c changes IH]; intros s HK.
  - intros H. inversion H; subst. apply unchangedOutside_refl.
  - cbn [forEach]. apply frame_seq.
    + intros s1. apply copyFileChangeMust_frame; apply HK; left.
    + intros [] s1 _ Hc. apply IH. intros c' Hin.
      unfold beforeKey, afterKey, key in *. rewrite Hc. apply HK.
      right. assumption.
Qed.

Lemma mkdirs_frame (now : Z) (rest pre : list gostr)
    (m m' : gmap (list gostr) Node) :
  mkdirs now pre rest m = Some m' ->
  forall k, m' !! k = m !! k \/ k `prefix_of` (pre ++ rest).
Proof.
  revert pre m. induction rest as [|c rest IH]; intros pre m H k.
  - simpl in H. inversion H; subst. left. reflexivity.
  - simpl in H. replace (pre ++ c :: rest) with ((pre ++ [c]) ++ rest)
      by (rewrite <- app_assoc; reflexivity).
    destruct (m !! (pre ++ [c])) as [[mt d|mt]|] eqn:E; [discriminate| |].
    + exact (IH _ _ H k).
    + destruct (IH _ _ H k) as [Hin|Hpre]; [|right; assumption].
      destruct (decide (k = pre ++ [c])) as [->|Hne].
      * right. apply prefix_app_r. reflexivity.
      * left. rewrite Hin, lookup_insert_ne by congruence. reflexivity.
Qed.

Lemma os_MkdirAll_frame (K : list gostr -> Prop) (path : gostr)
    (s s' : State) :
  (forall k, k `prefix_of` resolve P (cwd s) path -> K k) ->
  finalState (os_MkdirAll P path s) = Some s' ->
  unchangedOutside K s s'.
Proof.
  intros HK. unfold os_MkdirAll, key.
  destruct (mkdirs _ _ _ _) as [m'|] eqn:E; intros H; inversion H; subst.
  - split; [reflexivity|]. cbn. intros k.
    destruct (mkdirs_frame _ _ [] _ _ E k); auto.
  - apply unchangedOutside_refl.
Qed.

Lemma fataliferr_frame (K : list gostr -> Prop) (e : option error)
    (s s' : State) :
  finalState (fataliferr e s) = Some s' -> unchangedOutside K s s'.
Proof.
  destruct e; intros H; inversion H; subst; cbn;
    split; cbn; auto.
Qed.

Lemma copyFiles_frame (dir : gostr) (changes : list GitChange) (s s' : State) :
  finalState (copyFiles P dir changes s) = Some s' ->
  unchangedOutside (snapshotTarget P dir changes s) s s'.
Proof.
  unfold copyFiles. cbn [getBeforeAfterDirs].
  assert (HK : forall c, c ∈ changes ->
             snapshotTarget P dir changes s (beforeKey P dir c s)
             /\ snapshotTarget P dir changes s (afterKey P dir c s)).
  { intros c Hin. split; right; right; exists c; auto. }
  apply frame_seq.
  { intros s1. apply os_MkdirAll_frame. intros k Hk. left. exact Hk. }
  intros e1 s1 _ Hc1. apply frame_seq.
  { intros s2. apply fataliferr_frame. }
  intros [] s2 _ Hc2. apply frame_seq.
  { intros s3. apply os_MkdirAll_frame. intros k Hk. right. left.
    unfold key. cbn. rewrite <- Hc1, <- Hc2. exact Hk. }
  intros e2 s3 _ Hc3. apply frame_seq.
  { intros s4. apply fataliferr_frame. }
  intros [] s4 _ Hc4. apply copyFileChanges_frame.
  intros c Hin. unfold beforeKey, afterKey, key.
  rewrite Hc4, Hc3, Hc2, Hc1. apply HK. exact Hin.
Qed.

End Frame.

(** C7. The end-to-end scenario.  The status output
    ["M src/a.go\nA src/b.go\nD src/c.go\n??  src/junk.go\n"], parsed
    without the untracked files, gives three records in this order:
    Modified a.go, Added b.go, Deleted c.go; [gitStatusMust] hands on these
    three; and whatever [copyFiles] does with them, it changes no node but
    the before and after directories (and those above them) and the
    before and after files called a.go, b.go and c.go: there is no
    snapshot entry for junk.go. *)
Theorem end_to_end_scenario :
  (forall s,
     parseGitStatusMust
       ("M src/a.go" ++ newline :: "A src/b.go" ++ newline :: "D src/c.go"
        ++ newline :: "??  src/junk.go" ++ [newline]) false s
     = Return [ {| Type_ := Modified; Path := "src/a.go"; Name := "a.go" |};
                {| Type_ := Added; Path := "src/b.go"; Name := "b.go" |};
                {| Type_ := Deleted; Path := "src/c.go"; Name := "c.go" |} ] s)
  /\ (forall P s,
        Run P (gitPath s) ["status" : gostr; "--porcelain" : gostr]
        = (scenarioInput, None) ->
        exists s', gitStatusMust P s = Return scenarioRecords s'
                   /\ fs s' = fs s)
  /\ (forall P dir s s',
        PlatformLaws P ->
        finalState (copyFiles P dir scenarioRecords s) = Some s' ->
        forall k,
          fs s' !! k = fs s !! k
          \/ k `prefix_of` key P (Join P dir "before") s
          \/ k `prefix_of` key P (Join P dir "after") s
          \/ exists n, In n ["a.go" : gostr; "b.go" : gostr; "c.go" : gostr]
               /\ (k = key P (Join P (Join P dir "before") n) s
                   \/ k = key P (Join P (Join P dir "after") n) s)).
Proof.
  assert (Hparse : forall s,
             parseGitStatusMust scenarioInput false s
             = Return scenarioRecords s)
    by (intros s; vm_compute; reflexivity).
  split; [exact Hparse|]. split.
  - intros P s Hrun. unfold gitStatusMust, runCmd, get, modify, Printf.
    unfold mbind, M_bind, bind, mret, M_ret, ret. cbn.
    rewrite Hrun. cbn. rewrite Hparse. eexists. split; reflexivity.
  - intros P dir s s' L H k.
    destruct (copyFiles_frame P L dir scenarioRecords s s' H) as [_ Hk].
    destruct (Hk k) as [E|[Hb|[Ha|(c & Hin & Hc)]]]; auto.
    right. right. right. unfold scenarioRecords in Hin.
    repeat (apply elem_of_cons in Hin as [->|Hin]);
      [exists "a.go" | exists "b.go" | exists "c.go"
      | apply elem_of_nil in Hin; contradiction];
      (split; [simpl; auto | exact Hc]).
Qed.

Lemma end_to_end_scenario_witness :
  (exists s',
     gitStatusMust Example.platform sweepState = Return scenarioRecords s'
     /\ fs s' = fs sweepState)
  /\ (exists s',
        finalState
          (copyFiles Example.platform "C:\run" scenarioRecords junkState)
        = Some s'
        /\ fs s' !! junkBefore = None
        /\ fs s' !! junkAfter = None).
Proof.
  destruct end_to_end_scenario as (_ & Hgit & Hframe). split.
  - apply Hgit. reflexivity.
  - destruct (copyFiles Example.platform "C:\run" scenarioRecords junkState)
      as [[] s'|c s'|] eqn:E; [| |vm_compute in E; discriminate];
      (exists s'; split; [reflexivity|];
       pose proof (Hframe Example.platform "C:\run" junkState s' Example_laws)
         as Hk; rewrite E in Hk; specialize (Hk eq_refl);
       split;
       [destruct (Hk junkBefore) as [->|[Hp|[Hp|(n & Hn & [Hp|Hp])]]]
       |destruct (Hk junkAfter) as [->|[Hp|[Hp|(n & Hn & [Hp|Hp])]]]];
       try (vm_compute; reflexivity);
       try (exfalso; apply prefix_length in Hp; vm_compute in Hp; lia);
       exfalso; simpl in Hn; destruct Hn as [<-|[<-|[<-|[]]]];
       vm_compute in Hp; discriminate).
Defined.

(** ** A whole batch *)
Section Batch.
Context (P : Platform) (L : PlatformLaws P).

Lemma forEach_app {A} (l1 l2 : list A) (body : A -> M unit) (s : State) :
  forEach (l1 ++ l2) body s = (forEach l1 body ≫= fun _ => forEach l2 body) s.
Proof.
  revert s. induction l1 as [|x l1 IH]; intros s; [reflexivity|].
  cbn [forEach app]. unfold mbind, M_bind, bind in *.
  destruct (body x s) as [[] s1| |]; [apply IH | reflexivity..].
Qed.

Lemma createEmptyFileMust_Return (path : gostr) (s s' : State) :
  createEmptyFileMust P path s = Return tt s' ->
  s' = set_fs (<[key P path s := File (wallClock P s) []]> (fs s)) s.
Proof.
  unfold createEmptyFileMust. intros H.
  apply bind_Return_inv in H as ([f e] & s1 & E & H).
  destruct (os_Create_cases P path s) as [E'|E']; rewrite E' in E;
    inversion E; subst; [|discriminate].
  inversion H. reflexivity.
Qed.

Lemma copyFileMust_Return (dst src : gostr) (s s' : State) :
  copyFileMust P dst src s = Return tt s' ->
  exists mt d,
    <[key P dst s := File (wallClock P s) []]> (fs s) !! key P src s
    = Some (File mt d)
    /\ s' = set_fs (<[key P dst s := File (wallClock P s) d]> (fs s)) s.
Proof.
  unfold copyFileMust. intros H.
  apply bind_Return_inv in H as ([f e] & s1 & E & H).
  destruct (os_Create_cases P (strings.Replace dst "/" "\") s) as [E'|E'];
    rewrite E' in E; inversion E; subst; [|discriminate].
  rewrite (key_Replace P L) in *. rewrite fataliferr_None_bind in H.
  apply bind_Return_inv in H as ([f' e'] & s2 & E2 & H).
  unfold os_Open in E2. cbn [fs set_fs] in E2.
  change (key P (strings.Replace src "/" "\") (set_fs _ s))
    with (key P (strings.Replace src "/" "\") s) in E2.
  rewrite (key_Replace P L) in E2.
  destruct (isDir _ _ || bool_decide _); inversion E2; subst; [|discriminate].
  rewrite fataliferr_None_bind in H.
  apply bind_Return_inv in H as ([n e''] & s3 & E3 & H).
  unfold io_Copy in E3. cbn [fs set_fs] in E3.
  destruct (_ !! key P src s) as [[mt d|mt]|] eqn:Elk;
    [|inversion E3; subst; discriminate..].
  unfold File_Write in E3. cbn [fs set_fs] in E3.
  rewrite lookup_insert_eq in E3. inversion E3; subst.
  inversion H; subst. exists mt, d. split; [reflexivity|].
  cbn. rewrite insert_insert_eq. reflexivity.
Qed.

(** When an Added record has been staged, its files are as the
    specification has them. *)
Lemma copyFileChangeMust_Added_Return (dir : gostr) (c : GitChange)
    (s s' : State) :
  Type_ c = Added ->
  beforeKey P dir c s <> afterKey P dir c s ->
  srcKey P c s <> beforeKey P dir c s ->
  srcKey P c s <> afterKey P dir c s ->
  copyFileChangeMust P dir c s = Return tt s' ->
  exists d, content (fs s) (srcKey P c s) = Some d
    /\ content (fs s') (beforeKey P dir c s) = Some []
    /\ content (fs s') (afterKey P dir c s) = Some d.
Proof.
  intros Ht Hba Hsb Hsa.
  unfold copyFileChangeMust, beforeKey, afterKey, srcKey in *.
  rewrite Ht. cbn [Z.eqb Added Pos.eqb getBeforeAfterDirs fst snd] in *.
  unfold copyFileAddedMust. intros H.
  apply bind_Return_inv in H as ([] & s1 & E1 & H).
  apply createEmptyFileMust_Return in E1. subst s1.
  apply copyFileMust_Return in H as (mt & d & Hlk & ->).
  change (key P ?p (set_fs _ s)) with (key P p s) in *.
  cbn [fs set_fs] in *. unfold wallClock in *. cbn [ticks set_fs] in *.
  rewrite !lookup_insert_ne in Hlk by congruence.
  exists d. unfold content. rewrite Hlk. split; [reflexivity|].
  rewrite lookup_insert_eq, lookup_insert_ne by congruence.
  rewrite lookup_insert_eq. split; reflexivity.
Qed.

Lemma unchangedOutside_content (K : list gostr -> Prop) (s s' : State)
    (k : list gostr) :
  unchangedOutside K s s' -> ~ K k -> content (fs s') k = content (fs s) k.
Proof.
  intros [_ H] Hk. unfold content. destruct (H k) as [->|]; tauto.
Qed.

Lemma copyFiles_Added (dir : gostr) (l1 l2 : list GitChange) (c : GitChange)
    (s s' : State) :
  Type_ c = Added ->
  beforeKey P dir c s <> afterKey P dir c s ->
  ~ snapshotTarget P dir (l1 ++ l2) s (beforeKey P dir c s) ->
  ~ snapshotTarget P dir (l1 ++ l2) s (afterKey P dir c s) ->
  ~ snapshotTarget P dir (l1 ++ c :: l2) s (srcKey P c s) ->
  copyFiles P dir (l1 ++ c :: l2) s = Return tt s' ->
  exists d, content (fs s) (srcKey P c s) = Some d
    /\ content (fs s') (beforeKey P dir c s) = Some []
    /\ content (fs s') (afterKey P dir c s) = Some d.
Proof.
  intros Ht Hba Hb Ha Hsrc H. unfold copyFiles in H.
  cbn [getBeforeAfterDirs] in H.
  apply bind_Return_inv in H as (e1 & sa & E1 & H).
  apply bind_Return_inv in H as ([] & sa' & E1' & H).
  apply bind_Return_inv in H as (e2 & sb & E2 & H).
  apply bind_Return_inv in H as ([] & sb' & E2' & H).
  destruct e1; [discriminate|]. destruct e2; [discriminate|].
  inversion E1'; subst sa'. inversion E2'; subst sb'. clear E1' E2'.
  rewrite forEach_app in H.
  apply bind_Return_inv in H as ([] & s1 & F1 & H). cbn [forEach] in H.
  apply bind_Return_inv in H as ([] & s2 & Fc & F2).
  (* the directories, then the records before [c] *)
  assert (Ka : forall k, k `prefix_of` key P (Join P dir "before") s
                         \/ k `prefix_of` key P (Join P dir "after") s ->
                         snapshotTarget P dir (l1 ++ l2) s k)
    by (intros k [Hk|Hk]; [left | right; left]; exact Hk).
  assert (Fa : unchangedOutside (snapshotTarget P dir (l1 ++ l2) s) s sa).
  { apply (os_MkdirAll_frame P _ (Join P dir "before")).
    - intros k Hk. apply Ka. auto.
    - rewrite E1. reflexivity. }
  pose proof Fa as [Hca _].
  assert (Fb : unchangedOutside (snapshotTarget P dir (l1 ++ l2) s) sa sb).
  { apply (os_MkdirAll_frame P _ (Join P dir "after")).
    - intros k Hk. apply Ka. right. unfold key. rewrite <- Hca. exact Hk.
    - rewrite E2. reflexivity. }
  pose proof Fb as [Hcb _].
  assert (Kin : forall (l : list GitChange) (s0 : State),
            cwd s0 = cwd s -> (forall x, x ∈ l -> x ∈ l1 ++ l2) ->
            forall c', c' ∈ l ->
              snapshotTarget P dir (l1 ++ l2) s (beforeKey P dir c' s0)
              /\ snapshotTarget P dir (l1 ++ l2) s (afterKey P dir c' s0)).
  { intros l s0 Hc0 Hsub c' Hin. unfold beforeKey, afterKey, key.
    rewrite Hc0. split; right; right; exists c'; auto. }
  assert (F1' : unchangedOutside (snapshotTarget P dir (l1 ++ l2) s) sb s1).
  { apply (copyFileChanges_frame P L _ dir l1).
    - apply Kin; [congruence|]. intros x Hx. apply elem_of_app. auto.
    - rewrite F1. reflexivity. }
  pose proof F1' as [Hc1 _].
  assert (Hcs1 : cwd s1 = cwd s) by congruence.
  assert (G1 : unchangedOutside (snapshotTarget P dir (l1 ++ l2) s) s s1).
  { eapply unchangedOutside_trans; [exact Fa|].
    eapply unchangedOutside_trans; [exact Fb | exact F1']. }
  (* the record itself *)
  assert (Kc : forall p, key P p s1 = key P p s)
    by (intros p; unfold key; rewrite Hcs1; reflexivity).
  destruct (copyFileChangeMust_Added_Return dir c s1 s2)
    as (d & Hd & Hdb & Hda);
    unfold beforeKey, afterKey, srcKey in *; rewrite ?Kc; try assumption.
  { intros E. apply Hsrc. right. right. exists c. split; [|left; exact E].
    apply elem_of_app. right. left. }
  { intros E. apply Hsrc. right. right. exists c. split; [|right; exact E].
    apply elem_of_app. right. left. }
  rewrite !Kc in *.
  assert (Hcs2 : cwd s2 = cwd s).
  { assert (Fc' : unchangedOutside (fun _ => True) s1 s2)
      by (apply (copyFileChangeMust_frame P L _ dir c); auto;
          rewrite Fc; reflexivity).
    destruct Fc' as [-> _]. exact Hcs1. }
  (* the records after [c] *)
  assert (F2' : unchangedOutside (snapshotTarget P dir (l1 ++ l2) s) s2 s').
  { apply (copyFileChanges_frame P L _ dir l2).
    - apply Kin; [congruence|]. intros x Hx. apply elem_of_app. auto.
    - rewrite F2. reflexivity. }
  exists d. split; [|split].
  - rewrite <- Hd. symmetry.
    apply (unchangedOutside_content _ _ _ _ G1).
    intros [Hk|[Hk|(c' & Hin & Hk)]]; apply Hsrc.
    + left. exact Hk.
    + right. left. exact Hk.
    + right. right. exists c'. split; [|exact Hk].
      apply elem_of_app in Hin as [Hin|Hin]; apply elem_of_app; auto.
      right. right. exact Hin.
  - rewrite (unchangedOutside_content _ _ _ _ F2' Hb). exact Hdb.
  - rewrite (unchangedOutside_content _ _ _ _ F2' Ha). exact Hda.
Qed.

End Batch.

(** C6, as the claim has it, fails: records are kept apart by their names
    only.  In a batch of an Added record for lib/a.go and a Modified
    record for src/a.go, the second record writes the files of the first
    anew: when [copyFiles] has returned, before/a.go holds the committed
    content of src/a.go and is not empty, and after/a.go holds the bytes
    of src/a.go, not those of lib/a.go. *)
Lemma same_name_record_breaks_added_staging :
  Type_ clashAdded = Added
  /\ content (fs clashState) (srcKey Example.platform clashAdded clashState)
     = Some ("package lib" : gostr)
  /\ exists s',
       copyFiles Example.platform "C:\run" [clashAdded; batchModified]
         clashState = Return tt s'
       /\ content (fs s')
            (beforeKey Example.platform "C:\run" clashAdded clashState)
          = Some ("package a" : gostr)
       /\ content (fs s')
            (afterKey Example.platform "C:\run" clashAdded clashState)
          = Some ("package a2" : gostr).
Proof.
  split; [reflexivity|]. split; [vm_compute; reflexivity|].
  eexists. split; [vm_compute; reflexivity|].
  split; vm_compute; reflexivity.
Qed.

(** C6, amended. An Added record whose snapshot files no other record of
    the batch has is staged as an empty file in the before directory and
    a copy of the working-tree file in the after directory.  For the
    record alone: with the file on disk, both directories in place and
    the three paths naming three different nodes, [copyFileChangeMust]
    returns, the before file is empty, the after file has the bytes of
    the working-tree file, which is unchanged.  For a whole batch: when
    [copyFiles] returns, and neither another record nor a snapshot
    directory has the snapshot files of the record (its name is unique in
    the batch), and its working-tree file is no snapshot target, the
    before file is empty and the after file has the bytes the
    working-tree file had. *)
Theorem added_record_is_staged (P : Platform) (L : PlatformLaws P)
    (dir : gostr) (c : GitChange) :
  Type_ c = Added ->
  (forall s d,
     content (fs s) (srcKey P c s) = Some d ->
     isDir (fs s) (removelast (beforeKey P dir c s)) = true ->
     isDir (fs s) (beforeKey P dir c s) = false ->
     isDir (fs s) (removelast (afterKey P dir c s)) = true ->
     isDir (fs s) (afterKey P dir c s) = false ->
     beforeKey P dir c s <> afterKey P dir c s ->
     srcKey P c s <> beforeKey P dir c s ->
     srcKey P c s <> afterKey P dir c s ->
     exists s',
       copyFileChangeMust P dir c s = Return tt s'
       /\ content (fs s') (beforeKey P dir c s) = Some []
       /\ content (fs s') (afterKey P dir c s) = Some d
       /\ content (fs s') (srcKey P c s) = Some d)
  /\ (forall l1 l2 s s',
        beforeKey P dir c s <> afterKey P dir c s ->
        ~ snapshotTarget P dir (l1 ++ l2) s (beforeKey P dir c s) ->
        ~ snapshotTarget P dir (l1 ++ l2) s (afterKey P dir c s) ->
        ~ snapshotTarget P dir (l1 ++ c :: l2) s (srcKey P c s) ->
        copyFiles P dir (l1 ++ c :: l2) s = Return tt s' ->
        exists d,
          content (fs s) (srcKey P c s) = Some d
          /\ content (fs s') (beforeKey P dir c s) = Some []
          /\ content (fs s') (afterKey P dir c s) = Some d).
Proof.
  intros Ht. split.
  - intros s d Hsrc Hbp Hb Hap Ha Hba Hsb Hsa.
    unfold copyFileChangeMust. rewrite Ht. cbn [Z.eqb Added Pos.eqb].
    change (let (dirBefore, dirAfter) := getBeforeAfterDirs P dir in
            copyFileAddedMust P dirBefore dirAfter c)
      with (copyFileAddedMust P (getBeforeAfterDirs P dir).1
              (getBeforeAfterDirs P dir).2 c).
    rewrite (copyFileAddedMust_ok P L dir c s d) by assumption.
    eexists. split; [reflexivity|]. cbn [fs set_fs]. unfold content in *.
    split; [|split].
    + rewrite lookup_insert_ne by congruence. rewrite lookup_insert_eq.
      reflexivity.
    + rewrite lookup_insert_eq. reflexivity.
    + rewrite !lookup_insert_ne by congruence. assumption.
  - intros l1 l2 s s' Hba Hb Ha Hsrc H.
    eapply copyFiles_Added; eassumption.
Qed.

Lemma added_record_is_staged_witness :
  (exists s',
     copyFileChangeMust Example.platform "C:\run" (junk Added) junkState
     = Return tt s'
     /\ content (fs s')
          (beforeKey Example.platform "C:\run" (junk Added) junkState)
        = Some []
     /\ content (fs s')
          (afterKey Example.platform "C:\run" (junk Added) junkState)
        = Some ("package junk" : gostr)
     /\ content (fs s') (srcKey Example.platform (junk Added) junkState)
        = Some ("package junk" : gostr))
  /\ (exists s' d,
        copyFiles Example.platform "C:\run" ([batchModified] ++ [batchAdded])
          batchState = Return tt s'
        /\ content (fs batchState)
             (srcKey Example.platform batchAdded batchState) = Some d
        /\ content (fs s')
             (beforeKey Example.platform "C:\run" batchAdded batchState)
           = Some []
        /\ content (fs s')
             (afterKey Example.platform "C:\run" batchAdded batchState)
           = Some d).
Proof.
  split.
  - apply (proj1 (added_record_is_staged Example.platform Example_laws
                    "C:\run" (junk Added) eq_refl) junkState "package junk");
      try (vm_compute; reflexivity); vm_compute; discriminate.
  - assert (E : exists s',
               copyFiles Example.platform "C:\run"
                 ([batchModified] ++ [batchAdded]) batchState = Return tt s')
      by (eexists; vm_compute; reflexivity).
    destruct E as [s' E]. exists s'.
    destruct (proj2 (added_record_is_staged Example.platform Example_laws
                       "C:\run" batchAdded eq_refl)
                [batchModified] [] batchState s') as (d & H).
    + vm_compute. discriminate.
    + intros [H|[H|(c' & Hin & [H|H])]];
        try (apply prefix_length in H; vm_compute in H; lia);
        apply list_elem_of_singleton in Hin; subst c';
        vm_compute in H; discriminate.
    + intros [H|[H|(c' & Hin & [H|H])]];
        try (apply prefix_length in H; vm_compute in H; lia);
        apply list_elem_of_singleton in Hin; subst c';
        vm_compute in H; discriminate.
    + intros [H|[H|(c' & Hin & [H|H])]];
        try (apply prefix_length in H; vm_compute in H; lia);
        repeat (apply elem_of_cons in Hin as [->|Hin]);
        try (apply elem_of_nil in Hin; contradiction);
        vm_compute in H; discriminate.
    + exact E.
    + exists d. split; [exact E | exact H].
Defined.

(** ** More on the status parser *)

(** A trimmed string has no white space at its end. *)
Lemma TrimSpace_fix_TrimLeftRev (l : gostr) :
  strings.TrimSpace l = l -> strings.TrimLeftRev (rev l) = rev l.
Proof.
  unfold strings.TrimSpace, strings.TrimRight. intros E.
  destruct (T_spec strings.space1 strings.space2 strings.space3 l)
    as (a & _ & Es & _).
  fold (strings.TrimLeft l) in *. set (t := strings.TrimLeft l) in *.
  destruct (T_spec strings.space1 strings.space2r strings.space3r (rev t))
    as (w & _ & Et & Hu & _).
  fold (strings.TrimLeftRev (rev t)) in *.
  set (u := strings.TrimLeftRev (rev t)) in *.
  assert (Hl : length l = length a + length t)
    by (rewrite Es at 1; apply length_app).
  assert (Ht : length t = length w + length u)
    by (rewrite <- (length_rev t), Et; apply length_app).
  assert (Hr : length l = length u) by (rewrite <- E at 1; apply length_rev).
  assert (a = []) by (apply length_zero_iff_nil; lia).
  assert (w = []) by (apply length_zero_iff_nil; lia).
  subst a w. simpl in Es, Et. rewrite Es, Et. exact Hu.
Qed.

Lemma TrimSpace_fix_no_suffix (a w : gostr) :
  strings.TrimSpace (a ++ w) = a ++ w -> whitespace w -> w = [].
Proof.
  intros E Hw. apply TrimSpace_fix_TrimLeftRev in E.
  rewrite rev_app_distr in E. unfold strings.TrimLeftRev in E.
  rewrite (T_runes_app strings.space1 strings.space2r strings.space3r
             space2r_not_space1 space3r_not_space1 space3r_not_space2r)
    in E by (apply whitespace_rev; assumption).
  pose proof (T_length strings.space1 strings.space2r strings.space3r (rev a))
    as Hlen.
  rewrite E, length_app, !length_rev in Hlen.
  apply length_zero_iff_nil. lia.
Qed.

Lemma takeWhile_Forall (f : ascii -> bool) (s : gostr) :
  Forall (fun c => f c = true) (filepath.takeWhile f s).
Proof.
  induction s as [|c s IH]; simpl; [constructor|].
  destruct (f c) eqn:E; constructor; assumption.
Qed.

(** [filepath.Base] gives a name: not empty, and without a separator
    unless it is the separator alone. *)
Lemma Base_name (p : gostr) :
  filepath.Base p <> []
  /\ (filepath.Base p = [filepath.Separator]
      \/ Forall (fun c => notSlash c = true) (filepath.Base p)).
Proof.
  destruct p as [|c p]; [split; [discriminate|]; right; repeat constructor|].
  unfold filepath.Base.
  set (p1 := rev (filepath.dropWhile filepath.isSlash (rev (c :: p)))).
  set (p2 := drop (filepath.volumeNameLen p1) p1). cbv zeta.
  pose proof (takeWhile_Forall (fun x => negb (filepath.isSlash x)) (rev p2))
    as H.
  destruct (rev (filepath.takeWhile _ (rev p2))) as [|x r] eqn:E.
  - split; [discriminate | left; reflexivity].
  - split; [discriminate|]. right. rewrite <- E.
    apply Forall_forall. intros y Hy. rewrite Forall_forall in H.
    apply H. apply list_elem_of_In. apply list_elem_of_In, in_rev in Hy.
    exact Hy.
Qed.

Lemma wellFormed_dec (l : gostr) : wellFormed l \/ ~ wellFormed l.
Proof.
  destruct (parseGitStatusLineMust_cases l state0) as [[H _]|[H _]]; auto.
Qed.

Lemma wellFormed_Forall_Exists (ls : list gostr) :
  Forall wellFormed ls \/ Exists (fun l => ~ wellFormed l) ls.
Proof.
  induction ls as [|l ls IH]; [left; constructor|].
  destruct (wellFormed_dec l) as [H|H]; [|right; left; exact H].
  destruct IH as [IH|IH];
    [left; constructor; assumption | right; right; exact IH].
Qed.

Lemma parseGitStatusMust_Return (out : gostr) (incl : bool)
    (res : list GitChange) (s s' : State) :
  parseGitStatusMust out incl s = Return res s' ->
  Forall wellFormed (toTrimmedLines out)
  /\ res = keep incl (map lineRecord (toTrimmedLines out)) /\ s' = s.
Proof.
  unfold parseGitStatusMust. intros H.
  destruct (wellFormed_Forall_Exists (toTrimmedLines out)) as [Hall|Hex].
  - rewrite (parseLines_ok _ incl [] s Hall) in H. inversion H; subst. auto.
  - destruct (parseLines_abort _ incl [] s Hex) as (l0 & _ & _ & E).
    rewrite E in H. discriminate.
Qed.

(** The record of a well-formed, trimmed line. *)
Lemma lineRecord_trimmed (l : gostr) :
  wellFormed l -> l <> [] -> strings.TrimSpace l = l ->
  In (Type_ (lineRecord l)) [Modified; Added; Deleted; NotCheckedIn]
  /\ Path (lineRecord l) <> []
  /\ strings.TrimSpace (Path (lineRecord l)) = Path (lineRecord l)
  /\ Name (lineRecord l) = filepath.Base (Path (lineRecord l)).
Proof.
  intros (code & path & Hc & ->) _ Ht.
  pose proof (space_not_in_code code Hc) as Hsp.
  unfold lineRecord.
  change (code ++ " " ++ path) with (code ++ " "%char :: path) in *.
  change (" " : gostr) with [" "%char].
  rewrite (SplitN2_app " "%char code path Hsp). cbn [nth Type_ Path Name].
  split; [|split; [|split]].
  - simpl in Hc. destruct Hc as [<-|[<-|[<-|[<-|[]]]]]; simpl; auto.
  - intros E. apply TrimSpace_nil_iff in E.
    assert (Hw : whitespace (" "%char :: path)).
    { change (" "%char :: path) with ([" "%char] ++ path).
      constructor; [constructor; reflexivity | exact E]. }
    pose proof (TrimSpace_fix_no_suffix code (" "%char :: path) Ht Hw).
    discriminate.
  - apply TrimSpace_idempotent.
  - reflexivity.
Qed.

(** X1. [toTrimmedLines] returns the lines of its input, each trimmed,
    without those that are empty once trimmed, in their order: the loop
    that compacts the slice in place while ranging over it loses and
    mixes up nothing.  A line it returns is not empty, has no line break
    and no white space at either end. *)
Theorem toTrimmedLines_trims_and_filters (d : gostr) :
  toTrimmedLines d
  = filter nonEmpty (map strings.TrimSpace (strings.Split d newline))
  /\ Forall (fun l => l <> [] /\ (newline ∉ l) /\ strings.TrimSpace l = l)
            (toTrimmedLines d).
Proof.
  rewrite toTrimmedLines_spec. split; [reflexivity | apply trimmedLines_shape].
Qed.

(** X2. Lines that are not empty, hold no line break and are trimmed come
    back as they are when they are joined with line breaks and handed to
    [toTrimmedLines]. *)
Theorem toTrimmedLines_of_joined_lines (ls : list gostr) :
  Forall (fun l => l <> [] /\ (newline ∉ l) /\ strings.TrimSpace l = l) ls ->
  toTrimmedLines (strings.Join ls [newline]) = ls.
Proof.
  intros H. rewrite toTrimmedLines_spec. apply trimmedLines_Join. exact H.
Qed.

Lemma toTrimmedLines_of_joined_lines_witness :
  toTrimmedLines (strings.Join ["M a" : gostr; "?? b c" : gostr] [newline])
  = ["M a" : gostr; "?? b c" : gostr].
Proof.
  apply (toTrimmedLines_of_joined_lines ["M a" : gostr; "?? b c" : gostr]).
  repeat constructor; try discriminate;
    intros H; vm_compute in H;
    repeat (apply elem_of_cons in H as [H|H]; [discriminate|]);
    apply elem_of_nil in H; exact H.
Defined.


(** X4. The flag decides on the untracked files and on nothing else: what
    [parseGitStatusMust] returns without them is what it returns with
    them, less the records of kind NotCheckedIn. *)
Theorem parseGitStatusMust_flag_filters_untracked (out : gostr)
    (all : list GitChange) (s s' : State) :
  parseGitStatusMust out true s = Return all s' ->
  parseGitStatusMust out false s
  = Return (filter (fun c => Type_ c <> NotCheckedIn) all) s'
  /\ length all = length (toTrimmedLines out).
Proof.
  intros H.
  destruct (parseGitStatusMust_Return _ _ _ _ _ H) as (Hall & -> & ->).
  unfold parseGitStatusMust. rewrite (parseLines_ok _ false [] s Hall).
  cbn [app]. unfold keep.
  assert (Ht : forall l : list GitChange,
             filter (fun c => ~ (true = false /\ Type_ c = NotCheckedIn)) l
             = l).
  { intros l. induction l as [|c l IH]; [reflexivity|].
    rewrite filter_cons_True by (intros [? _]; discriminate).
    rewrite IH. reflexivity. }
  rewrite Ht, length_map. split; [|reflexivity]. f_equal. clear H.
  induction (map lineRecord (toTrimmedLines out)) as [|c l IH]; [reflexivity|].
  destruct (decide (Type_ c = NotCheckedIn)) as [E|E].
  - rewrite !filter_cons_False by tauto. exact IH.
  - rewrite !filter_cons_True by tauto. rewrite IH. reflexivity.
Qed.

Lemma parseGitStatusMust_flag_filters_untracked_witness :
  parseGitStatusMust scenarioInput false state0
  = Return (filter (fun c => Type_ c <> NotCheckedIn)
              (scenarioRecords
               ++ [ {| Type_ := NotCheckedIn; Path := "src/junk.go";
                       Name := "junk.go" |} ])) state0.
Proof.
  exact (proj1 (parseGitStatusMust_flag_filters_untracked scenarioInput
                  (scenarioRecords
                   ++ [ {| Type_ := NotCheckedIn; Path := "src/junk.go";
                           Name := "junk.go" |} ]) state0 state0 eq_refl)).
Defined.

(** X5. Every record [parseGitStatusMust] returns is complete: its kind is
    one of the four, its path is not empty and has no white space at
    either end, and its name is [filepath.Base] of the path, which is not
    empty and holds no separator unless it is the separator alone. *)
Theorem parsed_records_are_complete (out : gostr) (incl : bool)
    (res : list GitChange) (s s' : State) :
  parseGitStatusMust out incl s = Return res s' ->
  Forall (fun c =>
            In (Type_ c) [Modified; Added; Deleted; NotCheckedIn]
            /\ Path c <> [] /\ strings.TrimSpace (Path c) = Path c
            /\ Name c = filepath.Base (Path c) /\ Name c <> []
            /\ (Name c = [filepath.Separator]
                \/ Forall (fun x => notSlash x = true) (Name c))) res.
Proof.
  intros H. destruct (parseGitStatusMust_Return _ _ _ _ _ H) as (Hall & -> & _).
  pose proof (trimmedLines_shape out) as Hshape.
  rewrite <- toTrimmedLines_spec in Hshape.
  apply Forall_forall. intros c Hc. unfold keep in Hc.
  apply list_elem_of_filter in Hc as [_ Hc].
  apply list_elem_of_fmap in Hc as (l & -> & Hl).
  rewrite Forall_forall in Hall, Hshape.
  destruct (Hshape l Hl) as (Hne & _ & Ht).
  destruct (lineRecord_trimmed l (Hall l Hl) Hne Ht) as (H1 & H2 & H3 & H4).
  destruct (Base_name (Path (lineRecord l))) as [H5 H6].
  rewrite H4. auto 10.
Qed.

Lemma parsed_records_are_complete_witness :
  Forall (fun c =>
            In (Type_ c) [Modified; Added; Deleted; NotCheckedIn]
            /\ Path c <> [] /\ strings.TrimSpace (Path c) = Path c
            /\ Name c = filepath.Base (Path c) /\ Name c <> []
            /\ (Name c = [filepath.Separator]
                \/ Forall (fun x => notSlash x = true) (Name c)))
         scenarioRecords.
Proof.
  exact (parsed_records_are_complete scenarioInput false scenarioRecords
           state0 state0 eq_refl).
Defined.

(** ** The tools and the scratch root *)

Lemma mkdirs_keeps (now : Z) (rest pre : list gostr)
    (m m' : gmap (list gostr) Node) :
  mkdirs now pre rest m = Some m' ->
  (forall k n, m !! k = Some n -> m' !! k = Some n)
  /\ (rest <> [] -> exists t, m' !! (pre ++ rest) = Some (Dir t)).
Proof.
  revert pre m. induction rest as [|c rest IH]; intros pre m H.
  - simpl in H. inversion H; subst. split; [auto | congruence].
  - simpl in H.
    replace (pre ++ c :: rest) with ((pre ++ [c]) ++ rest)
      by (rewrite <- app_assoc; reflexivity).
    destruct (m !! (pre ++ [c])) as [[mt d|mt]|] eqn:E; [discriminate| |].
    + destruct (IH _ _ H) as [Hk Hd]. split; [exact Hk|]. intros _.
      destruct rest as [|c' rest]; [|apply Hd; discriminate].
      rewrite app_nil_r. exists mt. apply Hk. exact E.
    + destruct (IH _ _ H) as [Hk Hd]. split.
      * intros k n Hm. apply Hk. rewrite lookup_insert_ne; [exact Hm|].
        intros <-. congruence.
      * intros _. destruct rest as [|c' rest]; [|apply Hd; discriminate].
        rewrite app_nil_r. exists now. apply Hk. apply lookup_insert_eq.
Qed.

Lemma mkdirs_blocked (now : Z) (rest pre k : list gostr)
    (m : gmap (list gostr) Node) t d :
  k <> [] -> k `prefix_of` rest -> m !! (pre ++ k) = Some (File t d) ->
  mkdirs now pre rest m = None.
Proof.
  revert pre k m. induction rest as [|c rest IH]; intros pre k m Hne Hpre Hm.
  - apply prefix_nil_inv in Hpre. contradiction.
  - destruct k as [|c' k]; [contradiction|].
    apply prefix_cons_inv_1 in Hpre as Hc. subst c'.
    apply prefix_cons_inv_2 in Hpre.
    replace (pre ++ c :: k) with ((pre ++ [c]) ++ k) in Hm
      by (rewrite <- app_assoc; reflexivity).
    simpl. destruct k as [|c' k].
    + rewrite app_nil_r in Hm. rewrite Hm. reflexivity.
    + destruct (m !! (pre ++ [c])) as [[mt d'|mt]|] eqn:E; [reflexivity| |].
      * eapply IH; [|exact Hpre|exact Hm]. discriminate.
      * eapply IH; [|exact Hpre|]; [discriminate|].
        rewrite lookup_insert_ne; [exact Hm|].
        intros Heq. apply (f_equal length) in Heq.
        rewrite !length_app in Heq. simpl in Heq. lia.
Qed.

(** X6. A tool that is not on the search path ends the run at once: with
    git or WinMergeU missing, [main] prints which one it could not find
    and exits with status 1; no file or directory has been touched, no
    process started, the scratch directory not even named. *)
Theorem missing_tool_aborts (P : Platform) (fuel : nat) (s : State) :
  LookPath P "git" = None \/ LookPath P "WinMergeU" = None ->
  exists s' name,
    main P fuel s = Exited 1 s'
    /\ LookPath P name = None
    /\ In (Print "Couldn't find '%s'\n" [AStr name]) (stdout s')
    /\ fs s' = fs s /\ procs s' = procs s /\ cwd s' = cwd s
    /\ tempDir s' = tempDir s.
Proof.
  intros H. unfold main, detectExesMust, detectExeMust.
  unfold_monad.
  destruct (LookPath P "git") as [g|] eqn:Eg.
  - destruct H as [H|H]; [discriminate|]. rewrite H. cbn.
    eexists. exists ("WinMergeU" : gostr). split; [reflexivity|].
    split; [exact H|]. cbn. split; [|auto].
    rewrite !in_app_iff. simpl. auto 10.
  - cbn. eexists. exists ("git" : gostr). split; [reflexivity|].
    split; [exact Eg|]. cbn. split; [|auto].
    rewrite !in_app_iff. simpl. auto 10.
Qed.

Lemma missing_tool_aborts_witness :
  exists s' name,
    main noViewerPlatform 5 sweepState = Exited 1 s'
    /\ LookPath noViewerPlatform name = None
    /\ In (Print "Couldn't find '%s'\n" [AStr name]) (stdout s')
    /\ fs s' = fs sweepState /\ procs s' = procs sweepState
    /\ cwd s' = cwd sweepState /\ tempDir s' = tempDir sweepState.
Proof.
  apply (missing_tool_aborts noViewerPlatform 5 sweepState).
  right. reflexivity.
Defined.

(** X7. When [detectExesMust] returns, both tools have been found: the
    two package variables hold what the search path gave for git and for
    WinMergeU, and nothing but the two variables and standard output has
    changed. *)
Theorem detected_tools_are_on_the_search_path (P : Platform) (s s' : State) :
  detectExesMust P s = Return tt s' ->
  LookPath P "git" = Some (gitPath s')
  /\ LookPath P "WinMergeU" = Some (winMergePath s')
  /\ fs s' = fs s /\ procs s' = procs s /\ cwd s' = cwd s
  /\ tempDir s' = tempDir s /\ ticks s' = ticks s.
Proof.
  unfold detectExesMust, detectExeMust. unfold_monad.
  destruct (LookPath P "git") as [g|]; [|discriminate].
  destruct (LookPath P "WinMergeU") as [w|]; [|discriminate].
  cbn. intros H. inversion H; subst. cbn. auto 10.
Qed.

Lemma detected_tools_are_on_the_search_path_witness :
  exists s',
    detectExesMust Example.platform state0 = Return tt s'
    /\ gitPath s' = "C:\bin\git.exe"
    /\ winMergePath s' = "C:\bin\WinMergeU.exe".
Proof.
  assert (E : exists s', detectExesMust Example.platform state0 = Return tt s')
    by (eexists; vm_compute; reflexivity).
  destruct E as [s' E]. exists s'. split; [exact E|].
  destruct (detected_tools_are_on_the_search_path Example.platform state0 s' E)
    as (Hg & Hw & _).
  split; [injection Hg as <- | injection Hw as <-]; reflexivity.
Defined.

(** X8. When [createTempDirMust] returns, the scratch directory is
    [sum-diff-preview] below %TEMP%, or below %TMP% when TEMP is empty,
    and one of the two is set; the scratch root is a directory, and
    every node that was on disk is still there unchanged. *)
Theorem createTempDirMust_makes_scratch_root (P : Platform) (s s' : State) :
  createTempDirMust P s = Return tt s' ->
  ((Getenv P "TEMP" <> []
    /\ tempDir s' = Join P (Getenv P "TEMP") "sum-diff-preview")
   \/ (Getenv P "TEMP" = [] /\ Getenv P "TMP" <> []
       /\ tempDir s' = Join P (Getenv P "TMP") "sum-diff-preview"))
  /\ isDir (fs s') (scratchRoot P s') = true
  /\ (forall k n, fs s !! k = Some n -> fs s' !! k = Some n)
  /\ procs s' = procs s /\ cwd s' = cwd s.
Proof.
  unfold createTempDirMust, getWinTempDirMust, os_MkdirAll, scratchRoot, key.
  unfold_monad.
  assert (Hdir : forall now rest m m',
             mkdirs now [] rest m = Some m' -> isDir m' rest = true).
  { intros now rest m m' E. apply mkdirs_keeps in E as [_ Hd].
    unfold isDir. destruct rest as [|c rest]; [reflexivity|].
    destruct Hd as [t Hd]; [discriminate|]. simpl in Hd. rewrite Hd.
    reflexivity. }
  destruct (bool_decide_reflect (Getenv P "TEMP" = [])) as [Et|Et]; cbn.
  - destruct (bool_decide_reflect (Getenv P "TMP" = [])) as [Em|Em]; cbn;
      [discriminate|].
    destruct (mkdirs _ _ _ _) as [m'|] eqn:E; cbn; [|discriminate].
    intros H. inversion H; subst. cbn.
    split; [right; auto|]. split; [eapply Hdir; exact E|].
    split; [apply mkdirs_keeps in E as [Hk _]; exact Hk | auto].
  - destruct (mkdirs _ _ _ _) as [m'|] eqn:E; cbn; [|discriminate].
    intros H. inversion H; subst. cbn.
    split; [left; auto|]. split; [eapply Hdir; exact E|].
    split; [apply mkdirs_keeps in E as [Hk _]; exact Hk | auto].
Qed.

Lemma createTempDirMust_makes_scratch_root_witness :
  exists s',
    createTempDirMust Example.platform batchState = Return tt s'
    /\ tempDir s' = "C:\Temp\sum-diff-preview"
    /\ isDir (fs s') (scratchRoot Example.platform s') = true.
Proof.
  assert (E : exists s',
             createTempDirMust Example.platform batchState = Return tt s')
    by (eexists; vm_compute; reflexivity).
  destruct E as [s' E]. exists s'. split; [exact E|].
  destruct (createTempDirMust_makes_scratch_root Example.platform batchState
              s' E) as ([[_ Ht]|[Ht _]] & Hd & _).
  - split; [rewrite Ht; vm_compute; reflexivity | exact Hd].
  - vm_compute in Ht. discriminate.
Defined.

(** X9. A file where the scratch root or a directory above it should be
    ends the run: [createTempDirMust] exits with status 1 and creates
    nothing. *)
Theorem scratch_root_blocked_by_a_file (P : Platform) (s : State)
    (dir : gostr) (k : list gostr) (t : Z) (d : gostr) :
  getWinTempDirMust P s = Return dir s ->
  k <> [] ->
  k `prefix_of` resolve P (cwd s) (Join P dir "sum-diff-preview") ->
  fs s !! k = Some (File t d) ->
  exists s',
    createTempDirMust P s = Exited 1 s'
    /\ fs s' = fs s /\ procs s' = procs s
    /\ last (stdout s') = Some StackDump.
Proof.
  intros Hdir Hne Hpre Hk. unfold createTempDirMust.
  rewrite (bind_Return _ _ _ _ _ Hdir).
  unfold os_MkdirAll, key. unfold_monad. cbn.
  rewrite (mkdirs_blocked _ _ [] k _ t d Hne Hpre Hk). cbn.
  eexists. split; [reflexivity|]. cbn. split; [reflexivity|].
  split; [reflexivity | apply last_snoc].
Qed.

Lemma scratch_root_blocked_by_a_file_witness :
  exists s',
    createTempDirMust Example.platform blockedState = Exited 1 s'
    /\ fs s' = fs blockedState /\ procs s' = procs blockedState
    /\ last (stdout s') = Some StackDump.
Proof.
  apply (scratch_root_blocked_by_a_file Example.platform blockedState
           "C:\Temp"
           ["C:" : gostr; "Temp" : gostr; "sum-diff-preview" : gostr]
           3 "x").
  - reflexivity.
  - discriminate.
  - vm_compute. exists []. reflexivity.
  - vm_compute. reflexivity.
Defined.

(** ** More on the retention sweep *)

Lemma Sub_mono (t t' u : Z) : (t <= t')%Z -> (Sub t u <= Sub t' u)%Z.
Proof. unfold Sub. lia. Qed.

Lemma doomed_old (P : Platform) (l : list FileInfo) (t : nat) (fi : FileInfo) :
  (forall i, (t <= i)%nat ->
             (Sub (Clock P i) (fi_ModTime fi) > Hour * 24)%Z) ->
  fi ∈ l -> fi_IsDir fi = true -> fi_Name fi ∈ doomed P l t.
Proof.
  revert t. induction l as [|x l IH]; intros t Hold Hin Hd.
  - apply elem_of_nil in Hin. contradiction.
  - simpl. apply elem_of_cons in Hin as [<-|Hin].
    + rewrite Hd. pose proof (Hold t (le_n t)) as Ht.
      destruct (Z.gtb_spec (Sub (Clock P t) (fi_ModTime fi)) (Hour * 24));
        [left | lia].
    + destruct (fi_IsDir x).
      * destruct (Sub (Clock P t) (fi_ModTime x) >? Hour * 24)%Z;
          [right|]; apply IH; auto; intros i Hi; apply Hold; lia.
      * apply IH; auto.
Qed.

(** X10. The sweep removes what is old.  With a clock that does not run
    backwards, a directory of the scratch root that is older than 24
    hours when the sweep starts is gone afterwards, with everything
    below it. *)
Theorem old_directory_is_removed (P : Platform) (L : PlatformLaws P)
    (s : State) (n : gostr) (mt : Z) :
  isDir (fs s) (scratchRoot P s) = true ->
  properNames P s ->
  (forall i j, (i <= j)%nat -> (Clock P i <= Clock P j)%Z) ->
  fs s !! (scratchRoot P s ++ [n]) = Some (Dir mt) ->
  (Sub (wallClock P s) mt > Hour * 24)%Z ->
  exists s',
    deleteOldDirs P s = Return tt s'
    /\ forall k, (scratchRoot P s ++ [n]) `prefix_of` k -> fs s' !! k = None.
Proof.
  intros Hroot Hnames Hmono Hlk Hold.
  destruct (deleteOldDirs_run P L s Hroot Hnames)
    as (s' & E & _ & _ & _ & _ & Hfs).
  exists s'. split; [exact E|]. intros k Hpre.
  destruct (fs s' !! k) as [x|] eqn:Ek; [|reflexivity].
  exfalso. apply Hfs in Ek as [_ Hnot]. apply (Hnot n); [|exact Hpre].
  change n with (fi_Name (infoOf n (Dir mt))).
  apply doomed_old.
  - intros i Hi. simpl. unfold wallClock in Hold.
    pose proof (Sub_mono _ _ mt (Hmono _ _ Hi)). lia.
  - apply listing_elem. eauto.
  - reflexivity.
Qed.

Lemma old_directory_is_removed_witness :
  exists s',
    deleteOldDirs Example.platform sweepState = Return tt s'
    /\ fs s' !! (scratchRoot Example.platform sweepState
                 ++ ["old" : gostr; "before" : gostr]) = None.
Proof.
  destruct (old_directory_is_removed Example.platform Example_laws sweepState
              "old" 5) as (s' & E & H).
  - vm_compute. reflexivity.
  - apply properNamesb_true. vm_compute. reflexivity.
  - intros i j _. reflexivity.
  - vm_compute. reflexivity.
  - vm_compute. reflexivity.
  - exists s'. split; [exact E|]. apply H.
    exists ["before" : gostr]. rewrite <- app_assoc. reflexivity.
Defined.

(** X11. The sweep stays below the scratch root.  When [deleteOldDirs]
    returns it has created and changed no node, every node that is not
    an entry of the scratch root or below one is as it was, and no
    process has been started. *)
Theorem sweep_stays_below_scratch_root (P : Platform) (L : PlatformLaws P)
    (s s' : State) :
  properNames P s ->
  deleteOldDirs P s = Return tt s' ->
  (forall k n, fs s' !! k = Some n -> fs s !! k = Some n)
  /\ (forall k,
        (forall name, ~ (scratchRoot P s ++ [name]) `prefix_of` k) ->
        fs s' !! k = fs s !! k)
  /\ procs s' = procs s /\ cwd s' = cwd s /\ tempDir s' = tempDir s.
Proof.
  intros Hnames E.
  destruct (isDir (fs s) (scratchRoot P s)) eqn:Hroot.
  2:{ rewrite (deleteOldDirs_no_root P s Hroot) in E. discriminate. }
  destruct (deleteOldDirs_run P L s Hroot Hnames)
    as (s1 & E1 & Hc & Ht & Hp & _ & Hfs).
  rewrite E1 in E. inversion E; subst s1. clear E.
  split; [intros k n Hk; apply Hfs in Hk; tauto|].
  split; [|auto].
  intros k Hout. apply option_eq. intros x. rewrite Hfs.
  split; [tauto|]. intros Hk. split; [exact Hk|].
  intros name _. apply Hout.
Qed.

Lemma sweep_stays_below_scratch_root_witness :
  exists s',
    deleteOldDirs Example.platform sweepState = Return tt s'
    /\ fs s' !! ["C:" : gostr; "repo" : gostr; "src" : gostr; "a.go" : gostr]
       = Some (File 7 "package a2")
    /\ procs s' = [].
Proof.
  assert (E : exists s',
             deleteOldDirs Example.platform sweepState = Return tt s')
    by (eexists; vm_compute; reflexivity).
  destruct E as [s' E]. exists s'. split; [exact E|].
  destruct (sweep_stays_below_scratch_root Example.platform Example_laws
              sweepState s') as (_ & Hout & Hp & _).
  - apply properNamesb_true. vm_compute. reflexivity.
  - exact E.
  - split; [|exact Hp]. rewrite Hout; [vm_compute; reflexivity|].
    intros name Hpre. apply prefix_length in Hpre as Hlen.
    destruct Hpre as [r Hr]. vm_compute in Hr. discriminate.
Defined.

(** ** More on the snapshot builder *)
Section BuilderSteps.
Context (P : Platform) (L : PlatformLaws P).

(** [catGitHeadToFileMust] when git succeeds and the file can be made. *)
Lemma catGitHeadToFileMust_ok (dst path : gostr) (s : State) (h : gostr) :
  Run P (gitPath s) ["show" : gostr; "HEAD:" ++ path] = (h, None) ->
  isDir (fs s) (removelast (key P dst s)) = true ->
  isDir (fs s) (key P dst s) = false ->
  exists s',
    catGitHeadToFileMust P dst path s = Return tt s'
    /\ fs s' = <[key P dst s := File (wallClock P s) h]> (fs s)
    /\ procs s' = procs s ++ [showHead s path]
    /\ cwd s' = cwd s /\ gitPath s' = gitPath s /\ ticks s' = ticks s.
Proof.
  intros Hrun Hp Hd.
  unfold catGitHeadToFileMust, gitGetFileContentHeadMust, runCmd, os_Create,
    File_Write, key in *.
  unfold_monad. cbn. rewrite Hrun. cbn. rewrite Hp, Hd. cbn.
  rewrite lookup_insert_eq. cbn.
  eexists. split; [reflexivity|]. cbn. rewrite insert_insert_eq. auto 10.
Qed.

Lemma catGitHeadToFileMust_failed (dst path : gostr) (s : State)
    (out : gostr) (e : error) :
  Run P (gitPath s) ["show" : gostr; "HEAD:" ++ path] = (out, Some e) ->
  exists s',
    catGitHeadToFileMust P dst path s = Exited 1 s'
    /\ fs s' = fs s /\ procs s' = procs s ++ [showHead s path]
    /\ last (stdout s') = Some StackDump.
Proof.
  intros Hrun.
  unfold catGitHeadToFileMust, gitGetFileContentHeadMust, runCmd.
  unfold_monad. cbn. rewrite Hrun. cbn.
  eexists. split; [reflexivity|]. cbn. split; [reflexivity|].
  split; [reflexivity | apply last_snoc].
Qed.

Lemma isDir_File (m : gmap (list gostr) Node) (k : list gostr) t d :
  k <> [] -> isDir (<[k := File t d]> m) k = false.
Proof.
  intros Hk. unfold isDir. destruct k; [contradiction|].
  rewrite lookup_insert_eq. reflexivity.
Qed.

Lemma isDir_false_ne (m : gmap (list gostr) Node) (k : list gostr) :
  isDir m k = false -> k <> [].
Proof. intros H ->. discriminate. Qed.

End BuilderSteps.

(** X12. A Modified record is staged as the committed content in the
    before directory and the working-tree content in the after directory;
    a Deleted record whose file is still in the working tree takes the
    same branch.  With the file on disk, [git show HEAD:<path>]
    succeeding, both directories in place and the three paths naming
    three different nodes, [copyFileChangeMust] returns: the before file
    holds the bytes git printed, the after file the bytes of the
    working-tree file, which is unchanged, and that one [git show] is the
    only process started. *)
Theorem modified_record_is_staged (P : Platform) (L : PlatformLaws P)
    (dir : gostr) (c : GitChange) (s : State) (d h : gostr) :
  Type_ c = Modified \/ Type_ c = Deleted ->
  content (fs s) (srcKey P c s) = Some d ->
  Run P (gitPath s) ["show" : gostr; "HEAD:" ++ Path c] = (h, None) ->
  isDir (fs s) (removelast (beforeKey P dir c s)) = true ->
  isDir (fs s) (beforeKey P dir c s) = false ->
  isDir (fs s) (removelast (afterKey P dir c s)) = true ->
  isDir (fs s) (afterKey P dir c s) = false ->
  beforeKey P dir c s <> afterKey P dir c s ->
  srcKey P c s <> beforeKey P dir c s ->
  srcKey P c s <> afterKey P dir c s ->
  exists s',
    copyFileChangeMust P dir c s = Return tt s'
    /\ content (fs s') (beforeKey P dir c s) = Some h
    /\ content (fs s') (afterKey P dir c s) = Some d
    /\ content (fs s') (srcKey P c s) = Some d
    /\ procs s' = procs s ++ [showHead s (Path c)].
Proof.
  intros Ht Hsrc Hrun Hbp Hb Hap Ha Hba Hsb Hsa.
  apply content_File in Hsrc as [t Hsrc].
  assert (E : copyFileChangeMust P dir c s
              = copyFileModifiedMust P (getBeforeAfterDirs P dir).1
                  (getBeforeAfterDirs P dir).2 c s).
  { unfold copyFileChangeMust. destruct Ht as [-> | ->]; reflexivity. }
  rewrite E. unfold copyFileModifiedMust, beforeKey, afterKey, srcKey in *.
  erewrite bind_Return
    by (apply (copyFileMust_ok P L _ _ _ t d); assumption).
  set (s1 := set_fs _ s).
  destruct (catGitHeadToFileMust_ok P
              (Join P (getBeforeAfterDirs P dir).1 (Name c)) (Path c) s1 h)
    as (s' & E' & Hfs & Hp & _).
  - exact Hrun.
  - apply isDir_insert_File; assumption.
  - unfold s1. cbn [fs set_fs].
    change (key P ?p (set_fs _ s)) with (key P p s).
    rewrite isDir_insert_ne by congruence. assumption.
  - exists s'. split; [exact E'|]. unfold content. rewrite Hfs.
    unfold s1. cbn [fs set_fs].
    change (key P ?p (set_fs _ s)) with (key P p s).
    split; [rewrite lookup_insert_eq; reflexivity|].
    split; [rewrite lookup_insert_ne by congruence;
            rewrite lookup_insert_eq; reflexivity|].
    split; [rewrite !lookup_insert_ne by congruence; rewrite Hsrc;
            reflexivity|].
    exact Hp.
Qed.

Lemma modified_record_is_staged_witness :
  exists s',
    copyFileChangeMust Example.platform "C:\run" batchModified stagingState
    = Return tt s'
    /\ content (fs s')
         (beforeKey Example.platform "C:\run" batchModified stagingState)
       = Some ("package a" : gostr)
    /\ content (fs s')
         (afterKey Example.platform "C:\run" batchModified stagingState)
       = Some ("package a2" : gostr)
    /\ content (fs s') (srcKey Example.platform batchModified stagingState)
       = Some ("package a2" : gostr)
    /\ procs s'
       = procs stagingState ++ [showHead stagingState (Path batchModified)].
Proof.
  apply (modified_record_is_staged Example.platform Example_laws "C:\run"
           batchModified stagingState "package a2" "package a");
    try (vm_compute; reflexivity); try (vm_compute; discriminate).
  left. reflexivity.
Defined.

(** X13. [copyFileDeletedMust], which no caller uses, stages a deletion:
    with [git show HEAD:<path>] succeeding and both directories in place,
    it returns, the after file is empty and the before file holds the
    bytes git printed; the working tree is not read. *)
Theorem copyFileDeletedMust_stages_a_deletion (P : Platform)
    (dir : gostr) (c : GitChange) (s : State) (h : gostr) :
  Run P (gitPath s) ["show" : gostr; "HEAD:" ++ Path c] = (h, None) ->
  isDir (fs s) (removelast (beforeKey P dir c s)) = true ->
  isDir (fs s) (beforeKey P dir c s) = false ->
  isDir (fs s) (removelast (afterKey P dir c s)) = true ->
  isDir (fs s) (afterKey P dir c s) = false ->
  beforeKey P dir c s <> afterKey P dir c s ->
  exists s',
    copyFileDeletedMust P (getBeforeAfterDirs P dir).1
      (getBeforeAfterDirs P dir).2 c s = Return tt s'
    /\ content (fs s') (afterKey P dir c s) = Some []
    /\ content (fs s') (beforeKey P dir c s) = Some h.
Proof. apply copyFileDeletedMust_ok. Qed.

Lemma copyFileDeletedMust_stages_a_deletion_witness :
  exists s',
    copyFileDeletedMust Example.platform "C:\run\before" "C:\run\after"
      deletedRecord stagingState = Return tt s'
    /\ content (fs s')
         (afterKey Example.platform "C:\run" deletedRecord stagingState)
       = Some []
    /\ content (fs s')
         (beforeKey Example.platform "C:\run" deletedRecord stagingState)
       = Some ("package c" : gostr).
Proof.
  apply (copyFileDeletedMust_stages_a_deletion Example.platform
           "C:\run" deletedRecord stagingState "package c");
    try (vm_compute; reflexivity); vm_compute; discriminate.
Defined.

(** X14. [catGitHeadToFileMust] writes what git printed, byte for byte:
    when [git show HEAD:<path>] succeeds and the target can be created,
    the target holds exactly the output, whatever it held before, and no
    other node changes. *)
Theorem catGitHeadToFileMust_writes_verbatim (P : Platform) (dst path : gostr)
    (s : State) (h : gostr) :
  Run P (gitPath s) ["show" : gostr; "HEAD:" ++ path] = (h, None) ->
  isDir (fs s) (removelast (key P dst s)) = true ->
  isDir (fs s) (key P dst s) = false ->
  exists s',
    catGitHeadToFileMust P dst path s = Return tt s'
    /\ content (fs s') (key P dst s) = Some h
    /\ (forall k, k <> key P dst s -> fs s' !! k = fs s !! k)
    /\ procs s' = procs s ++ [showHead s path].
Proof.
  intros Hrun Hp Hd.
  destruct (catGitHeadToFileMust_ok P dst path s h Hrun Hp Hd)
    as (s' & E & Hfs & Hpr & _).
  exists s'. split; [exact E|]. unfold content. rewrite Hfs.
  split; [rewrite lookup_insert_eq; reflexivity|].
  split; [|exact Hpr].
  intros k Hk. rewrite lookup_insert_ne by congruence. reflexivity.
Qed.

Lemma catGitHeadToFileMust_writes_verbatim_witness :
  exists s',
    catGitHeadToFileMust Example.platform "C:\repo\src\a.go" "src/a.go"
      stagingState = Return tt s'
    /\ content (fs s')
         ["C:" : gostr; "repo" : gostr; "src" : gostr; "a.go" : gostr]
       = Some ("package a" : gostr).
Proof.
  destruct (catGitHeadToFileMust_writes_verbatim Example.platform
              "C:\repo\src\a.go" "src/a.go" stagingState "package a")
    as (s' & E & Hc & _); try (vm_compute; reflexivity).
  exists s'. split; [exact E | exact Hc].
Defined.

(** X15. When [git show] fails, [catGitHeadToFileMust] ends the run with
    status 1 before the target is created: the file system is as it was,
    whatever git printed before it failed. *)
Theorem catGitHeadToFileMust_git_failure (P : Platform) (dst path : gostr)
    (s : State) (out : gostr) (e : error) :
  Run P (gitPath s) ["show" : gostr; "HEAD:" ++ path] = (out, Some e) ->
  exists s',
    catGitHeadToFileMust P dst path s = Exited 1 s'
    /\ fs s' = fs s /\ procs s' = procs s ++ [showHead s path]
    /\ last (stdout s') = Some StackDump.
Proof. apply catGitHeadToFileMust_failed. Qed.

Lemma catGitHeadToFileMust_git_failure_witness :
  exists s',
    catGitHeadToFileMust Example.platform "C:\run\before\b.go" "src/b.go"
      stagingState = Exited 1 s'
    /\ fs s' = fs stagingState.
Proof.
  destruct (catGitHeadToFileMust_git_failure Example.platform
              "C:\run\before\b.go" "src/b.go" stagingState []
              (ExecError "C:\bin\git.exe"
                 ["show" : gostr; "HEAD:src/b.go" : gostr]))
    as (s' & E & Hfs & _); [vm_compute; reflexivity|].
  exists s'. split; [exact E | exact Hfs].
Defined.

(** X16. A record whose file is not in the working tree leaves a trace:
    [copyFileMust] creates the target first and opens the source second,
    so when the source is missing the run ends with status 1 and the
    target stays behind as an empty file. *)
Theorem missing_source_leaves_empty_target (P : Platform)
    (L : PlatformLaws P) (dst src : gostr) (s : State) :
  isDir (fs s) (removelast (key P dst s)) = true ->
  isDir (fs s) (key P dst s) = false ->
  fs s !! key P src s = None ->
  key P src s <> [] ->
  key P src s <> key P dst s ->
  exists s',
    copyFileMust P dst src s = Exited 1 s'
    /\ fs s' = <[key P dst s := File (wallClock P s) []]> (fs s)
    /\ procs s' = procs s.
Proof.
  intros Hp Hd Hs Hnr Hne. unfold copyFileMust.
  erewrite bind_Return
    by (apply os_Create_ok; rewrite (key_Replace P L); assumption).
  rewrite (key_Replace P L). cbv beta iota. rewrite fataliferr_None_bind.
  unfold os_Open. unfold mbind, M_bind, bind. cbn [fs set_fs].
  change (key P (strings.Replace src "/" "\") (set_fs _ s))
    with (key P (strings.Replace src "/" "\") s).
  rewrite (key_Replace P L).
  assert (Hi : isDir (<[key P dst s := File (wallClock P s) []]> (fs s))
                     (key P src s) = false).
  { unfold isDir. destruct (key P src s) as [|x k]; [contradiction|].
    rewrite lookup_insert_ne by congruence. rewrite Hs. reflexivity. }
  rewrite Hi, lookup_insert_ne by congruence. rewrite Hs.
  rewrite bool_decide_eq_false_2 by (intros [? ?]; discriminate).
  cbn. eexists. split; [reflexivity|]. cbn. auto.
Qed.

Lemma missing_source_leaves_empty_target_witness :
  exists s',
    copyFileMust Example.platform "C:\run\after\gone.go" "src/gone.go"
      stagingState = Exited 1 s'
    /\ fs s'
         !! ["C:" : gostr; "run" : gostr; "after" : gostr; "gone.go" : gostr]
       = Some (File (1000 * Hour) []).
Proof.
  destruct (missing_source_leaves_empty_target Example.platform Example_laws
              "C:\run\after\gone.go" "src/gone.go" stagingState)
    as (s' & E & Hfs & _);
    try (vm_compute; reflexivity); try (vm_compute; discriminate).
  exists s'. split; [exact E|]. rewrite Hfs. vm_compute. reflexivity.
Defined.

(** X17. Records are told apart by their names only.  Of two Added
    records with the same name and different files, staged one after the
    other, the second overwrites the first: the after file ends up with
    the bytes of the second file, and nothing of the first is left. *)
Theorem same_name_records_overwrite (P : Platform) (L : PlatformLaws P)
    (dir : gostr) (c1 c2 : GitChange) (s : State) (d1 d2 : gostr) :
  Type_ c1 = Added -> Type_ c2 = Added -> Name c1 = Name c2 ->
  content (fs s) (srcKey P c1 s) = Some d1 ->
  content (fs s) (srcKey P c2 s) = Some d2 ->
  isDir (fs s) (removelast (beforeKey P dir c1 s)) = true ->
  isDir (fs s) (beforeKey P dir c1 s) = false ->
  isDir (fs s) (removelast (afterKey P dir c1 s)) = true ->
  isDir (fs s) (afterKey P dir c1 s) = false ->
  beforeKey P dir c1 s <> afterKey P dir c1 s ->
  srcKey P c1 s <> beforeKey P dir c1 s ->
  srcKey P c1 s <> afterKey P dir c1 s ->
  srcKey P c2 s <> beforeKey P dir c1 s ->
  srcKey P c2 s <> afterKey P dir c1 s ->
  exists s',
    forEach [c1; c2] (fun change => copyFileChangeMust P dir change) s
    = Return tt s'
    /\ afterKey P dir c2 s = afterKey P dir c1 s
    /\ content (fs s') (afterKey P dir c1 s) = Some d2
    /\ content (fs s') (beforeKey P dir c1 s) = Some [].
Proof.
  intros Ht1 Ht2 Hn Hs1 Hs2 Hbp Hb Hap Ha Hba Hsb1 Hsa1 Hsb2 Hsa2.
  assert (Eb : forall s0, beforeKey P dir c2 s0 = beforeKey P dir c1 s0)
    by (intros s0; unfold beforeKey; rewrite Hn; reflexivity).
  assert (Ea : forall s0, afterKey P dir c2 s0 = afterKey P dir c1 s0)
    by (intros s0; unfold afterKey; rewrite Hn; reflexivity).
  assert (Hc : forall c, Type_ c = Added ->
             forall s0, copyFileChangeMust P dir c s0
             = copyFileAddedMust P (getBeforeAfterDirs P dir).1
                 (getBeforeAfterDirs P dir).2 c s0).
  { intros c Ht s0. unfold copyFileChangeMust. rewrite Ht. reflexivity. }
  cbn [forEach]. unfold mbind, M_bind, bind.
  rewrite (Hc c1 Ht1), (copyFileAddedMust_ok P L dir c1 s d1) by assumption.
  set (s1 := set_fs _ s).
  assert (Kb : beforeKey P dir c1 s1 = beforeKey P dir c1 s) by reflexivity.
  assert (Ka : afterKey P dir c1 s1 = afterKey P dir c1 s) by reflexivity.
  assert (Ks : srcKey P c2 s1 = srcKey P c2 s) by reflexivity.
  pose proof (isDir_false_ne _ _ Hb) as Hbn.
  pose proof (isDir_false_ne _ _ Ha) as Han.
  rewrite (Hc c2 Ht2), (copyFileAddedMust_ok P L dir c2 s1 d2);
    rewrite ?Eb, ?Ea, ?Kb, ?Ka, ?Ks; unfold s1; cbn [fs set_fs];
    try assumption.
  - eexists. split; [reflexivity|]. split; [reflexivity|].
    unfold content. cbn [fs set_fs].
    split; [rewrite lookup_insert_eq; reflexivity|].
    rewrite lookup_insert_ne by congruence.
    rewrite lookup_insert_eq. reflexivity.
  - unfold content in *. rewrite !lookup_insert_ne by congruence.
    exact Hs2.
  - apply isDir_insert_File; [rewrite isDir_insert_ne by congruence;
                              assumption|].
    apply isDir_insert_File; assumption.
  - rewrite isDir_insert_ne by congruence. apply isDir_File. assumption.
  - apply isDir_insert_File; [rewrite isDir_insert_ne by congruence;
                              assumption|].
    apply isDir_insert_File; assumption.
  - apply isDir_File. assumption.
Qed.

Lemma same_name_records_overwrite_witness :
  exists s',
    forEach [twinA; twinB]
      (fun change => copyFileChangeMust Example.platform "C:\run" change)
      twinState = Return tt s'
    /\ content (fs s') (afterKey Example.platform "C:\run" twinA twinState)
       = Some ("second" : gostr).
Proof.
  destruct (same_name_records_overwrite Example.platform Example_laws
              "C:\run" twinA twinB twinState "first" "second")
    as (s' & E & _ & Ha & _);
    try (vm_compute; reflexivity); try (vm_compute; discriminate).
  exists s'. split; [exact E | exact Ha].
Defined.
